(** * Beam planner: a shallow embedding of [solution.cpp]

    The program reads a scenario file (users, satellites, interferers as
    points in space), computes for every user the satellites it may talk
    to, and greedily hands out (satellite, colour) beams.

    The embedding follows [src/solution.cpp] function by function:
    [calc_angle], [split], [generate_user_vis_list],
    [assign_beams_and_print], [solve] and [main].  The second file of
    the repository, [src/gannon_submission_0/solution.cpp], is an earlier
    copy with the same arithmetic and the same parser; its visibility
    loop is written as a [while] ([visible_while]), and its engine, with
    one more assertion, and its [main] are in the module [Gannon].

    Numbers.  [float] is IEEE 754 binary32 and [double] is binary64, both
    given by the Standard Library's executable specification
    ([SpecFloat]); every arithmetic operation below is the correctly
    rounded one (round to nearest, ties to even), evaluated in the type
    the C++ expression has, without fused operations.  The only
    operation IEEE 754 does not pin down is the arc cosine of the C
    library; it is a parameter.

    Memory.  The [vector]s and [int]s made by [new] live in a heap of two
    lists and pointers are indices into them, so that the four entries of
    a satellite share one counter as they do in the source.

    Termination.  A run returns, or stops at an exception that is not
    caught, at a failed [assert] (assertions are compiled in) or at
    undefined behaviour.  Vectors are taken to have fewer than 2^31
    elements, so the [int] loop counters and indices do not overflow. *)

From stdpp Require Import base list gmap strings.
From Stdlib Require Import ZArith Ascii Sorting.Sorted Floats.SpecFloat.

Local Open Scope Z_scope.

(** ** Binary32 and binary64 arithmetic *)

Abbreviation float := spec_float (only parsing).
Abbreviation double := spec_float (only parsing).

Module F32.
Definition prec : Z := 24.
Definition emax : Z := 128.

Definition add := SFadd prec emax.
Definition sub := SFsub prec emax.
Definition mul := SFmul prec emax.
Definition div := SFdiv prec emax.

(** An integer as a [float] (exact for the small constants used here). *)
Definition of_Z (z : Z) : spec_float := binary_normalize prec emax z 0 false.

Definition zero : spec_float := S754_zero false.
Definition one : spec_float := of_Z 1.
End F32.

Module F64.
Definition prec : Z := 53.
Definition emax : Z := 1024.

Definition add := SFadd prec emax.
Definition sub := SFsub prec emax.
Definition mul := SFmul prec emax.
Definition div := SFdiv prec emax.
Definition sqrt := SFsqrt prec emax.
Definition ltb := SFltb.
Definition leb := SFleb.

(** [a > b] as C++ evaluates it: false as soon as one side is a NaN. *)
Definition gtb (a b : spec_float) : bool :=
  match SFcompare a b with
  | Some Gt => true
  | _ => false
  end.

Definition of_Z (z : Z) : spec_float := binary_normalize prec emax z 0 false.

(** The [double] literal [3.141592653589793] of [calc_angle]. *)
Definition pi_literal : spec_float :=
  S754_finite false 7074237752028440 (-51).
End F64.

(** Conversion [float] to [double] (exact) and [double] to [float]
    (rounded to nearest even, overflowing to an infinity). *)
Definition to_double (x : float) : double :=
  match x with
  | S754_finite s m e =>
      binary_normalize F64.prec F64.emax (cond_Zopp s (Zpos m)) e s
  | _ => x
  end.

Definition to_float (x : double) : float :=
  match x with
  | S754_finite s m e =>
      binary_normalize F32.prec F32.emax (cond_Zopp s (Zpos m)) e s
  | _ => x
  end.

(** ** Source constants *)

Definition BEAMS_PER_SATELLITE : Z := 32.
Definition COLORS_PER_SATELLITE : Z := 4.
Definition MAX_USER_VISIBLE_ANGLE : double := F64.of_Z 45.
Definition NON_STARLINK_INTERFERENCE_MAX : double := F64.of_Z 20.
Definition SELF_INTERFERENCE_MAX : double := F64.of_Z 10.
Definition COLOR_IDS : list ascii := ["A"; "B"; "C"; "D"]%char.

Definition USER_KEY : string := "user".
Definition SATS_KEY : string := "sat".
Definition INTERFERER_KEY : string := "interferer".

(** [array<float, 3>] *)
Record vector_3d_t := Vec3 { vx : float; vy : float; vz : float }.

#[global] Instance spec_float_eq_dec : EqDecision spec_float.
Proof. solve_decision. Defined.

#[global] Instance vector_3d_t_eq_dec : EqDecision vector_3d_t.
Proof. solve_decision. Defined.

Abbreviation pos_vec_t := (list vector_3d_t).

Definition ORIGIN : vector_3d_t := Vec3 F32.zero F32.zero F32.zero.

(** The macros [MIN] and [MAX], at the [double] type their uses have. *)
Definition MAX (a b : double) : double := if F64.gtb a b then a else b.
Definition MIN (a b : double) : double := if F64.ltb a b then a else b.

(** ** Geometry *)

Section Geometry.
(** The C library's arc cosine, applied to the [float]
    [dot_product_bound]; its result as the [double] operand of the
    multiplication by [180.0] that follows. *)
Variable acos : float -> double.

(** [pow(x, 2)]: the arguments promote to [double], where the square of
    a [float] is exact. *)
Definition pow2 (x : float) : double := F64.mul (to_double x) (to_double x).

(** [sqrt(pow(v[0],2) + pow(v[1],2) + pow(v[2],2))], stored in a [float]. *)
Definition magnitude (v : vector_3d_t) : float :=
  to_float (F64.sqrt (F64.add (F64.add (pow2 (vx v)) (pow2 (vy v))) (pow2 (vz v)))).

Definition vec_sub (p q : vector_3d_t) : vector_3d_t :=
  Vec3 (F32.sub (vx p) (vx q)) (F32.sub (vy p) (vy q)) (F32.sub (vz p) (vz q)).

Definition vec_norm (v : vector_3d_t) : vector_3d_t :=
  let mag := magnitude v in
  Vec3 (F32.div (vx v) mag) (F32.div (vy v) mag) (F32.div (vz v) mag).

Definition dot (a b : vector_3d_t) : float :=
  F32.add (F32.add (F32.mul (vx a) (vx b)) (F32.mul (vy a) (vy b)))
          (F32.mul (vz a) (vz b)).

(** [dot_product_bound] of [calc_angle]. *)
Definition dot_product_bound (vertex point_a point_b : vector_3d_t) : float :=
  let va_norm := vec_norm (vec_sub point_a vertex) in
  let vb_norm := vec_norm (vec_sub point_b vertex) in
  let dot_product := dot va_norm vb_norm in
  to_float (MIN (F64.of_Z 1) (MAX (F64.of_Z (-1)) (to_double dot_product))).

(** [acos(x) * 180.0 / 3.141592653589793], stored in a [float]. *)
Definition to_degrees (radians : double) : float :=
  to_float (F64.div (F64.mul radians (F64.of_Z 180)) F64.pi_literal).

Definition calc_angle (vertex point_a point_b : vector_3d_t) : float :=
  to_degrees (acos (dot_product_bound vertex point_a point_b)).
End Geometry.

(** ** Abnormal termination

    A run of the program ends by returning from [solve], or is cut short
    by an exception nobody catches, by a failed [assert], or by undefined
    behaviour (an index past the end of a [vector], signed overflow). *)

Inductive exception :=
  | invalid_argument (what : string)
  | out_of_range (what : string).

Inductive assertion :=
  | assert_role_key      (* solve: parts[0] is one of the three keys *)
  | assert_sat_id.       (* assign_beams_and_print: next_beam_entry.sat_id == sat_i *)

Inductive fault :=
  | Uncaught (e : exception)
  | AssertionFailed (a : assertion)
  | UndefinedBehaviour.

Inductive res (A : Type) :=
  | Ok (a : A)
  | Fault (f : fault).
Arguments Ok {A} a.
Arguments Fault {A} f.

#[global] Instance res_ret : MRet res := fun A a => Ok a.
#[global] Instance res_bind : MBind res := fun A B k m =>
  match m with
  | Ok a => k a
  | Fault f => Fault f
  end.

(** [v[i]] on a [vector]: undefined behaviour out of range. *)
Definition at_index {A} (v : list A) (i : Z) : res A :=
  if decide (0 <= i) then
    match v !! Z.to_nat i with
    | Some a => Ok a
    | None => Fault UndefinedBehaviour
    end
  else Fault UndefinedBehaviour.

(** [*p] for a pointer into one of the two heaps. *)
Definition deref {A} (heap : list A) (p : nat) : res A :=
  match heap !! p with
  | Some a => Ok a
  | None => Fault UndefinedBehaviour
  end.

Definition INT_MIN : Z := - 2 ^ 31.
Definition INT_MAX : Z := 2 ^ 31 - 1.

Arguments at_index : simpl never.
Arguments deref : simpl never.

(** An [int] result: signed overflow is undefined behaviour. *)
Definition int_result (z : Z) : res Z :=
  if decide (INT_MIN <= z <= INT_MAX) then Ok z else Fault UndefinedBehaviour.

(** ** Strings and the C++ library functions the parser calls *)


(** [text.find(sep, start)]; [None] is [string::npos]. *)
Fixpoint find (text : string) (sep : ascii) (start : nat) : option nat :=
  match text with
  | EmptyString => None
  | String c rest =>
      match start with
      | O => if Ascii.eqb c sep then Some O else S <$> find rest sep O
      | S start' => S <$> find rest sep start'
      end
  end.

(** [text.substr(start, len)] for [start <= text.size()]. *)
Definition substr (text : string) (start len : nat) : string :=
  String.substring start len text.

(** The loop of [split].  Every round moves [start] past a separator, so
    [S (length text)] rounds are never used up ([split_loop_fuel]). *)
Fixpoint split_loop (fuel : nat) (text : string) (sep : ascii)
    (start : nat) (tokens : list string) : list string :=
  match fuel with
  | O => tokens
  | S fuel' =>
      match find text sep start with
      | Some end_ =>
          split_loop fuel' text sep (end_ + 1)
            (tokens ++ [substr text start (end_ - start)])
      | None => tokens ++ [substr text start (String.length text - start)]
      end
  end.

Definition split (text : string) (sep : ascii) : list string :=
  split_loop (S (String.length text)) text sep 0 [].

(** The lines [getline] yields, one after the other, for a file of the
    given content: a newline ends a line, and so does the end of the file
    when characters were read since the last newline. *)
Fixpoint getlines (content : string) : list string :=
  match content with
  | EmptyString => []
  | String c rest =>
      if Ascii.eqb c "010" then EmptyString :: getlines rest
      else match getlines rest with
           | line :: lines => String c line :: lines
           | [] => [String c EmptyString]
           end
  end.

Definition code (c : ascii) : Z := Z.of_N (N_of_ascii c).

(** [isspace] in the C locale. *)
Definition isspace (c : ascii) : bool :=
  (code c =? 32) || ((9 <=? code c) && (code c <=? 13)).

Definition digit_value (c : ascii) : option Z :=
  if (48 <=? code c) && (code c <=? 57) then Some (code c - 48) else None.

Definition hex_digit_value (c : ascii) : option Z :=
  if (48 <=? code c) && (code c <=? 57) then Some (code c - 48)
  else if (97 <=? code c) && (code c <=? 102) then Some (code c - 87)
  else if (65 <=? code c) && (code c <=? 70) then Some (code c - 55)
  else None.

Fixpoint skip_space (s : string) : string :=
  match s with
  | String c rest => if isspace c then skip_space rest else s
  | EmptyString => s
  end.

(** An optional sign: [true] for a minus. *)
Definition take_sign (s : string) : bool * string :=
  match s with
  | String "-" rest => (true, rest)
  | String "+" rest => (false, rest)
  | _ => (false, s)
  end.

(** The longest run of digits at the head of [s]: its value on top of
    [acc], the number of digits on top of [n], and what follows. *)
Fixpoint take_digits (digit : ascii -> option Z) (base : Z) (acc : Z) (n : nat)
    (s : string) : Z * nat * string :=
  match s with
  | String c rest =>
      match digit c with
      | Some d => take_digits digit base (base * acc + d) (S n) rest
      | None => (acc, n, s)
      end
  | EmptyString => (acc, n, s)
  end.

(** [std::stoi(str)]: [strtol] in base 10, then the range of [int]. *)
Definition stoi (str : string) : res Z :=
  let '(neg, s) := take_sign (skip_space str) in
  let '(v, n, _) := take_digits digit_value 10 0 0 s in
  match n with
  | O => Fault (Uncaught (invalid_argument "stoi"))
  | _ =>
      let v := if neg then - v else v in
      if decide (INT_MIN <= v <= INT_MAX) then Ok v
      else Fault (Uncaught (out_of_range "stoi"))
  end.

(** *** [std::stof]

    [stof] calls [strtof]: white space, an optional sign, then a decimal
    or hexadecimal floating constant, [inf] or [nan]; it throws
    [invalid_argument] when no conversion is possible and [out_of_range]
    when [strtof] reports [ERANGE].  The value is the [float] nearest to
    the constant.  [ERANGE] is reported on overflow and on underflow.
    glibc reports underflow when the result is tiny and not exact, and
    on x86-64 it detects tininess after rounding: the constant, rounded
    to the 24 bits of a [float] as if the exponent had no lower bound,
    is below [FLT_MIN].  So a constant between the largest subnormal
    number and [FLT_MIN] is out of range even where the nearest [float]
    is [FLT_MIN], unless it rounds to [FLT_MIN] at 24 bits too. *)

(** The [float] nearest to [num / den], with the sign [neg]. *)
Definition round_ratio (neg : bool) (num den : positive) : float :=
  let '(q, e, l) :=
    SFdiv_core_binary F32.prec F32.emax (Zpos num) 0 (Zpos den) 0 in
  binary_round_aux F32.prec F32.emax neg q e l.

Definition is_ratio (x : float) (num den : positive) : bool :=
  match x with
  | S754_finite _ m e =>
      if 0 <=? e then Zpos m * 2 ^ e * Zpos den =? Zpos num
      else Zpos m * Zpos den =? Zpos num * 2 ^ (- e)
  | _ => false
  end.

(** [FLT_MIN], the smallest normal [float]: 2^-126. *)
Definition FLT_MIN : float := S754_finite false 8388608 (- 149).

(** The magnitude [num / den] rounded to 24 bits in a format whose
    exponents reach far below those of [float], so that nothing near
    [FLT_MIN] is subnormal in it. *)
Definition wide_emax : Z := 2 ^ 14.

Definition round_unbounded (num den : positive) : spec_float :=
  let '(q, e, l) :=
    SFdiv_core_binary F32.prec wide_emax (Zpos num) 0 (Zpos den) 0 in
  binary_round_aux F32.prec wide_emax false q e l.

(** Tininess after rounding, for the magnitude [num / den]. *)
Definition is_tiny (num den : positive) : bool :=
  SFltb (round_unbounded num den) FLT_MIN.

(** The value of [mant * base ^ expo] and whether [ERANGE] is set. *)
Definition scaled (neg : bool) (mant base expo : Z) : float * bool :=
  match mant with
  | Zpos m =>
      let '(num, den) :=
        if 0 <=? expo then (Z.to_pos (Zpos m * base ^ expo), 1%positive)
        else (m, Z.to_pos (base ^ (- expo))) in
      let x := round_ratio neg num den in
      let erange :=
        match x with
        | S754_infinity _ => true
        | _ => is_tiny num den && negb (is_ratio x num den)
        end in
      (x, erange)
  | _ => (S754_zero neg, false)
  end.

(** An exponent part: the marker ([e] or [p], either case), an optional
    sign and at least one digit; [0] when there is none. *)
Definition take_exponent (lower upper : ascii) (s : string) : Z :=
  match s with
  | String c rest =>
      if Ascii.eqb c lower || Ascii.eqb c upper then
        let '(neg, r) := take_sign rest in
        let '(v, n, _) := take_digits digit_value 10 0 0 r in
        match n with
        | O => 0
        | _ => if neg then - v else v
        end
      else 0
  | EmptyString => 0
  end.

(** Digits with an optional radix point, then an optional exponent.
    [bits] is what one digit after the point costs in the exponent. *)
Definition take_constant (digit : ascii -> option Z) (base ebase bits : Z)
    (lower upper : ascii) (neg : bool) (s : string) : option (float * bool) :=
  let '(ip, n1, r1) := take_digits digit base 0 0 s in
  let '(mant, n2, r2) :=
    match r1 with
    | String "." r => take_digits digit base ip 0 r
    | _ => (ip, O, r1)
    end in
  match (n1 + n2)%nat with
  | O => None
  | _ =>
      let x := take_exponent lower upper r2 in
      Some (scaled neg mant ebase (x - bits * Z.of_nat n2))
  end.

Definition to_lower (c : ascii) : ascii :=
  if (65 <=? code c) && (code c <=? 90) then ascii_of_N (N_of_ascii c + 32)
  else c.

Fixpoint starts_with_ci (word s : string) : bool :=
  match word, s with
  | EmptyString, _ => true
  | String w word', String c s' =>
      Ascii.eqb w (to_lower c) && starts_with_ci word' s'
  | String _ _, EmptyString => false
  end.

Definition strtof (str : string) : option (float * bool) :=
  let '(neg, s) := take_sign (skip_space str) in
  let decimal := take_constant digit_value 10 10 1 "e" "E" neg s in
  let hexadecimal :=
    match s with
    | String "0" (String x rest) =>
        if Ascii.eqb x "x" || Ascii.eqb x "X"
        then take_constant hex_digit_value 16 2 4 "p" "P" neg rest
        else None
    | _ => None
    end in
  match hexadecimal, decimal with
  | Some r, _ => Some r
  | None, Some r => Some r
  | None, None =>
      if starts_with_ci "inf" s then Some (S754_infinity neg, false)
      else if starts_with_ci "nan" s then Some (S754_nan, false)
      else None
  end.

Definition stof (str : string) : res float :=
  match strtof str with
  | None => Fault (Uncaught (invalid_argument "stof"))
  | Some (_, true) => Fault (Uncaught (out_of_range "stof"))
  | Some (x, false) => Ok x
  end.

(** ** Data of the program *)

(** [map<string, pos_vec_t>]; [scenario[key]] is [scenario_at]. *)
Abbreviation scenario_t := (gmap string pos_vec_t).

Definition scenario_at (scenario : scenario_t) (key : string) : pos_vec_t :=
  default [] (scenario !! key).

(** [scenario[key].push_back(pos)] *)
Definition scenario_push (scenario : scenario_t) (key : string)
    (pos : vector_3d_t) : scenario_t :=
  <[key := scenario_at scenario key ++ [pos]]> scenario.

(** The objects made by [new]: the [vector<vector_3d_t>] of every
    [SatBeamEntry] and the [int] the four entries of a satellite share.
    A pointer is the index of its object. *)
Record Heap := {
  beam_lists : list pos_vec_t;
  beam_counts : list Z
}.

Record SatBeamEntry := {
  sat_id : Z;
  color : ascii;
  beam_list : nat;               (* vector<vector_3d_t>* *)
  total_sat_beam_count : nat     (* int*, shared by the four colours *)
}.

(** The [vector<sat_id_t>] behind [visible_sats] is written only while its
    entry is built and has no other pointer to it: it is kept by value. *)
Record UserVisibilityEntry := {
  user_id : Z;
  visible_sats : list Z
}.

Definition sortUsersByPotentialCoverage (u1 u2 : UserVisibilityEntry) : bool :=
  (length (visible_sats u1) <? length (visible_sats u2))%nat.

(** One printed line [sat S beam N user U color C]. *)
Record AssignmentEvent := {
  ev_sat : Z;
  ev_beam : Z;
  ev_user : Z;
  ev_color : ascii
}.

Inductive output :=
  | FileDoesNotExist (filename : string)   (* File '...' does not exist *)
  | CouldntReadLine (line_buff : string)   (* couldn't read line!... *)
  | BeamLine (e : AssignmentEvent).

(** What a run printed, and how it ended ([None]: [solve] returned). *)
Record run := {
  stdout : list output;
  ended : option fault
}.

(** ** The parser of [solve] *)

Record parsed := {
  scenario : scenario_t;
  sat_beam_list : list SatBeamEntry;
  heap : Heap
}.

Definition empty_scenario : scenario_t :=
  <[USER_KEY := []]> (<[SATS_KEY := []]> (<[INTERFERER_KEY := []]> ∅)).

Definition parse_start : parsed :=
  {| scenario := empty_scenario;
     sat_beam_list := [];
     heap := {| beam_lists := []; beam_counts := [] |} |}.

(** [line_buff[0] == '#' || line_buff == ""] *)
Definition is_skipped (line_buff : string) : bool :=
  match line_buff with
  | String "#" _ => true
  | EmptyString => true
  | _ => false
  end.

Definition is_role_key (role : string) : bool :=
  String.eqb role USER_KEY || String.eqb role SATS_KEY
  || String.eqb role INTERFERER_KEY.

(** The loop over the colours for one [sat] line: each round converts the
    id token again, makes a fresh beam list and pushes an entry that
    points to the shared counter [beam_i_ptr]. *)
Fixpoint add_beam_entries (colors : list ascii) (id_token : string)
    (beam_i_ptr : nat) (entries : list SatBeamEntry) (lists : list pos_vec_t)
    : res (list SatBeamEntry * list pos_vec_t) :=
  match colors with
  | [] => Ok (entries, lists)
  | color :: colors' =>
      n ← stoi id_token;
      id ← int_result (n - 1);
      let entry := {| sat_id := id; color := color;
                      beam_list := length lists;
                      total_sat_beam_count := beam_i_ptr |} in
      add_beam_entries colors' id_token beam_i_ptr
        (entries ++ [entry]) (lists ++ [[]])
  end.

Inductive parse_outcome :=
  | Parsed (st : parsed)
  | Unreadable (line_buff : string).

(** One line that is neither empty nor a comment and has five parts. *)
Definition parse_record (parts : list string) (st : parsed) : res parsed :=
  role ← at_index parts 0;
  id_token ← at_index parts 1;
  x ← at_index parts 2 ≫= stof;
  y ← at_index parts 3 ≫= stof;
  z ← at_index parts 4 ≫= stof;
  let pos := Vec3 x y z in
  if is_role_key role then
    let scenario' := scenario_push (scenario st) role pos in
    if String.eqb role SATS_KEY then
      let beam_i_ptr := length (beam_counts (heap st)) in
      '(entries, lists) ←
        add_beam_entries COLOR_IDS id_token beam_i_ptr
          (sat_beam_list st) (beam_lists (heap st));
      Ok {| scenario := scenario';
            sat_beam_list := entries;
            heap := {| beam_lists := lists;
                       beam_counts := beam_counts (heap st) ++ [0] |} |}
    else
      Ok {| scenario := scenario';
            sat_beam_list := sat_beam_list st;
            heap := heap st |}
  else Fault (AssertionFailed assert_role_key).

Fixpoint parse_lines (lines : list string) (st : parsed) : res parse_outcome :=
  match lines with
  | [] => Ok (Parsed st)
  | line_buff :: rest =>
      if is_skipped line_buff then parse_lines rest st
      else
        let parts := split line_buff " " in
        if decide (length parts = 5%nat) then
          st' ← parse_record parts st;
          parse_lines rest st'
        else Ok (Unreadable line_buff)
  end.

(** ** Visibility, assignment and [solve] *)

Section Solver.
Variable acos : float -> double.

(** [std::sort(first, last, comp)].  The standard fixes its result only
    up to the order of elements that compare equal. *)
Variable std_sort :
  (UserVisibilityEntry -> UserVisibilityEntry -> bool) ->
  list UserVisibilityEntry -> list UserVisibilityEntry.

(** [calc_angle(...) <= (180.0 - MAX_USER_VISIBLE_ANGLE)], stored in the
    [float] [user_sat_angle] as [1] or [0]. *)
Definition user_sat_angle (user_pos sat_pos : vector_3d_t) : float :=
  if F64.leb (to_double (calc_angle acos user_pos ORIGIN sat_pos))
             (F64.sub (F64.of_Z 180) MAX_USER_VISIBLE_ANGLE)
  then F32.one else F32.zero.

(** A [float] as a condition: true unless it compares equal to zero. *)
Definition float_to_bool (x : float) : bool := negb (SFeqb x F32.zero).

(** The loop over the interferers, left at the first violation. *)
Definition interferer_violation (user_pos sat_pos : vector_3d_t)
    (interferers : pos_vec_t) : bool :=
  existsb (fun int_pos =>
             F64.ltb (to_double (calc_angle acos user_pos int_pos sat_pos))
                     NON_STARLINK_INTERFERENCE_MAX)
          interferers.

(** The entries [sat_beam_list[0]], [sat_beam_list[4]], ... that the loop
    [for (sat_beam_i = 0; sat_beam_i < num_sat_beams; sat_beam_i += 4)]
    reads; [skip] counts the entries to pass over before the next one. *)
Fixpoint stride (skip : nat) (entries : list SatBeamEntry) : list SatBeamEntry :=
  match entries with
  | [] => []
  | e :: rest =>
      match skip with
      | O => e :: stride (Z.to_nat COLORS_PER_SATELLITE - 1) rest
      | S skip' => stride skip' rest
      end
  end.

(** The loop over the satellites for the user [user_i]. *)
Fixpoint visible_loop (scenario : scenario_t) (user_i : Z)
    (heads : list SatBeamEntry) (visible : list Z) : res (list Z) :=
  match heads with
  | [] => Ok visible
  | beam_entry :: rest =>
      let sat_id := sat_id beam_entry in
      sat_pos ← at_index (scenario_at scenario SATS_KEY) sat_id;
      user_pos ← at_index (scenario_at scenario USER_KEY) user_i;
      if float_to_bool (user_sat_angle user_pos sat_pos) then
        visible_loop scenario user_i rest visible
      else if interferer_violation user_pos sat_pos
                (scenario_at scenario INTERFERER_KEY) then
        visible_loop scenario user_i rest visible
      else
        visible_loop scenario user_i rest (visible ++ [sat_id])
  end.

(** The loop over the users: [todo] rounds from [user_i] on. *)
Fixpoint user_loop (scenario : scenario_t) (sat_beam_list : list SatBeamEntry)
    (todo : nat) (user_i : Z) (user_vis_list : list UserVisibilityEntry)
    : res (list UserVisibilityEntry) :=
  match todo with
  | O => Ok user_vis_list
  | S todo' =>
      visible ← visible_loop scenario user_i (stride 0 sat_beam_list) [];
      user_loop scenario sat_beam_list todo' (user_i + 1)
        (user_vis_list ++ [{| user_id := user_i; visible_sats := visible |}])
  end.

Definition generate_user_vis_list (scenario : scenario_t)
    (sat_beam_list : list SatBeamEntry) : res (list UserVisibilityEntry) :=
  let num_users := length (scenario_at scenario USER_KEY) in
  user_loop scenario sat_beam_list num_users 0 [].

(** The loop over the satellites as [parse_scenario] of
    [gannon_submission_0/solution.cpp] writes it: a [while] on the index
    [sat_beam_i], which every branch advances by [COLORS_PER_SATELLITE].
    [length sat_beam_list] rounds are enough. *)
Fixpoint visible_while (scenario : scenario_t) (user_i : Z)
    (sat_beam_list : list SatBeamEntry) (fuel : nat) (sat_beam_i : nat)
    (visible : list Z) : res (list Z) :=
  match fuel with
  | O => Ok visible
  | S fuel' =>
      if decide (sat_beam_i < length sat_beam_list)%nat then
        beam_entry ← at_index sat_beam_list (Z.of_nat sat_beam_i);
        let sat_id := sat_id beam_entry in
        sat_pos ← at_index (scenario_at scenario SATS_KEY) sat_id;
        user_pos ← at_index (scenario_at scenario USER_KEY) user_i;
        let next := (sat_beam_i + Z.to_nat COLORS_PER_SATELLITE)%nat in
        if float_to_bool (user_sat_angle user_pos sat_pos) then
          visible_while scenario user_i sat_beam_list fuel' next visible
        else if interferer_violation user_pos sat_pos
                  (scenario_at scenario INTERFERER_KEY) then
          visible_while scenario user_i sat_beam_list fuel' next visible
        else
          visible_while scenario user_i sat_beam_list fuel' next
            (visible ++ [sat_id])
      else Ok visible
  end.

(** The loop over the beams of one colour, left at the first conflict. *)
Definition self_interference (sat_pos user_pos : vector_3d_t)
    (current_beam_list : pos_vec_t) : bool :=
  existsb (fun beam_target =>
             F64.ltb (to_double (calc_angle acos sat_pos user_pos beam_target))
                     SELF_INTERFERENCE_MAX)
          current_beam_list.

(** The loop over the colours: [todo] rounds from [color_i] on.  The
    result is the heap and the line printed when a colour took the
    user, [None] when the loop ran to its end. *)
Fixpoint color_loop (sat_beam_list : list SatBeamEntry) (h : Heap)
    (sat_i sat_beam_i user_i : Z) (sat_pos user_pos : vector_3d_t)
    (todo : nat) (color_i : Z) : res (option (Heap * AssignmentEvent)) :=
  match todo with
  | O => Ok None
  | S todo' =>
      next_beam_entry ← at_index sat_beam_list (sat_beam_i + color_i);
      if decide (sat_id next_beam_entry = sat_i) then
        current_beam_list ← deref (beam_lists h) (beam_list next_beam_entry);
        if self_interference sat_pos user_pos current_beam_list then
          color_loop sat_beam_list h sat_i sat_beam_i user_i sat_pos user_pos
            todo' (color_i + 1)
        else
          count ← deref (beam_counts h) (total_sat_beam_count next_beam_entry);
          let h' :=
            {| beam_lists :=
                 <[beam_list next_beam_entry := current_beam_list ++ [user_pos]]>
                   (beam_lists h);
               beam_counts :=
                 <[total_sat_beam_count next_beam_entry := count + 1]>
                   (beam_counts h) |} in
          Ok (Some (h', {| ev_sat := sat_id next_beam_entry + 1;
                           ev_beam := count + 1;
                           ev_user := user_i + 1;
                           ev_color := color next_beam_entry |}))
      else Fault (AssertionFailed assert_sat_id)
  end.

(** The [while] loop over the visible satellites of one user, from the
    satellites not looked at yet. *)
Fixpoint sat_loop (scenario : scenario_t) (sat_beam_list : list SatBeamEntry)
    (h : Heap) (user_i : Z) (visible : list Z)
    : res (Heap * list AssignmentEvent) :=
  match visible with
  | [] => Ok (h, [])
  | sat_i :: rest =>
      let sat_beam_i := sat_i * COLORS_PER_SATELLITE in
      beam_entry ← at_index sat_beam_list sat_beam_i;
      count ← deref (beam_counts h) (total_sat_beam_count beam_entry);
      if decide (count >= BEAMS_PER_SATELLITE) then
        sat_loop scenario sat_beam_list h user_i rest
      else
        sat_pos ← at_index (scenario_at scenario SATS_KEY) sat_i;
        user_pos ← at_index (scenario_at scenario USER_KEY) user_i;
        taken ← color_loop sat_beam_list h sat_i sat_beam_i user_i
                  sat_pos user_pos (length COLOR_IDS) 0;
        match taken with
        | Some (h', e) => Ok (h', [e])
        | None => sat_loop scenario sat_beam_list h user_i rest
        end
  end.

(** What the engine leaves behind: the heap, the lines printed so far,
    and the fault that stopped it, if any. *)
Record engine_result := {
  final_heap : Heap;
  events : list AssignmentEvent;
  stopped : option fault
}.

Fixpoint assign_beams_and_print (scenario : scenario_t)
    (user_vis_list : list UserVisibilityEntry)
    (sat_beam_list : list SatBeamEntry) (h : Heap) : engine_result :=
  match user_vis_list with
  | [] => {| final_heap := h; events := []; stopped := None |}
  | entry :: rest =>
      match sat_loop scenario sat_beam_list h (user_id entry)
              (visible_sats entry) with
      | Fault f => {| final_heap := h; events := []; stopped := Some f |}
      | Ok (h', printed) =>
          let r := assign_beams_and_print scenario rest sat_beam_list h' in
          {| final_heap := final_heap r;
             events := printed ++ events r;
             stopped := stopped r |}
      end
  end.

(** [solve(filename)], for the files [fs] can open. *)
Definition solve (fs : string -> option string) (filename : string) : run :=
  match fs filename with
  | None => {| stdout := [FileDoesNotExist filename]; ended := None |}
  | Some content =>
      match parse_lines (getlines content) parse_start with
      | Fault f => {| stdout := []; ended := Some f |}
      | Ok (Unreadable line_buff) =>
          {| stdout := [CouldntReadLine line_buff]; ended := None |}
      | Ok (Parsed st) =>
          match generate_user_vis_list (scenario st) (sat_beam_list st) with
          | Fault f => {| stdout := []; ended := Some f |}
          | Ok user_vis_list =>
              let sorted := std_sort sortUsersByPotentialCoverage user_vis_list in
              let r := assign_beams_and_print (scenario st) sorted
                         (sat_beam_list st) (heap st) in
              {| stdout := BeamLine <$> events r; ended := stopped r |}
          end
      end
  end.
End Solver.

(** ** Reference values for the two library parameters

    Concrete runs need an arc cosine and a sort.  [acosf_table] holds the
    correctly rounded [acosf] at the four cosines the examples meet
    (1, 0, -1 and the [float] just below 1); [insertion_sort] is one
    function that meets the contract of [std::sort]. *)

Definition float_of_bits (b : Z) : float :=
  let s := Z.testbit b 31 in
  let e := Z.land (Z.shiftr b 23) 255 in
  let m := Z.land b (2 ^ 23 - 1) in
  if e =? 0 then binary_normalize F32.prec F32.emax (cond_Zopp s m) (-149) s
  else binary_normalize F32.prec F32.emax (cond_Zopp s (m + 2 ^ 23)) (e - 150) s.

(** The largest [float] below 1, [1 - 2^-24]. *)
Definition below_one : float := float_of_bits 0x3f7fffff.

Definition acosf_table (x : float) : float :=
  if decide (x = F32.one) then F32.zero
  else if decide (x = F32.zero) then float_of_bits 0x3fc90fdb
  else if decide (x = F32.of_Z (-1)) then float_of_bits 0x40490fdb
  else if decide (x = below_one) then float_of_bits 0x39b504f3
  else S754_nan.

Definition acos_ref (x : float) : double := to_double (acosf_table x).

Fixpoint insert_sorted (comp : UserVisibilityEntry -> UserVisibilityEntry -> bool)
    (x : UserVisibilityEntry) (l : list UserVisibilityEntry) :=
  match l with
  | [] => [x]
  | y :: l' => if comp y x then y :: insert_sorted comp x l' else x :: l
  end.

Definition insertion_sort (comp : UserVisibilityEntry -> UserVisibilityEntry -> bool)
    (l : list UserVisibilityEntry) : list UserVisibilityEntry :=
  foldr (insert_sorted comp) [] l.

(** The contract of [std::sort] for the comparison [solve] passes. *)
Definition shorter_or_equal (u1 u2 : UserVisibilityEntry) : Prop :=
  (length (visible_sats u1) <= length (visible_sats u2))%nat.

Definition sort_contract
    (std_sort : (UserVisibilityEntry -> UserVisibilityEntry -> bool) ->
                list UserVisibilityEntry -> list UserVisibilityEntry) : Prop :=
  forall l,
    Permutation (std_sort sortUsersByPotentialCoverage l) l /\
    StronglySorted shorter_or_equal (std_sort sortUsersByPotentialCoverage l).

(** ** Vocabulary of the statements *)

Definition nl : string := String "010" EmptyString.

(** The id tokens of the [sat] lines of a file, in order. *)
Fixpoint sat_id_tokens (lines : list string) : list string :=
  match lines with
  | [] => []
  | line_buff :: rest =>
      if is_skipped line_buff then sat_id_tokens rest
      else
        match split line_buff " " with
        | role :: id_token :: _ =>
            if String.eqb role SATS_KEY then id_token :: sat_id_tokens rest
            else sat_id_tokens rest
        | _ => sat_id_tokens rest
        end
  end.

(** The satellite lines carry the ids 1, 2, 3, ... in this order. *)
Definition sats_numbered_in_order (lines : list string) : Prop :=
  forall (k : nat) (id_token : string),
    sat_id_tokens lines !! k = Some id_token ->
    stoi id_token = Ok (Z.of_nat k + 1).

(** A line the parser neither skips nor reads as five parts. *)
Definition malformed (line_buff : string) : Prop :=
  is_skipped line_buff = false /\ length (split line_buff " ") <> 5%nat.

(** Every line the parser reads starts with one of the three role keys. *)
Definition roles_known (lines : list string) : Prop :=
  forall line_buff role,
    line_buff ∈ lines -> is_skipped line_buff = false ->
    head (split line_buff " ") = Some role -> is_role_key role = true.

(** The slot of colour number [color_i] of the satellite [satellite]. *)
Definition slot_index (satellite color_i : nat) : nat :=
  (Z.to_nat COLORS_PER_SATELLITE * satellite + color_i)%nat.

(** The beam state as the parser lays it out for [n] satellites: entry
    [4 k + c] owns the beam list [4 k + c], shares the counter [k] and has
    colour [COLOR_IDS[c]]. *)
Record layout (entries : list SatBeamEntry) (h : Heap) (n : nat) : Prop := {
  layout_entries : length entries = slot_index n 0;
  layout_lists : length (beam_lists h) = slot_index n 0;
  layout_counts : length (beam_counts h) = n;
  layout_entry : forall k c e,
    (c < 4)%nat -> entries !! slot_index k c = Some e ->
    beam_list e = slot_index k c /\ total_sat_beam_count e = k /\
    COLOR_IDS !! c = Some (color e)
}.

(** The sum of the sizes of the four slots of a satellite. *)
Definition beams_in_slots (h : Heap) (satellite : nat) : Z :=
  Z.of_nat (sum_list ((fun c => length (default [] (beam_lists h !! slot_index satellite c)))
                        <$> seq 0 (Z.to_nat COLORS_PER_SATELLITE))).

Definition counter (h : Heap) (satellite : nat) : Z :=
  default 0 (beam_counts h !! satellite).

(** The counts printed for the satellite shown as [sat] (one-based), in
    the order of the lines. *)
Definition counts_for (sat : Z) (printed : list AssignmentEvent) : list Z :=
  ev_beam <$> filter (fun e => ev_sat e = sat) printed.

(** ** The engine in the words of the specification

    Section 4.3 and 4.4 of the specification describe the beam state by
    three operations and the engine as a search for the first free
    (satellite, colour).  These definitions follow that text; satellite
    [s] owns the counter [s] and the slots [slot_index s 0 .. 3]. *)

Section Specification.
Variable acos : float -> double.
Variable scenario : scenario_t.

(** "true if the satellite's shared counter is below 32" *)
Definition capacity_remaining (h : Heap) (satellite : Z) : bool :=
  match beam_counts h !! Z.to_nat satellite with
  | Some n => bool_decide (n < BEAMS_PER_SATELLITE)
  | None => false
  end.

(** "true if any position already assigned to that (satellite, color)
    BeamSlot forms an angle, measured at the satellite's own position as
    vertex between ray to candidateUser and ray to existing-target,
    smaller than 10 degrees" *)
Definition conflicts (h : Heap) (satellite : Z) (color_i : nat)
    (candidate : vector_3d_t) : bool :=
  match scenario_at scenario SATS_KEY !! Z.to_nat satellite,
        beam_lists h !! slot_index (Z.to_nat satellite) color_i with
  | Some sat_pos, Some slot =>
      existsb (fun target =>
                 F64.ltb (to_double (calc_angle acos sat_pos candidate target))
                         SELF_INTERFERENCE_MAX)
              slot
  | _, _ => true
  end.

(** "appends candidateUser to the BeamSlot's sequence and increments the
    satellite's shared counter by 1" *)
Definition commit (h : Heap) (satellite : Z) (color_i : nat)
    (candidate : vector_3d_t) : Heap :=
  {| beam_lists :=
       alter (fun slot => slot ++ [candidate])
             (slot_index (Z.to_nat satellite) color_i) (beam_lists h);
     beam_counts := alter Z.succ (Z.to_nat satellite) (beam_counts h) |}.

(** The (satellite, colour) pairs in the order the engine walks them:
    the visible satellites in stored order, and for each the four
    colours in declared order. *)
Definition candidates (visible : list Z) : list (Z * nat) :=
  s ← visible; c ← seq 0 (length COLOR_IDS); [(s, c)].

Definition available (h : Heap) (candidate : vector_3d_t) (sc : Z * nat) : bool :=
  capacity_remaining h sc.1 && negb (conflicts h sc.1 sc.2 candidate).

(** One user: commit at the first available pair and emit one event, or
    change nothing and emit nothing. *)
Definition serve (h : Heap) (entry : UserVisibilityEntry)
    : Heap * list AssignmentEvent :=
  match scenario_at scenario USER_KEY !! Z.to_nat (user_id entry) with
  | None => (h, [])
  | Some candidate =>
      match List.find (available h candidate) (candidates (visible_sats entry)) with
      | Some (s, c) =>
          let h' := commit h s c candidate in
          (h', [{| ev_sat := s + 1;
                   ev_beam := counter h' (Z.to_nat s);
                   ev_user := user_id entry + 1;
                   ev_color := default "A"%char (COLOR_IDS !! c) |}])
      | None => (h, [])
      end
  end.

(** The users one after the other, in the order given. *)
Fixpoint serve_all (h : Heap) (entries : list UserVisibilityEntry)
    : Heap * list AssignmentEvent :=
  match entries with
  | [] => (h, [])
  | entry :: rest =>
      let '(h1, first) := serve h entry in
      let '(h2, others) := serve_all h1 rest in
      (h2, first ++ others)
  end.

(** The two tests of the visibility builder, as the loop applies them. *)
Definition elevation_fails (user_pos sat_pos : vector_3d_t) : bool :=
  F64.leb (to_double (calc_angle acos user_pos ORIGIN sat_pos))
          (F64.sub (F64.of_Z 180) MAX_USER_VISIBLE_ANGLE).

Definition interferes (user_pos sat_pos int_pos : vector_3d_t) : bool :=
  F64.ltb (to_double (calc_angle acos user_pos int_pos sat_pos))
          NON_STARLINK_INTERFERENCE_MAX.

(** The satellite at index [s] passes both tests for a user. *)
Definition passes_tests (user_pos : vector_3d_t) (s : Z) : Prop :=
  exists sat_pos,
    0 <= s /\ scenario_at scenario SATS_KEY !! Z.to_nat s = Some sat_pos /\
    elevation_fails user_pos sat_pos = false /\
    forall int_pos, int_pos ∈ scenario_at scenario INTERFERER_KEY ->
                    interferes user_pos sat_pos int_pos = false.
End Specification.

(** What the loop over the colours adds for one [sat] line. *)
Definition new_entries (id : Z) (beam_i_ptr first_list : nat) (colors : list ascii)
    : list SatBeamEntry :=
  imap (fun i color => {| sat_id := id; color := color;
                          beam_list := first_list + i;
                          total_sat_beam_count := beam_i_ptr |}) colors.

(** What holds of the parser's state once the [sat] lines with the id
    tokens [tokens] have been read: the layout, untouched beam lists and
    counters, one position per satellite, and the id of each entry as its
    line gave it. *)
Record parse_inv (tokens : list string) (st : parsed) : Prop := {
  inv_layout : layout (sat_beam_list st) (heap st) (length tokens);
  inv_sats : length (scenario_at (scenario st) SATS_KEY) = length tokens;
  inv_lists : forall i slot, beam_lists (heap st) !! i = Some slot -> slot = [];
  inv_counts : forall k n, beam_counts (heap st) !! k = Some n -> n = 0;
  inv_ids : forall k c e id_token,
    (c < 4)%nat -> tokens !! k = Some id_token ->
    sat_beam_list st !! slot_index k c = Some e ->
    stoi id_token = Ok (sat_id e + 1)
}.

(** The dot product of the normalised [A - V] with itself, as [calc_angle]
    computes it for [point_a = point_b = A], promoted for the clamp. *)
Definition self_dot (V A : vector_3d_t) : double :=
  to_double (dot (vec_norm (vec_sub A V)) (vec_norm (vec_sub A V))).

(** Example files. *)
Definition renumbered_file : string := "sat 2 0 0 1".
Definition unreported_file : string := "alien 1 0 0 0" +:+ nl +:+ "bad".
Definition alien_file : string := "alien 1 0 0 0".
Definition letters_file : string := "user 1 x y z".
Definition demo_file : string :=
  "# two satellites above two users" +:+ nl +:+
  "user 1 0 0 1" +:+ nl +:+
  "sat 1 0 0 2" +:+ nl +:+
  "user 2 0 0 1.5" +:+ nl +:+
  "interferer 1 5 0 1" +:+ nl +:+
  "sat 2 0 0 3" +:+ nl.

(** ** One commit of the engine

    [committed] records what [assign_beams_and_print] has checked and
    changed when it takes the user [user_i] on colour number [c] of the
    satellite [sat_i]: the capacity test on the first entry of the
    satellite, the id assertion, no conflict in the slot, and then the
    push, the increment and the printed line. *)

Section Commit.
Variable acos : float -> double.
Variable scenario : scenario_t.
Variable entries : list SatBeamEntry.

Inductive committed (user_i : Z) (h : Heap) : Heap -> AssignmentEvent -> Prop :=
  | Commit (sat_i : Z) (c : nat) (first e : SatBeamEntry)
      (slot : list vector_3d_t) (count0 count : Z)
      (sat_pos user_pos : vector_3d_t) :
      (c < 4)%nat ->
      at_index entries (sat_i * COLORS_PER_SATELLITE) = Ok first ->
      beam_counts h !! total_sat_beam_count first = Some count0 ->
      count0 < BEAMS_PER_SATELLITE ->
      at_index entries (sat_i * COLORS_PER_SATELLITE + Z.of_nat c) = Ok e ->
      sat_id e = sat_i ->
      at_index (scenario_at scenario SATS_KEY) sat_i = Ok sat_pos ->
      at_index (scenario_at scenario USER_KEY) user_i = Ok user_pos ->
      beam_lists h !! beam_list e = Some slot ->
      self_interference acos sat_pos user_pos slot = false ->
      beam_counts h !! total_sat_beam_count e = Some count ->
      committed user_i h
        {| beam_lists := <[beam_list e := slot ++ [user_pos]]> (beam_lists h);
           beam_counts := <[total_sat_beam_count e := count + 1]> (beam_counts h) |}
        {| ev_sat := sat_id e + 1; ev_beam := count + 1;
           ev_user := user_i + 1; ev_color := color e |}.
End Commit.

(** ** What the engine keeps true

    For the beam state of [n] satellites at the positions [sats], with
    the lines [printed] so far: the layout, the counter of every
    satellite as the sum of its four slots and at most 32, no two beams
    of one slot closer than 10 degrees as the engine measures it, and the
    counts printed for a satellite running 1, 2, ... up to its counter. *)
Record engine_inv (acos : float -> double) (sats : list vector_3d_t)
    (entries : list SatBeamEntry) (n : nat)
    (h : Heap) (printed : list AssignmentEvent) : Prop := {
  ei_layout : layout entries h n;
  ei_count : forall k, (k < n)%nat ->
    counter h k = beams_in_slots h k /\ 0 <= counter h k <= BEAMS_PER_SATELLITE;
  ei_apart : forall k c slot sat_pos i j p q,
    (c < 4)%nat -> beam_lists h !! slot_index k c = Some slot ->
    sats !! k = Some sat_pos -> i <> j ->
    slot !! i = Some p -> slot !! j = Some q ->
    F64.ltb (to_double (calc_angle acos sat_pos p q)) SELF_INTERFERENCE_MAX = false;
  ei_printed : forall k : nat,
    counts_for (Z.of_nat k + 1) printed = seqZ 1 (counter h k);
  ei_sat_ids : forall e, e ∈ printed -> 1 <= ev_sat e
}.

(** The heap and the printed lines once the engine, started on the state
    [st] of the parser, has processed the first [m] users of
    [user_vis_list]. *)
Definition heap_after (acos : float -> double) (st : parsed)
    (user_vis_list : list UserVisibilityEntry) (m : nat) : Heap :=
  final_heap (assign_beams_and_print acos (scenario st) (take m user_vis_list)
                (sat_beam_list st) (heap st)).

Definition printed_after (acos : float -> double) (st : parsed)
    (user_vis_list : list UserVisibilityEntry) (m : nat) : list AssignmentEvent :=
  events (assign_beams_and_print acos (scenario st) (take m user_vis_list)
            (sat_beam_list st) (heap st)).


(** A user at the origin, and a user at the position of the satellite. *)
Definition origin_file : string :=
  "user 1 0 0 0" +:+ nl +:+ "sat 1 0 0 2".
Definition colocated_file : string :=
  "sat 1 0 0 2" +:+ nl +:+ "user 1 0 0 2" +:+ nl +:+ "user 2 0 0 1".

(** Two satellites whose lines carry the ids 2 and 1, both above the
    user. *)
Definition misnumbered_file : string :=
  "sat 2 0 0 2" +:+ nl +:+ "sat 1 0 0 3" +:+ nl +:+ "user 1 0 0 1".

(** The same ids, with satellite 2 above the user and satellite 1 below,
    between the user and the origin. *)
Definition swapped_file : string :=
  "sat 2 0 0 3" +:+ nl +:+ "sat 1 0 0 1" +:+ nl +:+ "user 1 0 0 2".

(** Both users of the example files see satellite 0 only. *)
Definition both_see_first : list UserVisibilityEntry :=
  [ {| user_id := 0; visible_sats := [0] |};
    {| user_id := 1; visible_sats := [0] |} ].

(** The parser's state for a file it reads ([parse_start] otherwise). *)
Definition parsed_state (content : string) : parsed :=
  match parse_lines (getlines content) parse_start with
  | Ok (Parsed st) => st
  | _ => parse_start
  end.

Definition demo_state : parsed := Eval vm_compute in parsed_state demo_file.
Definition origin_state : parsed := Eval vm_compute in parsed_state origin_file.
Definition colocated_state : parsed := Eval vm_compute in parsed_state colocated_file.
Definition misnumbered_state : parsed :=
  Eval vm_compute in parsed_state misnumbered_file.
Definition swapped_state : parsed := Eval vm_compute in parsed_state swapped_file.

(** A point with integer coordinates. *)
Definition point (x y z : Z) : vector_3d_t :=
  Vec3 (F32.of_Z x) (F32.of_Z y) (F32.of_Z z).

(** Users the engine can look up, seeing satellites that exist. *)
Definition entry_in_range (scenario : scenario_t) (n : nat)
    (entry : UserVisibilityEntry) : Prop :=
  0 <= user_id entry < Z.of_nat (length (scenario_at scenario USER_KEY)) /\
  Forall (fun s => 0 <= s < Z.of_nat n) (visible_sats entry).

(** ** Vocabulary for [split] and the parser *)

(** The tokens put back together with the separator between them. *)
Fixpoint join (sep : ascii) (tokens : list string) : string :=
  match tokens with
  | [] => EmptyString
  | [token] => token
  | token :: rest => token +:+ String sep (join sep rest)
  end.

(** How often the character occurs in the text. *)
Fixpoint occurrences (sep : ascii) (text : string) : nat :=
  match text with
  | EmptyString => 0
  | String c rest => ((if Ascii.eqb c sep then 1 else 0) + occurrences sep rest)%nat
  end.

(** The position a line of five parts gives, when its three coordinate
    parts convert. *)
Definition line_position (parts : list string) : option vector_3d_t :=
  match parts with
  | [_; _; x; y; z] =>
      match stof x, stof y, stof z with
      | Ok a, Ok b, Ok c => Some (Vec3 a b c)
      | _, _, _ => None
      end
  | _ => None
  end.

(** The positions of the lines of one role, in the order of the file. *)
Fixpoint positions_of (role : string) (lines : list string) : pos_vec_t :=
  match lines with
  | [] => []
  | line_buff :: rest =>
      if is_skipped line_buff then positions_of role rest
      else
        let parts := split line_buff " " in
        match head parts, line_position parts with
        | Some r, Some pos =>
            if String.eqb r role then pos :: positions_of role rest
            else positions_of role rest
        | _, _ => positions_of role rest
        end
  end.

(** A line the loop of [solve] does not pass over. *)
Definition not_skipped (line_buff : string) : Prop := is_skipped line_buff = false.

#[global] Instance not_skipped_dec line_buff : Decision (not_skipped line_buff).
Proof. unfold not_skipped. apply _. Defined.

(** Two lines of five parts with the same role, not [sat], and the same
    coordinate parts: they differ at most in the id part. *)
Definition same_but_id (line1 line2 : string) : Prop :=
  exists role id1 id2 x y z,
    role <> SATS_KEY /\
    split line1 " " = [role; id1; x; y; z] /\
    split line2 " " = [role; id2; x; y; z].

(** A line the parser reads as a record: five parts, three coordinates
    [stof] converts, one of the three roles, and for a satellite an id
    [stoi] converts and from which 1 can be taken in an [int]. *)
Definition well_formed_record (line_buff : string) : Prop :=
  exists role id_token x y z,
    split line_buff " " = [role; id_token; x; y; z] /\
    (exists a b c, stof x = Ok a /\ stof y = Ok b /\ stof z = Ok c) /\
    is_role_key role = true /\
    (role = SATS_KEY -> exists n, stoi id_token = Ok n /\ INT_MIN < n).

(** Every satellite id the visibility builder reads is an index of the
    satellite sequence. *)
Definition ids_in_range (st : parsed) : Prop :=
  forall e, e ∈ stride 0 (sat_beam_list st) ->
    0 <= sat_id e < Z.of_nat (length (scenario_at (scenario st) SATS_KEY)).

(** ** Vocabulary for runs *)

(** The assignment lines among what a run printed. *)
Definition beam_lines (printed : list output) : list AssignmentEvent :=
  omap (fun o => match o with BeamLine e => Some e | _ => None end) printed.

(** One run of the engine after another: the second starts on the heap
    the first left, unless the first was stopped. *)
Definition then_engine (r1 : engine_result) (next : Heap -> engine_result)
    : engine_result :=
  match stopped r1 with
  | Some _ => r1
  | None =>
      let r2 := next (final_heap r1) in
      {| final_heap := final_heap r2;
         events := events r1 ++ events r2;
         stopped := stopped r2 |}
  end.

(** ** [main] *)

(** What a process wrote to standard output: the line [main] prints when
    the argument count is wrong, or what [solve] printed. *)
Inductive console :=
  | ExpectedArgument   (* solution.cpp: Expected argument: /path/to/scenario.txt *)
  | NeedFilename       (* gannon_submission_0: Need to put a filename *)
  | Printed (o : output).

(** The output of the process and how it ended: with the value [main]
    returned, or cut short. *)
Record process := {
  console_out : list console;
  exit_status : res Z
}.

Section Main.
Variable acos : float -> double.
Variable std_sort :
  (UserVisibilityEntry -> UserVisibilityEntry -> bool) ->
  list UserVisibilityEntry -> list UserVisibilityEntry.
Variable fs : string -> option string.

(** [main(argc, argv)] with [argc = length argv]. *)
Definition main (argv : list string) : process :=
  if decide (length argv <> 2%nat) then
    {| console_out := [ExpectedArgument]; exit_status := Ok 0 |}
  else
    match at_index argv 1 with
    | Fault f => {| console_out := []; exit_status := Fault f |}
    | Ok filename =>
        let r := solve acos std_sort fs filename in
        {| console_out := Printed <$> stdout r;
           exit_status := match ended r with
                          | None => Ok 0
                          | Some f => Fault f
                          end |}
    end.
End Main.

(** ** [gannon_submission_0/solution.cpp]

    The earlier copy of the program.  [calc_angle], [split] and the
    parser are the same text as in [solution.cpp] and are not repeated;
    [SatBeamEntry] calls its counter [beam_i] there.  What differs: the
    loop over the satellites of the visibility builder is a [while]
    ([visible_while]); the engine, [greedy_solver], asserts after every
    increment that the counter is at most 32; [main] prints another
    line. *)

Module Gannon.

Definition compareUserVisibilityEntries (u1 u2 : UserVisibilityEntry) : bool :=
  (length (visible_sats u1) <? length (visible_sats u2))%nat.

(** How a run of this file is cut short: as a run of [solution.cpp] is,
    or at the assertion that [*next_beam_entry.beam_i] is at most
    [BEAMS_PER_SATELLITE]. *)
Inductive stop :=
  | Shared (f : fault)
  | BeamCountAssertion.

Inductive outcome (A : Type) :=
  | Done (a : A)
  | Stop (s : stop).
Arguments Done {A} a.
Arguments Stop {A} s.

#[global] Instance outcome_ret : MRet outcome := fun A a => Done a.
#[global] Instance outcome_bind : MBind outcome := fun A B k m =>
  match m with
  | Done a => k a
  | Stop s => Stop s
  end.

Definition lift {A} (m : res A) : outcome A :=
  match m with
  | Ok a => Done a
  | Fault f => Stop (Shared f)
  end.

Record solver_result := {
  heap_left : Heap;
  lines : list AssignmentEvent;
  halted : option stop
}.

Record result := {
  output_lines : list output;
  cut_short : option stop
}.

Record process := {
  console_out : list console;
  exit_status : outcome Z
}.

Section Solver.
Variable acos : float -> double.
Variable std_sort :
  (UserVisibilityEntry -> UserVisibilityEntry -> bool) ->
  list UserVisibilityEntry -> list UserVisibilityEntry.

(** The loop over the colours of [greedy_solver]. *)
Fixpoint color_loop (sat_beam_list : list SatBeamEntry) (h : Heap)
    (sat_i sat_beam_i user_i : Z) (sat_pos user_pos : vector_3d_t)
    (todo : nat) (color_i : Z) : outcome (option (Heap * AssignmentEvent)) :=
  match todo with
  | O => Done None
  | S todo' =>
      next_beam_entry ← lift (at_index sat_beam_list (sat_beam_i + color_i));
      if decide (sat_id next_beam_entry = sat_i) then
        current_beam_list ← lift (deref (beam_lists h) (beam_list next_beam_entry));
        if self_interference acos sat_pos user_pos current_beam_list then
          color_loop sat_beam_list h sat_i sat_beam_i user_i sat_pos user_pos
            todo' (color_i + 1)
        else
          count ← lift (deref (beam_counts h) (total_sat_beam_count next_beam_entry));
          let h' :=
            {| beam_lists :=
                 <[beam_list next_beam_entry := current_beam_list ++ [user_pos]]>
                   (beam_lists h);
               beam_counts :=
                 <[total_sat_beam_count next_beam_entry := count + 1]>
                   (beam_counts h) |} in
          if decide (count + 1 <= BEAMS_PER_SATELLITE) then
            Done (Some (h', {| ev_sat := sat_id next_beam_entry + 1;
                               ev_beam := count + 1;
                               ev_user := user_i + 1;
                               ev_color := color next_beam_entry |}))
          else Stop BeamCountAssertion
      else Stop (Shared (AssertionFailed assert_sat_id))
  end.

(** The [while] loop over the visible satellites of one user. *)
Fixpoint sat_loop (scenario : scenario_t) (sat_beam_list : list SatBeamEntry)
    (h : Heap) (user_i : Z) (visible : list Z)
    : outcome (Heap * list AssignmentEvent) :=
  match visible with
  | [] => Done (h, [])
  | sat_i :: rest =>
      let sat_beam_i := sat_i * COLORS_PER_SATELLITE in
      beam_entry ← lift (at_index sat_beam_list sat_beam_i);
      count ← lift (deref (beam_counts h) (total_sat_beam_count beam_entry));
      if decide (count >= BEAMS_PER_SATELLITE) then
        sat_loop scenario sat_beam_list h user_i rest
      else
        sat_pos ← lift (at_index (scenario_at scenario SATS_KEY) sat_i);
        user_pos ← lift (at_index (scenario_at scenario USER_KEY) user_i);
        taken ← color_loop sat_beam_list h sat_i sat_beam_i user_i
                  sat_pos user_pos (length COLOR_IDS) 0;
        match taken with
        | Some (h', e) => Done (h', [e])
        | None => sat_loop scenario sat_beam_list h user_i rest
        end
  end.

Fixpoint greedy_solver (scenario : scenario_t)
    (user_vis_list : list UserVisibilityEntry)
    (sat_beam_list : list SatBeamEntry) (h : Heap) : solver_result :=
  match user_vis_list with
  | [] => {| heap_left := h; lines := []; halted := None |}
  | entry :: rest =>
      match sat_loop scenario sat_beam_list h (user_id entry)
              (visible_sats entry) with
      | Stop s => {| heap_left := h; lines := []; halted := Some s |}
      | Done (h', printed) =>
          let r := greedy_solver scenario rest sat_beam_list h' in
          {| heap_left := heap_left r;
             lines := printed ++ lines r;
             halted := halted r |}
      end
  end.

(** The loop over the users of [parse_scenario]. *)
Fixpoint user_loop (scenario : scenario_t) (sat_beam_list : list SatBeamEntry)
    (todo : nat) (user_i : Z) (user_vis_list : list UserVisibilityEntry)
    : res (list UserVisibilityEntry) :=
  match todo with
  | O => Ok user_vis_list
  | S todo' =>
      visible ← visible_while acos scenario user_i sat_beam_list
                  (length sat_beam_list) 0 [];
      user_loop scenario sat_beam_list todo' (user_i + 1)
        (user_vis_list ++ [{| user_id := user_i; visible_sats := visible |}])
  end.

(** [parse_scenario(filename)], for the files [fs] can open. *)
Definition parse_scenario (fs : string -> option string) (filename : string) : result :=
  match fs filename with
  | None => {| output_lines := [FileDoesNotExist filename]; cut_short := None |}
  | Some content =>
      match parse_lines (getlines content) parse_start with
      | Fault f => {| output_lines := []; cut_short := Some (Shared f) |}
      | Ok (Unreadable line_buff) =>
          {| output_lines := [CouldntReadLine line_buff]; cut_short := None |}
      | Ok (Parsed st) =>
          let num_users := length (scenario_at (scenario st) USER_KEY) in
          match user_loop (scenario st) (sat_beam_list st) num_users 0 [] with
          | Fault f => {| output_lines := []; cut_short := Some (Shared f) |}
          | Ok user_vis_list =>
              let sorted := std_sort compareUserVisibilityEntries user_vis_list in
              let r := greedy_solver (scenario st) sorted
                         (sat_beam_list st) (heap st) in
              {| output_lines := BeamLine <$> lines r; cut_short := halted r |}
          end
      end
  end.

(** [main(argc, argv)] with [argc = length argv]. *)
Definition main (fs : string -> option string) (argv : list string) : process :=
  if decide (length argv <> 2%nat) then
    {| console_out := [NeedFilename]; exit_status := Done 0 |}
  else
    match at_index argv 1 with
    | Fault f => {| console_out := []; exit_status := Stop (Shared f) |}
    | Ok filename =>
        let r := parse_scenario fs filename in
        {| console_out := Printed <$> output_lines r;
           exit_status := match cut_short r with
                          | None => Done 0
                          | Some s => Stop s
                          end |}
    end.
End Solver.

(** A run of [solution.cpp] as a run of this file. *)
Definition of_run (r : run) : result :=
  {| output_lines := stdout r; cut_short := Shared <$> ended r |}.

Definition of_engine (r : engine_result) : solver_result :=
  {| heap_left := final_heap r; lines := events r; halted := Shared <$> stopped r |}.
End Gannon.

(** ** A second sort and more example files *)

(** A second function that meets the contract of [std::sort]: it puts
    an element behind the elements that compare equal to it, where
    [insertion_sort] puts it in front of them. *)
Fixpoint insert_behind (comp : UserVisibilityEntry -> UserVisibilityEntry -> bool)
    (x : UserVisibilityEntry) (l : list UserVisibilityEntry) :=
  match l with
  | [] => [x]
  | y :: l' => if comp x y then x :: l else y :: insert_behind comp x l'
  end.

Definition insertion_sort_behind
    (comp : UserVisibilityEntry -> UserVisibilityEntry -> bool)
    (l : list UserVisibilityEntry) : list UserVisibilityEntry :=
  foldr (insert_behind comp) [] l.

(** [demo_file] with its comment moved, an empty line, and no newline at
    the end. *)
Definition plain_demo_file : string :=
  "user 1 0 0 1" +:+ nl +:+
  "sat 1 0 0 2" +:+ nl +:+ nl +:+
  "user 2 0 0 1.5" +:+ nl +:+
  "interferer 1 5 0 1" +:+ nl +:+
  "# the second satellite" +:+ nl +:+
  "sat 2 0 0 3".

(** [demo_file] with other id parts on the lines that are not [sat]
    lines: a number, a letter, nothing. *)
Definition relabelled_demo_file : string :=
  "# two satellites above two users" +:+ nl +:+
  "user 17 0 0 1" +:+ nl +:+
  "sat 1 0 0 2" +:+ nl +:+
  "user x 0 0 1.5" +:+ nl +:+
  "interferer  5 0 1" +:+ nl +:+
  "sat 2 0 0 3" +:+ nl.

(** A user and no satellite. *)
Definition lone_user_file : string := "user 1 0 0 1".

(** A satellite seen by the first user and not by the second. *)
Definition two_lengths_file : string :=
  "sat 1 0 0 2" +:+ nl +:+ "user 1 0 0 1" +:+ nl +:+ "user 2 0 0 3".

(** One satellite, with the id 2, and a user. *)
Definition out_of_range_file : string :=
  "sat 2 0 0 2" +:+ nl +:+ "user 1 0 0 1".

Definition out_of_range_state : parsed :=
  Eval vm_compute in parsed_state out_of_range_file.
Definition lone_user_state : parsed := Eval vm_compute in parsed_state lone_user_file.
Definition two_lengths_state : parsed :=
  Eval vm_compute in parsed_state two_lengths_file.

(** ** Vocabulary for what a run leaves unassigned *)

(** Every position held by a beam list was put there for a printed line:
    the line names the satellite and the colour of the list, and its user
    is at that position. *)
Definition slots_printed (scenario : scenario_t) (h : Heap)
    (printed : list AssignmentEvent) : Prop :=
  forall (k c : nat) slot target,
    (c < 4)%nat -> beam_lists h !! slot_index k c = Some slot -> target ∈ slot ->
    exists ev, ev ∈ printed /\ ev_sat ev = Z.of_nat k + 1 /\
               COLOR_IDS !! c = Some (ev_color ev) /\
               scenario_at scenario USER_KEY !! Z.to_nat (ev_user ev - 1) = Some target.

(** One satellite above five users at one place. *)
Definition crowded_file : string :=
  "sat 1 0 0 2" +:+ nl +:+ "user 1 0 0 1" +:+ nl +:+ "user 2 0 0 1" +:+ nl +:+
  "user 3 0 0 1" +:+ nl +:+ "user 4 0 0 1" +:+ nl +:+ "user 5 0 0 1".

Definition crowded_state : parsed := Eval vm_compute in parsed_state crowded_file.

(** * Properties *)

(** ** Floating point: what the proofs use *)

Lemma SFmul_comm prec emax (x y : spec_float) :
  SFmul prec emax x y = SFmul prec emax y x.
Proof.
  destruct x as [sx|sx| |sx mx ex], y as [sy|sy| |sy my ey]; simpl;
    rewrite ?(xorb_comm sy sx); try reflexivity.
  by rewrite (Pos.mul_comm my mx), (Z.add_comm ey ex).
Qed.

Lemma dot_comm (a b : vector_3d_t) : dot a b = dot b a.
Proof.
  unfold dot, F32.mul.
  by rewrite (SFmul_comm _ _ (vx a)), (SFmul_comm _ _ (vy a)), (SFmul_comm _ _ (vz a)).
Qed.

Lemma dot_product_bound_comm (V A B : vector_3d_t) :
  dot_product_bound V A B = dot_product_bound V B A.
Proof. unfold dot_product_bound. by rewrite dot_comm. Qed.

Lemma calc_angle_comm acos (V A B : vector_3d_t) :
  calc_angle acos V A B = calc_angle acos V B A.
Proof. unfold calc_angle. by rewrite dot_product_bound_comm. Qed.

Lemma SFcompare_swap (x y : spec_float) :
  SFcompare y x = CompOpp <$> SFcompare x y.
Proof.
  destruct x as [sx|sx| |sx mx ex], y as [sy|sy| |sy my ey]; simpl;
    try reflexivity; try (by destruct sx); try (by destruct sy);
    try (by destruct sx, sy).
  pose proof (Pos.compare_cont_antisym mx my Eq) as Hm; simpl in Hm.
  destruct sx, sy; simpl; try reflexivity; f_equal;
    rewrite (Z.compare_antisym ex ey); destruct (ex ?= ey); simpl;
    try reflexivity; rewrite <- Hm; by rewrite ?CompOpp_involutive.
Qed.

(** For numbers, "not at most" is "above" and "not below" is "at least". *)
Lemma not_leb_ltb (x y : spec_float) :
  x <> S754_nan -> y <> S754_nan ->
  (SFleb x y = false <-> SFltb y x = true).
Proof.
  intros Hx Hy. unfold SFleb, SFltb. rewrite (SFcompare_swap x y).
  destruct (SFcompare x y) as [[]|] eqn:E; simpl; try (split; congruence).
  destruct x, y; simpl in E; congruence.
Qed.


(** ** [split] never runs out of rounds *)

Lemma find_bounds text sep start e :
  find text sep start = Some e -> (start <= e < String.length text)%nat.
Proof.
  revert start e. induction text as [|c text IH]; intros start e; simpl; [done|].
  destruct start as [|start].
  - destruct (Ascii.eqb c sep); [intros [= <-]; lia|].
    destruct (find text sep 0) as [e'|] eqn:E; simpl; [|done].
    intros [= <-]. apply IH in E. lia.
  - destruct (find text sep start) as [e'|] eqn:E; simpl; [|done].
    intros [= <-]. apply IH in E. lia.
Qed.

Lemma split_loop_fuel text sep fuel fuel' start tokens :
  (start <= String.length text < start + fuel)%nat ->
  (String.length text < start + fuel')%nat ->
  split_loop fuel text sep start tokens = split_loop fuel' text sep start tokens.
Proof.
  revert fuel' start tokens.
  induction fuel as [|fuel IH]; intros fuel' start tokens H H'; [lia|].
  destruct fuel' as [|fuel']; [lia|]. simpl.
  destruct (find text sep start) as [e|] eqn:E; [|done].
  apply find_bounds in E. apply IH; lia.
Qed.

Lemma split_more_fuel text sep extra :
  split_loop (S (String.length text) + extra) text sep 0 [] = split text sep.
Proof. unfold split. apply split_loop_fuel; lia. Qed.

(** ** The parser *)

Lemma bind_Ok {A B} (m : res A) (k : A -> res B) (b : B) :
  m ≫= k = Ok b -> exists a, m = Ok a /\ k a = Ok b.
Proof. destruct m as [a|f]; simpl; [eauto | done]. Qed.

Lemma at_index_Ok {A} (v : list A) (i : Z) (a : A) :
  at_index v i = Ok a <-> 0 <= i /\ v !! Z.to_nat i = Some a.
Proof.
  unfold at_index. destruct (decide (0 <= i)); [|split; [done | lia]].
  destruct (v !! Z.to_nat i); split; [by intros [= ->] | by intros [_ [= ->]] | done | by intros [_ ?]].
Qed.

Lemma at_index_nat {A} (v : list A) (i : nat) :
  at_index v (Z.of_nat i) =
  match v !! i with Some a => Ok a | None => Fault UndefinedBehaviour end.
Proof.
  unfold at_index. rewrite Nat2Z.id. destruct (decide _); [done | lia].
Qed.

Lemma deref_Ok {A} (hp : list A) (p : nat) (a : A) :
  deref hp p = Ok a <-> hp !! p = Some a.
Proof. unfold deref. destruct (hp !! p); split; congruence. Qed.

Lemma parse_lines_app lines1 lines2 st :
  parse_lines (lines1 ++ lines2) st =
  match parse_lines lines1 st with
  | Ok (Parsed st') => parse_lines lines2 st'
  | other => other
  end.
Proof.
  revert st. induction lines1 as [|line lines1 IH]; intros st; simpl; [done|].
  destruct (is_skipped line); [apply IH|].
  destruct (decide _); [|done].
  destruct (parse_record _ st) as [st'|f]; simpl; [apply IH | done].
Qed.

Lemma scenario_at_push scenario key key' pos :
  scenario_at (scenario_push scenario key pos) key' =
  if decide (key = key') then scenario_at scenario key ++ [pos]
  else scenario_at scenario key'.
Proof.
  unfold scenario_at at 1, scenario_push.
  destruct (decide (key = key')) as [->|Hne].
  - by rewrite lookup_insert_eq.
  - by rewrite lookup_insert_ne.
Qed.

Lemma add_beam_entries_Ok colors id_token beam_i_ptr entries lists entries' lists' :
  colors <> [] ->
  add_beam_entries colors id_token beam_i_ptr entries lists = Ok (entries', lists') ->
  exists n, stoi id_token = Ok n /\ INT_MIN <= n - 1 <= INT_MAX /\
    entries' = entries ++ new_entries (n - 1) beam_i_ptr (length lists) colors /\
    lists' = lists ++ replicate (length colors) [].
Proof.
  intros Hne H.
  assert (forall n, stoi id_token = Ok n ->
     add_beam_entries colors id_token beam_i_ptr entries lists = Ok (entries', lists') ->
     INT_MIN <= n - 1 <= INT_MAX /\
     entries' = entries ++ new_entries (n - 1) beam_i_ptr (length lists) colors /\
     lists' = lists ++ replicate (length colors) []) as Hgen.
  { clear H. intros n Hn. revert entries lists Hne.
    induction colors as [|c colors IH]; intros entries lists Hne; [done|].
    simpl. rewrite Hn. simpl. unfold int_result.
    destruct (decide _) as [Hr|]; [|done]. simpl.
    destruct colors as [|c' colors].
    - simpl. intros [= <- <-]. unfold new_entries. simpl.
      by rewrite Nat.add_0_r.
    - intros H. apply IH in H as (_ & -> & ->); [|done].
      split; [done|]. rewrite length_app. simpl.
      rewrite <- !app_assoc. split; f_equal; simpl.
      unfold new_entries. simpl. rewrite Nat.add_0_r. do 2 f_equal.
      + do 2 f_equal. lia.
      + apply imap_ext. intros i x _. simpl. f_equal. lia. }
  destruct colors as [|c colors]; [done|].
  simpl in H. destruct (stoi id_token) as [n|f] eqn:En; [|done].
  exists n. split; [done|]. apply Hgen; [done|]. simpl. by rewrite En.
Qed.

Lemma slot_index_eq k c : slot_index k c = (4 * k + c)%nat.
Proof. reflexivity. Qed.

Lemma new_entries_lookup id ptr first colors c :
  new_entries id ptr first colors !! c =
  (fun color => {| sat_id := id; color := color; beam_list := first + c;
                   total_sat_beam_count := ptr |}) <$> colors !! c.
Proof. unfold new_entries. by rewrite list_lookup_imap. Qed.

Lemma parse_inv_start : parse_inv [] parse_start.
Proof.
  split; simpl; try done.
Qed.

Lemma parse_record_inv tokens parts st st' :
  parse_inv tokens st ->
  parse_record parts st = Ok st' ->
  exists role id_token,
    parts !! 0%nat = Some role /\ parts !! 1%nat = Some id_token /\
    is_role_key role = true /\
    parse_inv (if String.eqb role SATS_KEY then tokens ++ [id_token] else tokens) st'.
Proof.
  intros Inv H. unfold parse_record in H.
  apply bind_Ok in H as (role & Hrole & H). apply at_index_Ok in Hrole as [_ Hrole].
  apply bind_Ok in H as (id_token & Hid & H). apply at_index_Ok in Hid as [_ Hid].
  apply bind_Ok in H as (x & _ & H).
  apply bind_Ok in H as (y & _ & H).
  apply bind_Ok in H as (z & _ & H).
  exists role, id_token. do 2 (split; [done|]).
  destruct (is_role_key role) eqn:Hkey; [|done]. split; [done|].
  destruct (String.eqb role SATS_KEY) eqn:Hsat.
  - apply String.eqb_eq in Hsat as ->.
    apply bind_Ok in H as ([entries lists] & Hadd & [= <-]).
    apply add_beam_entries_Ok in Hadd as (n & Hn & Hrange & -> & ->); [|done].
    destruct Inv as [[Le Ll Lc Lentry] Hs Hl Hc Hids].
    rewrite slot_index_eq in Le, Ll.
    assert (forall k c e, (c < 4)%nat ->
      (sat_beam_list st ++ new_entries (n - 1) (length (beam_counts (heap st)))
         (length (beam_lists (heap st))) COLOR_IDS) !! slot_index k c = Some e ->
      (k < length tokens)%nat /\ sat_beam_list st !! slot_index k c = Some e \/
      k = length tokens /\ exists col, COLOR_IDS !! c = Some col /\
        e = {| sat_id := n - 1; color := col;
               beam_list := slot_index k c; total_sat_beam_count := k |}) as Hcases.
    { intros k c e Hc4 He. rewrite slot_index_eq in *.
      destruct (decide (k < length tokens)%nat) as [Hk|Hk].
      - left. split; [done|]. rewrite lookup_app_l in He by lia. done.
      - rewrite lookup_app_r in He by lia. rewrite new_entries_lookup in He.
        destruct (COLOR_IDS !! (4 * k + c - length (sat_beam_list st))%nat)
          as [col|] eqn:Ecol; [|done].
        apply lookup_lt_Some in Ecol as Hlt. simpl in Hlt.
        assert (k = length tokens) as -> by lia.
        right. split; [done|]. exists col.
        replace (4 * length tokens + c - length (sat_beam_list st))%nat with c
          in Ecol by lia.
        split; [done|]. simpl in He. injection He as <-. f_equal; lia. }
    split; simpl.
    + split; simpl; rewrite ?length_app, ?length_replicate, ?slot_index_eq; simpl; try lia.
      intros k c e Hc4 He. destruct (Hcases k c e Hc4 He) as [[_ Hold]|[-> (col & Hcol & ->)]].
      * by apply Lentry.
      * simpl. done.
    + rewrite scenario_at_push. rewrite decide_True by done.
      rewrite !length_app. simpl. lia.
    + intros i slot Hi. apply lookup_app_Some in Hi as [Hi|[_ Hi]]; [by eapply Hl|].
      destruct (i - _)%nat as [|[|[|[|?]]]]; by simplify_eq/=.
    + intros k m Hk. apply lookup_app_Some in Hk as [Hk|[_ Hk]]; [by eapply Hc|].
      apply list_lookup_singleton_Some in Hk as [_ <-]. done.
    + intros k c e tok Hc4 Htok He.
      destruct (Hcases k c e Hc4 He) as [[Hk Hold]|[-> (col & Hcol & ->)]].
      * rewrite lookup_app_l in Htok by done. by eapply Hids.
      * rewrite lookup_app_r in Htok by lia. rewrite Nat.sub_diag in Htok.
        injection Htok as <-. simpl. rewrite Hn. f_equal. lia.
  - injection H as <-. destruct Inv as [Hlay Hs Hl Hc Hids].
    split; simpl; try done.
    rewrite scenario_at_push. rewrite decide_False; [done|].
    intros ->. by rewrite String.eqb_refl in Hsat.
Qed.

Lemma parse_lines_inv lines tokens st st' :
  parse_inv tokens st ->
  parse_lines lines st = Ok (Parsed st') ->
  parse_inv (tokens ++ sat_id_tokens lines) st'.
Proof.
  revert tokens st. induction lines as [|line lines IH]; intros tokens st Inv H; simpl in *.
  - injection H as <-. by rewrite app_nil_r.
  - destruct (is_skipped line); [by eapply IH|].
    destruct (decide _) as [Hlen|]; [|done].
    apply bind_Ok in H as (st1 & Hrec & H).
    destruct (parse_record_inv _ _ _ _ Inv Hrec) as (role & tok & H0 & H1 & _ & Inv1).
    destruct (split line " ") as [|r [|t parts]]; try done.
    simpl in H0, H1. injection H0 as ->. injection H1 as ->.
    destruct (String.eqb role SATS_KEY).
    + rewrite (cons_middle tok), app_assoc. by eapply IH.
    + by eapply IH.
Qed.

Lemma parse_lines_parsed lines st :
  parse_lines lines parse_start = Ok (Parsed st) ->
  parse_inv (sat_id_tokens lines) st.
Proof. intros H. by apply (parse_lines_inv _ [] _ _ parse_inv_start). Qed.

Lemma bind_Fault {A B} (m : res A) (k : A -> res B) (f : fault) :
  m ≫= k = Fault f -> m = Fault f \/ exists a, m = Ok a /\ k a = Fault f.
Proof. destruct m as [a|f']; simpl; [eauto | intros [= ->]; by left]. Qed.

Lemma at_index_Fault {A} (v : list A) (i : Z) (f : fault) :
  at_index v i = Fault f -> f = UndefinedBehaviour.
Proof.
  unfold at_index. destruct (decide _); [|congruence].
  destruct (v !! Z.to_nat i); congruence.
Qed.

Lemma stof_Fault str f : stof str = Fault f -> exists e, f = Uncaught e.
Proof.
  unfold stof. destruct (strtof str) as [[x []]|]; intros [= <-]; eauto.
Qed.

Lemma add_beam_entries_Fault colors id_token ptr entries lists a :
  add_beam_entries colors id_token ptr entries lists <> Fault (AssertionFailed a).
Proof.
  revert entries lists. induction colors as [|c colors IH]; intros entries lists; [done|].
  simpl. unfold stoi.
  destruct (take_sign _) as [neg s]. destruct (take_digits _ _ _ _ _) as [[v n] r].
  destruct n; [done|]. destruct (decide _); [|done]. simpl.
  unfold int_result. destruct (decide _); [|done]. simpl. apply IH.
Qed.

(** The role assertion fails only on a role that is none of the keys. *)
Lemma parse_record_role_assert parts st :
  parse_record parts st = Fault (AssertionFailed assert_role_key) ->
  exists role, head parts = Some role /\ is_role_key role = false.
Proof.
  unfold parse_record. intros H.
  apply bind_Fault in H as [H|(role & Hrole & H)]; [by apply at_index_Fault in H|].
  apply bind_Fault in H as [H|(tok & _ & H)]; [by apply at_index_Fault in H|].
  do 3 (apply bind_Fault in H as [H|(? & _ & H)];
        [apply bind_Fault in H as [H|(? & _ & H)];
           [by apply at_index_Fault in H | by apply stof_Fault in H as [? ?]]|]).
  apply at_index_Ok in Hrole as [_ Hrole]. exists role.
  split; [by destruct parts|].
  destruct (is_role_key role); [|done].
  destruct (String.eqb role SATS_KEY); [|done].
  apply bind_Fault in H as [H|([] & _ & H)]; [|done].
  by apply add_beam_entries_Fault in H.
Qed.

Lemma parse_lines_role_assert lines st :
  roles_known lines ->
  parse_lines lines st <> Fault (AssertionFailed assert_role_key).
Proof.
  revert st. induction lines as [|line lines IH]; intros st Hk; simpl; [done|].
  assert (roles_known lines) as Hk'.
  { intros l r Hl. apply Hk. by right. }
  destruct (is_skipped line) eqn:Hs; [by apply IH|].
  destruct (decide _); [|done].
  intros H. apply bind_Fault in H as [H|(st' & _ & H)]; [|by eapply IH].
  apply parse_record_role_assert in H as (role & Hrole & Hbad).
  rewrite (Hk line role) in Hbad; [done | by left | done | done].
Qed.

(** A malformed line keeps the parser from completing. *)
Lemma parse_lines_malformed lines line st st' :
  line ∈ lines -> malformed line -> parse_lines lines st <> Ok (Parsed st').
Proof.
  intros Hin [Hs Hlen]. revert st.
  induction lines as [|l lines IH]; intros st; [by apply not_elem_of_nil in Hin|].
  simpl. destruct (decide (l = line)) as [->|Hne].
  - rewrite Hs. by rewrite decide_False.
  - apply elem_of_cons in Hin as [->|Hin]; [done|].
    destruct (is_skipped l); [by apply IH|].
    destruct (decide _); [|done].
    destruct (parse_record _ st) as [st1|f]; simpl; [by apply IH | done].
Qed.

(** The first malformed line after lines that were read is reported. *)
Lemma parse_lines_unreadable before line after st0 st :
  parse_lines before st0 = Ok (Parsed st) -> malformed line ->
  parse_lines (before ++ line :: after) st0 = Ok (Unreadable line).
Proof.
  intros Hb [Hs Hlen]. rewrite parse_lines_app, Hb. simpl.
  rewrite Hs. by rewrite decide_False.
Qed.

(** ** [calc_angle] *)

Lemma clamp_at_least_one (d : spec_float) :
  F64.leb (F64.of_Z 1) d = true ->
  to_float (MIN (F64.of_Z 1) (MAX (F64.of_Z (-1)) d)) = F32.one.
Proof.
  intros H.
  destruct d as [s|s| |s m e].
  - discriminate H.
  - destruct s; [discriminate H | reflexivity].
  - discriminate H.
  - destruct s; [discriminate H|].
    unfold MAX, F64.gtb. change (SFcompare (F64.of_Z (-1)) (S754_finite false m e))
      with (Some Lt). cbv iota.
    unfold MIN, F64.ltb, SFltb. unfold F64.leb, SFleb in H.
    destruct (SFcompare (F64.of_Z 1) (S754_finite false m e)) as [[]|] eqn:E;
      try discriminate H; [|reflexivity].
    assert (S754_finite false m e = F64.of_Z 1) as ->; [|reflexivity].
    change (F64.of_Z 1) with (S754_finite false 4503599627370496 (-52)) in *.
    cbv beta iota delta [SFcompare] in E.
    destruct (-52 ?= e) eqn:Ee; try discriminate E.
    apply Z.compare_eq in Ee as <-. injection E as E.
    apply Pos.compare_eq in E as <-. reflexivity.
Qed.

Lemma calc_angle_self_zero acos (V A : vector_3d_t) :
  acos F32.one = S754_zero false ->
  F64.leb (F64.of_Z 1) (self_dot V A) = true ->
  calc_angle acos V A A = F32.zero.
Proof.
  intros Hone Hdot. unfold calc_angle, dot_product_bound.
  fold (self_dot V A). rewrite (clamp_at_least_one _ Hdot), Hone. reflexivity.
Qed.

(** C8, amended.  [calc_angle] is symmetric in its two ray endpoints for
    all inputs.  With a C library whose arc cosine of 1 is 0, the angle of
    a point with itself is 0 whenever the rounded dot product of the
    normalised [A - V] with itself reaches 1; the [float] product can also
    come out below 1, and then the angle is not 0. *)
Theorem calc_angle_symmetric_and_self (acos : spec_float -> spec_float) :
  acos F32.one = S754_zero false ->
  (forall V A B, calc_angle acos V A B = calc_angle acos V B A) /\
  (forall V A, F64.leb (F64.of_Z 1) (self_dot V A) = true ->
               calc_angle acos V A A = F32.zero).
Proof.
  intros Hone. split.
  - intros V A B. apply calc_angle_comm.
  - intros V A. by apply calc_angle_self_zero.
Qed.

Lemma calc_angle_symmetric_and_self_witness :
  acos_ref F32.one = S754_zero false /\
  calc_angle acos_ref ORIGIN (Vec3 F32.zero F32.zero F32.one)
                             (Vec3 F32.zero F32.zero F32.one) = F32.zero.
Proof.
  split; [reflexivity|].
  apply (calc_angle_symmetric_and_self acos_ref); reflexivity.
Defined.

(** C8 as stated fails: for [V = (0,0,0)] and [A = (1,1,0)] the clamped
    dot product is [1 - 2^-24], so the angle of [A] with itself is the arc
    cosine of that number, about 0.0198 degrees, on any C library; with
    the correctly rounded [acosf] it does not compare equal to 0. *)
Lemma calc_angle_self_not_zero :
  Vec3 F32.one F32.one F32.zero <> ORIGIN /\
  (forall acos,
     calc_angle acos ORIGIN (Vec3 F32.one F32.one F32.zero)
                            (Vec3 F32.one F32.one F32.zero)
     = to_degrees (acos below_one)) /\
  acos_ref F32.one = S754_zero false /\
  SFeqb (calc_angle acos_ref ORIGIN (Vec3 F32.one F32.one F32.zero)
                                    (Vec3 F32.one F32.one F32.zero))
        F32.zero = false.
Proof.
  split; [discriminate|]. split; [|split; reflexivity].
  intros acos. unfold calc_angle. f_equal.
Qed.

(** ** Reading the file *)

(** X2.  For every file the parser accepts whose [sat] lines carry
    the ids 1, 2, 3, ... in this order, the satellite at index [k] of the
    satellite sequence has the identifier [k] in each of its four
    entries, so that its position and its beam slots are found by the
    parsed id exactly where insertion order put them. *)
Theorem sat_index_is_id_when_numbered (lines : list string) (st : parsed) :
  parse_lines lines parse_start = Ok (Parsed st) ->
  sats_numbered_in_order lines ->
  length (sat_beam_list st) =
    (4 * length (scenario_at (scenario st) SATS_KEY))%nat /\
  forall k c,
    (k < length (scenario_at (scenario st) SATS_KEY))%nat -> (c < 4)%nat ->
    exists e sat_pos,
      sat_beam_list st !! slot_index k c = Some e /\
      scenario_at (scenario st) SATS_KEY !! k = Some sat_pos /\
      sat_id e = Z.of_nat k /\
      at_index (scenario_at (scenario st) SATS_KEY) (sat_id e) = Ok sat_pos /\
      at_index (sat_beam_list st)
               (sat_id e * COLORS_PER_SATELLITE + Z.of_nat c) = Ok e.
Proof.
  intros Hparse Hnum. apply parse_lines_parsed in Hparse as [[Le _ _ _] Hs _ _ Hids].
  rewrite slot_index_eq in Le. rewrite Hs. split; [lia|].
  intros k c Hk Hc.
  destruct (lookup_lt_is_Some_2 (sat_beam_list st) (slot_index k c)) as [e He].
  { rewrite slot_index_eq. lia. }
  destruct (lookup_lt_is_Some_2 (scenario_at (scenario st) SATS_KEY) k) as [p Hp];
    [lia|].
  destruct (lookup_lt_is_Some_2 (sat_id_tokens lines) k) as [tok Htok]; [lia|].
  pose proof (Hids k c e tok Hc Htok He) as Hid.
  rewrite (Hnum k tok Htok) in Hid. injection Hid as Hid.
  assert (sat_id e = Z.of_nat k) as Hek by lia.
  exists e, p. rewrite Hek. split; [done|]. split; [done|]. split; [done|].
  split.
  - rewrite at_index_nat. by rewrite Hp.
  - replace (Z.of_nat k * COLORS_PER_SATELLITE + Z.of_nat c)
      with (Z.of_nat (slot_index k c))
      by (rewrite slot_index_eq; unfold COLORS_PER_SATELLITE; lia).
    rewrite at_index_nat. by rewrite He.
Qed.

Lemma demo_tokens : sat_id_tokens (getlines demo_file) = ["1"; "2"].
Proof. reflexivity. Qed.

Lemma demo_numbered : sats_numbered_in_order (getlines demo_file).
Proof.
  intros k tok. rewrite demo_tokens.
  destruct k as [|[|k]]; simpl; intros [= <-]; reflexivity.
Qed.

Lemma sat_index_is_id_when_numbered_witness :
  exists st,
    parse_lines (getlines demo_file) parse_start = Ok (Parsed st) /\
    sats_numbered_in_order (getlines demo_file) /\
    length (sat_beam_list st) = 8%nat /\
    exists e sat_pos,
      sat_beam_list st !! slot_index 1 2 = Some e /\
      scenario_at (scenario st) SATS_KEY !! 1%nat = Some sat_pos /\
      sat_id e = 1 /\
      at_index (scenario_at (scenario st) SATS_KEY) (sat_id e) = Ok sat_pos /\
      at_index (sat_beam_list st) (sat_id e * COLORS_PER_SATELLITE + 2) = Ok e.
Proof.
  eexists. split; [vm_compute; reflexivity|]. split; [exact demo_numbered|].
  match goal with |- context [sat_beam_list ?s] =>
    destruct (sat_index_is_id_when_numbered (getlines demo_file) s
                ltac:(vm_compute; reflexivity) demo_numbered) as [Hlen Hall]
  end.
  split; [exact Hlen|]. apply (Hall 1%nat 2%nat); vm_compute; lia.
Defined.

(** C3.  The parser does not keep the layout that the documentation of
    [assign_beams_and_print] and its id assertion rely on: the file with
    the single line [sat 2 0 0 1] is accepted; its satellite sits at
    index 0 of the satellite sequence, its entries carry the identifier
    1, and the position looked up by that identifier is past the end of
    the sequence. *)
Lemma sat_index_differs_from_id :
  exists st e sat_pos,
    parse_lines (getlines renumbered_file) parse_start = Ok (Parsed st) /\
    sat_beam_list st !! slot_index 0 0 = Some e /\
    scenario_at (scenario st) SATS_KEY !! 0%nat = Some sat_pos /\
    sat_id e = 1 /\
    at_index (scenario_at (scenario st) SATS_KEY) (sat_id e)
      = Fault UndefinedBehaviour.
Proof.
  do 3 eexists. split; [vm_compute; reflexivity|].
  repeat split; vm_compute; reflexivity.
Qed.

Lemma solve_parse_fault acos std_sort fs filename content f :
  fs filename = Some content ->
  parse_lines (getlines content) parse_start = Fault f ->
  solve acos std_sort fs filename = {| stdout := []; ended := Some f |}.
Proof. intros Hfs Hp. unfold solve. by rewrite Hfs, Hp. Qed.

Lemma solve_unreadable acos std_sort fs filename content line :
  fs filename = Some content ->
  parse_lines (getlines content) parse_start = Ok (Unreadable line) ->
  solve acos std_sort fs filename =
    {| stdout := [CouldntReadLine line]; ended := None |}.
Proof. intros Hfs Hp. unfold solve. by rewrite Hfs, Hp. Qed.

(** C7, amended.  A file that cannot be opened is reported and nothing
    else is printed.  A line that is neither empty nor a comment and does
    not split into exactly 5 parts is reported, and the run returns at
    once, when every line before it was read; and whatever came before
    it, a run over a file with such a line prints no assignment line. *)
Theorem unreadable_input_is_fatal acos std_sort
    (fs : string -> option string) (filename : string) :
  (fs filename = None ->
   solve acos std_sort fs filename =
     {| stdout := [FileDoesNotExist filename]; ended := None |}) /\
  (forall content before line after st,
     fs filename = Some content ->
     getlines content = before ++ line :: after ->
     parse_lines before parse_start = Ok (Parsed st) ->
     malformed line ->
     solve acos std_sort fs filename =
       {| stdout := [CouldntReadLine line]; ended := None |}) /\
  (forall content line e,
     fs filename = Some content ->
     line ∈ getlines content -> malformed line ->
     BeamLine e ∉ stdout (solve acos std_sort fs filename)).
Proof.
  split; [|split].
  - intros Hfs. unfold solve. by rewrite Hfs.
  - intros content before line after st Hfs Hlines Hbefore Hbad.
    apply (solve_unreadable _ _ _ _ content); [done|].
    rewrite Hlines. by eapply parse_lines_unreadable.
  - intros content line e Hfs Hin Hbad. unfold solve. rewrite Hfs.
    destruct (parse_lines (getlines content) parse_start) as [[st|l]|f] eqn:Hp; simpl.
    + by destruct (parse_lines_malformed _ _ parse_start st Hin Hbad).
    + by intros [=]%list_elem_of_singleton.
    + apply not_elem_of_nil.
Qed.

(** C7 as stated fails: in [unreported_file] the line [bad] has one part
    only, but the line before it stops the run at the role assertion, and
    nothing is reported. *)
Lemma malformed_line_not_reported :
  "bad" ∈ getlines unreported_file /\ malformed "bad" /\
  forall acos std_sort,
    solve acos std_sort (fun _ => Some unreported_file) "scenario.txt" =
      {| stdout := []; ended := Some (AssertionFailed assert_role_key) |}.
Proof.
  split; [vm_compute; by repeat constructor|].
  split; [split; vm_compute; congruence|].
  intros acos std_sort. by apply (solve_parse_fault _ _ _ _ unreported_file).
Qed.

(** C9.  There is a file all of whose lines have exactly 5 parts, one of
    them with a role that is none of [user], [sat], [interferer]: on it
    the role assertion of the parser fails, and the run ends there
    without any report.  The assertion cannot fail on a file whose role
    tokens are all among the three keys. *)
Theorem unknown_role_fails_assertion :
  (exists content,
     (forall line, line ∈ getlines content -> is_skipped line = false ->
                   length (split line " ") = 5%nat) /\
     ~ roles_known (getlines content) /\
     forall acos std_sort fs filename,
       fs filename = Some content ->
       solve acos std_sort fs filename =
         {| stdout := []; ended := Some (AssertionFailed assert_role_key) |}) /\
  (forall lines st,
     roles_known lines ->
     parse_lines lines st <> Fault (AssertionFailed assert_role_key)).
Proof.
  split.
  - exists alien_file. split; [|split].
    + intros line Hin _. vm_compute in Hin.
      apply list_elem_of_singleton in Hin as ->. reflexivity.
    + intros Hk. specialize (Hk alien_file "alien").
      discriminate Hk; [vm_compute; by constructor | reflexivity | reflexivity].
    + intros acos std_sort fs filename Hfs.
      by apply (solve_parse_fault _ _ _ _ alien_file).
  - intros lines st. apply parse_lines_role_assert.
Qed.

Lemma parse_record_stof_throws parts st tok :
  length parts = 5%nat -> parts !! 2%nat = Some tok -> strtof tok = None ->
  parse_record parts st = Fault (Uncaught (invalid_argument "stof")).
Proof.
  intros Hlen Htok Hno.
  destruct parts as [|role [|id [|x parts]]]; try done.
  simpl in Htok. injection Htok as ->.
  unfold parse_record. rewrite (at_index_nat _ 0), (at_index_nat _ 1), (at_index_nat _ 2).
  simpl. unfold stof. by rewrite Hno.
Qed.

(** C10.  There is a line with exactly 5 parts whose coordinate parts are
    no numbers: on it [stof] throws [invalid_argument], nobody catches
    it, and the run ends without the report of a line that could not be
    read.  The same holds for any such line that follows lines that were
    read. *)
Theorem unparseable_coordinate_throws :
  (exists line,
     is_skipped line = false /\ length (split line " ") = 5%nat /\
     (forall i tok, (2 <= i <= 4)%nat -> split line " " !! i = Some tok ->
                    strtof tok = None) /\
     forall acos std_sort fs filename,
       fs filename = Some line ->
       solve acos std_sort fs filename =
         {| stdout := [];
            ended := Some (Uncaught (invalid_argument "stof")) |}) /\
  (forall acos std_sort fs filename content before line after st tok,
     fs filename = Some content ->
     getlines content = before ++ line :: after ->
     parse_lines before parse_start = Ok (Parsed st) ->
     is_skipped line = false -> length (split line " ") = 5%nat ->
     split line " " !! 2%nat = Some tok -> strtof tok = None ->
     solve acos std_sort fs filename =
       {| stdout := [];
          ended := Some (Uncaught (invalid_argument "stof")) |}).
Proof.
  split.
  - exists letters_file. split; [reflexivity|]. split; [reflexivity|]. split.
    + intros i tok Hi. change (split letters_file " ") with ["user"; "1"; "x"; "y"; "z"].
      destruct i as [|[|[|[|[|i]]]]]; try lia; simpl; intros [= <-]; reflexivity.
    + intros acos std_sort fs filename Hfs.
      by apply (solve_parse_fault _ _ _ _ letters_file).
  - intros acos std_sort fs filename content before line after st tok
      Hfs Hlines Hbefore Hs Hlen Htok Hno.
    apply (solve_parse_fault _ _ _ _ content); [done|].
    rewrite Hlines, parse_lines_app, Hbefore. simpl. rewrite Hs.
    rewrite decide_True by done.
    by rewrite (parse_record_stof_throws _ _ tok).
Qed.

(** ** The visibility builder *)

Section Visibility.
Variable acos : spec_float -> spec_float.
Variable scenario : scenario_t.

Local Abbreviation sats := (scenario_at scenario SATS_KEY).
Local Abbreviation users := (scenario_at scenario USER_KEY).
Local Abbreviation interferers := (scenario_at scenario INTERFERER_KEY).
Local Abbreviation passes_tests := (passes_tests acos scenario).

Lemma float_to_bool_user_sat_angle user_pos sat_pos :
  float_to_bool (user_sat_angle acos user_pos sat_pos)
  = elevation_fails acos user_pos sat_pos.
Proof.
  unfold user_sat_angle, elevation_fails.
  by destruct (F64.leb _ _).
Qed.

Lemma interferer_violation_false user_pos sat_pos :
  interferer_violation acos user_pos sat_pos interferers = false <->
  forall int_pos, int_pos ∈ interferers ->
                  interferes acos user_pos sat_pos int_pos = false.
Proof.
  unfold interferer_violation. rewrite <- not_true_iff_false, existsb_exists.
  split.
  - intros Hno p Hp. apply not_true_iff_false. intros Ht. apply Hno.
    exists p. split; [by apply list_elem_of_In | done].
  - intros Hall (p & Hp & Ht). apply list_elem_of_In in Hp.
    unfold interferes in Hall. by rewrite (Hall p Hp) in Ht.
Qed.

Lemma visible_loop_Ok (u : nat) user_pos heads acc vis :
  users !! u = Some user_pos ->
  visible_loop acos scenario (Z.of_nat u) heads acc = Ok vis ->
  forall s, s ∈ vis <->
    s ∈ acc \/ (exists e, e ∈ heads /\ sat_id e = s) /\ passes_tests user_pos s.
Proof.
  intros Hu. revert acc.
  induction heads as [|e heads IH]; intros acc H s; simpl in H.
  - injection H as <-. split; [by left|].
    intros [?|[(e & He & _) _]]; [done | by apply not_elem_of_nil in He].
  - apply bind_Ok in H as (sat_pos & Hsat & H).
    apply bind_Ok in H as (user_pos' & Huser & H).
    rewrite at_index_nat, Hu in Huser. injection Huser as <-.
    apply at_index_Ok in Hsat as [Hs0 Hsat].
    rewrite float_to_bool_user_sat_angle in H.
    assert (passes_tests user_pos (sat_id e) <->
            elevation_fails acos user_pos sat_pos = false /\
            interferer_violation acos user_pos sat_pos interferers = false) as Hpass.
    { rewrite interferer_violation_false. split.
      - intros (p & _ & Hp & He & Hi). rewrite Hsat in Hp. by injection Hp as <-.
      - intros [He Hi]. by exists sat_pos. }
    assert (forall acc',
      (s ∈ acc' <-> s ∈ acc \/ s = sat_id e /\ passes_tests user_pos s) ->
      visible_loop acos scenario (Z.of_nat u) heads acc' = Ok vis ->
      s ∈ vis <-> s ∈ acc \/
        (exists e', e' ∈ e :: heads /\ sat_id e' = s) /\ passes_tests user_pos s)
      as Hstep.
    { intros acc' Hacc Hloop. rewrite (IH acc' Hloop s), Hacc. split.
      - intros [[?|[-> ?]]|[(e' & He' & <-) ?]]; [by left| |].
        + right. split; [|done]. exists e. split; [by left | done].
        + right. split; [|done]. exists e'. split; [by right | done].
      - intros [?|[(e' & He' & <-) ?]]; [by left; left|].
        apply elem_of_cons in He' as [->|He'].
        + left. by right.
        + right. split; [|done]. by exists e'. }
    destruct (elevation_fails acos user_pos sat_pos) eqn:Helev.
    { apply (Hstep acc); [|done]. split; [by left|].
      intros [?|[-> Hp]]; [done|]. apply Hpass in Hp as [? _]. done. }
    destruct (interferer_violation acos user_pos sat_pos interferers) eqn:Hint.
    { apply (Hstep acc); [|done]. split; [by left|].
      intros [?|[-> Hp]]; [done|]. apply Hpass in Hp as [_ ?]. done. }
    apply (Hstep (acc ++ [sat_id e])); [|done].
    rewrite elem_of_app, list_elem_of_singleton. split.
    + intros [? | ->]; [by left|]. right. split; [done|]. by apply Hpass.
    + intros [?|[-> _]]; [by left | by right].
Qed.

Lemma visible_loop_total (u : nat) user_pos heads acc :
  users !! u = Some user_pos ->
  (forall e, e ∈ heads -> 0 <= sat_id e < Z.of_nat (length sats)) ->
  exists vis, visible_loop acos scenario (Z.of_nat u) heads acc = Ok vis.
Proof.
  intros Hu. revert acc. induction heads as [|e heads IH]; intros acc Hin; simpl.
  - by eexists.
  - destruct (Hin e) as [H0 Hlt]; [by left|].
    destruct (lookup_lt_is_Some_2 sats (Z.to_nat (sat_id e))) as [p Hp]; [lia|].
    assert (at_index sats (sat_id e) = Ok p) as -> by by apply at_index_Ok.
    simpl. rewrite at_index_nat, Hu. simpl.
    assert (forall e', e' ∈ heads -> 0 <= sat_id e' < Z.of_nat (length sats))
      as Hin' by (intros e' He'; apply Hin; by right).
    destruct (float_to_bool _); [by apply IH|].
    destruct (interferer_violation _ _ _ _); by apply IH.
Qed.

Lemma user_loop_Ok sat_beam_list todo (i : nat) acc vis :
  user_loop acos scenario sat_beam_list todo (Z.of_nat i) acc = Ok vis ->
  exists rows,
    vis = acc ++ rows /\ length rows = todo /\
    forall j entry, rows !! j = Some entry ->
      user_id entry = Z.of_nat (i + j) /\
      visible_loop acos scenario (Z.of_nat (i + j)) (stride 0 sat_beam_list) []
        = Ok (visible_sats entry).
Proof.
  revert i acc. induction todo as [|todo IH]; intros i acc H; simpl in H.
  - injection H as <-. exists []. rewrite app_nil_r. split; [done|].
    split; [done|]. intros j entry Hj. by rewrite lookup_nil in Hj.
  - apply bind_Ok in H as (visible & Hvis & H).
    replace (Z.of_nat i + 1) with (Z.of_nat (S i)) in H by lia.
    apply IH in H as (rows & -> & Hlen & Hrows).
    eexists (_ :: rows). rewrite <- app_assoc. split; [done|].
    split; [simpl; lia|]. intros [|j] entry Hj; simpl in Hj.
    + injection Hj as <-. simpl. by rewrite Nat.add_0_r.
    + replace (i + S j)%nat with (S i + j)%nat by lia. by apply Hrows.
Qed.

Lemma user_loop_total sat_beam_list todo (i : nat) acc :
  (i + todo <= length users)%nat ->
  (forall e, e ∈ stride 0 sat_beam_list ->
             0 <= sat_id e < Z.of_nat (length sats)) ->
  exists vis, user_loop acos scenario sat_beam_list todo (Z.of_nat i) acc = Ok vis.
Proof.
  intros Hlen Hin. revert i acc Hlen.
  induction todo as [|todo IH]; intros i acc Hlen; simpl; [by eexists|].
  destruct (lookup_lt_is_Some_2 users i) as [p Hp]; [lia|].
  destruct (visible_loop_total i p (stride 0 sat_beam_list) [] Hp Hin) as [v ->].
  simpl. replace (Z.of_nat i + 1) with (Z.of_nat (S i)) by lia.
  apply IH. lia.
Qed.
End Visibility.

Lemma stride_succ (skip : nat) (l : list SatBeamEntry) :
  stride (S skip) l = stride skip (drop 1 l).
Proof. by destruct l. Qed.

Lemma stride_drop (l : list SatBeamEntry) (i : nat) (e : SatBeamEntry) :
  l !! i = Some e ->
  stride 0 (drop i l) = e :: stride 0 (drop (i + 4) l).
Proof.
  intros Hi. rewrite (drop_S l e i Hi). cbn [stride].
  change (Z.to_nat COLORS_PER_SATELLITE - 1)%nat with 3%nat.
  rewrite !stride_succ, !drop_drop.
  by replace (S i + (1 + (1 + 1)))%nat with (i + 4)%nat by lia.
Qed.

(** The [while] form of the loop reads the same entries. *)
Lemma visible_while_loop acos scenario user_i sat_beam_list fuel i visible :
  (length sat_beam_list <= i + fuel)%nat ->
  visible_while acos scenario user_i sat_beam_list fuel i visible =
  visible_loop acos scenario user_i (stride 0 (drop i sat_beam_list)) visible.
Proof.
  revert i visible. induction fuel as [|fuel IH]; intros i visible Hlen.
  - rewrite drop_ge by lia. done.
  - cbn [visible_while]. destruct (decide (i < length sat_beam_list)%nat) as [Hi|Hi].
    + destruct (lookup_lt_is_Some_2 sat_beam_list i Hi) as [e He].
      rewrite (stride_drop _ _ _ He), at_index_nat, He.
      change (Z.to_nat COLORS_PER_SATELLITE) with 4%nat.
      cbn [mbind res_bind visible_loop].
      destruct (at_index (scenario_at scenario SATS_KEY) (sat_id e)) as [sat_pos|];
        [|done]. cbn [mbind res_bind].
      destruct (at_index (scenario_at scenario USER_KEY) user_i) as [user_pos|];
        [|done]. cbn [mbind res_bind].
      rewrite !IH by lia. done.
    + rewrite drop_ge by lia. done.
Qed.

Lemma elevation_limit :
  F64.sub (F64.of_Z 180) MAX_USER_VISIBLE_ANGLE = F64.of_Z 135.
Proof. reflexivity. Qed.

(** The visibility builder on any scenario and any beam list.  A
    satellite id is in a user's list exactly when it is the id of an
    entry the loop reads and the position at that index passes both
    tests.  The list exists as soon as the ids are indices of the
    satellite sequence.  For an angle that is a number, "not at most 135"
    is "above 135".  The loop of the other source file, a [while] on the
    index, reads the same entries and builds the same list. *)
Lemma visibility_of_entries acos (scenario : scenario_t)
    (sat_beam_list : list SatBeamEntry) :
  ((forall e, e ∈ stride 0 sat_beam_list ->
      0 <= sat_id e < Z.of_nat (length (scenario_at scenario SATS_KEY))) ->
   exists vis, generate_user_vis_list acos scenario sat_beam_list = Ok vis) /\
  (forall vis,
     generate_user_vis_list acos scenario sat_beam_list = Ok vis ->
     length vis = length (scenario_at scenario USER_KEY) /\
     forall u entry,
       vis !! u = Some entry ->
       user_id entry = Z.of_nat u /\
       exists user_pos,
         scenario_at scenario USER_KEY !! u = Some user_pos /\
         forall s,
           s ∈ visible_sats entry <->
           (exists e, e ∈ stride 0 sat_beam_list /\ sat_id e = s) /\
           passes_tests acos scenario user_pos s) /\
  (forall user_pos sat_pos,
     to_double (calc_angle acos user_pos ORIGIN sat_pos) <> S754_nan ->
     (elevation_fails acos user_pos sat_pos = false <->
      F64.ltb (F64.of_Z 135)
              (to_double (calc_angle acos user_pos ORIGIN sat_pos)) = true)) /\
  (forall user_i visible,
     visible_while acos scenario user_i sat_beam_list (length sat_beam_list) 0 visible
     = visible_loop acos scenario user_i (stride 0 sat_beam_list) visible).
Proof.
  split; [|split; [|split]]; [| | |intros; by apply visible_while_loop].
  - intros Hin. unfold generate_user_vis_list.
    apply (user_loop_total acos scenario sat_beam_list _ 0); [lia | done].
  - intros vis H. unfold generate_user_vis_list in H.
    apply (user_loop_Ok acos scenario sat_beam_list _ 0) in H
      as (rows & -> & Hlen & Hrows).
    split; [done|]. intros u entry Hu. simpl in Hu.
    destruct (Hrows u entry Hu) as [Hid Hloop]. simpl in Hid, Hloop.
    split; [done|].
    destruct (lookup_lt_is_Some_2 (scenario_at scenario USER_KEY) u) as [p Hp].
    { rewrite <- Hlen. by eapply lookup_lt_Some. }
    exists p. split; [done|]. intros s.
    rewrite (visible_loop_Ok acos scenario u p _ [] _ Hp Hloop s).
    split; [intros [H|H]; [by apply not_elem_of_nil in H | done] | by right].
  - intros user_pos sat_pos Hnan. unfold elevation_fails.
    rewrite elevation_limit. apply not_leb_ltb; [done | discriminate].
Qed.

(** ** The engine *)

Section Engine.
Variable acos : spec_float -> spec_float.
Variable scenario : scenario_t.
Variable entries : list SatBeamEntry.

Local Abbreviation sats := (scenario_at scenario SATS_KEY).
Local Abbreviation users := (scenario_at scenario USER_KEY).

Lemma color_loop_Some h sat_i sat_beam_i user_i sat_pos user_pos todo c0 h' ev :
  color_loop acos entries h sat_i sat_beam_i user_i sat_pos user_pos todo
    (Z.of_nat c0) = Ok (Some (h', ev)) ->
  exists c e slot count,
    (c0 <= c < c0 + todo)%nat /\
    at_index entries (sat_beam_i + Z.of_nat c) = Ok e /\
    sat_id e = sat_i /\
    beam_lists h !! beam_list e = Some slot /\
    self_interference acos sat_pos user_pos slot = false /\
    beam_counts h !! total_sat_beam_count e = Some count /\
    h' = {| beam_lists := <[beam_list e := slot ++ [user_pos]]> (beam_lists h);
            beam_counts := <[total_sat_beam_count e := count + 1]> (beam_counts h) |} /\
    ev = {| ev_sat := sat_id e + 1; ev_beam := count + 1;
            ev_user := user_i + 1; ev_color := color e |}.
Proof.
  revert c0. induction todo as [|todo IH]; intros c0 H; simpl in H; [done|].
  apply bind_Ok in H as (e & He & H).
  destruct (decide (sat_id e = sat_i)) as [Hid|]; [|done].
  apply bind_Ok in H as (slot & Hslot & H). apply deref_Ok in Hslot.
  destruct (self_interference acos sat_pos user_pos slot) eqn:Hfree.
  - replace (Z.of_nat c0 + 1) with (Z.of_nat (S c0)) in H by lia.
    apply IH in H as (c & e' & slot' & count & Hc & ?).
    exists c, e', slot', count. split; [lia | done].
  - apply bind_Ok in H as (count & Hcount & H). apply deref_Ok in Hcount.
    injection H as <- <-. exists c0, e, slot, count.
    split; [lia|]. done.
Qed.

Lemma sat_loop_cons h user_i sat_i rest :
  sat_loop acos scenario entries h user_i (sat_i :: rest) =
  (beam_entry ← at_index entries (sat_i * COLORS_PER_SATELLITE);
   count ← deref (beam_counts h) (total_sat_beam_count beam_entry);
   if decide (count >= BEAMS_PER_SATELLITE) then
     sat_loop acos scenario entries h user_i rest
   else
     sat_pos ← at_index sats sat_i;
     user_pos ← at_index users user_i;
     taken ← color_loop acos entries h sat_i (sat_i * COLORS_PER_SATELLITE)
               user_i sat_pos user_pos (length COLOR_IDS) 0;
     match taken with
     | Some (h', e) => Ok (h', [e])
     | None => sat_loop acos scenario entries h user_i rest
     end).
Proof. reflexivity. Qed.

Lemma sat_loop_Ok h user_i visible h' printed :
  sat_loop acos scenario entries h user_i visible = Ok (h', printed) ->
  (h' = h /\ printed = []) \/
  exists ev, printed = [ev] /\ committed acos scenario entries user_i h h' ev.
Proof.
  induction visible as [|sat_i visible IH]; intros H.
  - injection H as <- <-. by left.
  - rewrite sat_loop_cons in H. apply bind_Ok in H as (e0 & He0 & H).
    apply bind_Ok in H as (count0 & Hcount0 & H). apply deref_Ok in Hcount0.
    destruct (decide (count0 >= BEAMS_PER_SATELLITE)); [by apply IH|].
    apply bind_Ok in H as (sat_pos & Hsat & H).
    apply bind_Ok in H as (user_pos & Huser & H).
    apply bind_Ok in H as ([[h1 ev]|] & Hcol & H); [|by apply IH].
    injection H as <- <-. right. exists ev. split; [done|].
    apply (color_loop_Some _ _ _ _ _ _ _ 0%nat) in Hcol
      as (c & e & slot & count & Hc & He & Hid & Hslot & Hfree & Hcount & -> & ->).
    simpl in Hc. by eapply (Commit _ _ _ _ _ sat_i c e0 e slot count0 count); try lia.
Qed.

(** An induction principle: what holds at the start and is kept by
    every commit holds of the heap and the lines of every run. *)
Lemma assign_beams_and_print_ind (P : Heap -> list AssignmentEvent -> Prop) :
  (forall user_i h printed h' ev,
     P h printed -> committed acos scenario entries user_i h h' ev ->
     P h' (printed ++ [ev])) ->
  forall user_vis_list h printed,
    P h printed ->
    P (final_heap (assign_beams_and_print acos scenario user_vis_list entries h))
      (printed ++
         events (assign_beams_and_print acos scenario user_vis_list entries h)).
Proof.
  intros Hstep user_vis_list.
  induction user_vis_list as [|entry rest IH]; intros h printed HP; simpl.
  - by rewrite app_nil_r.
  - destruct (sat_loop _ _ _ _ _ _) as [[h' first]|f] eqn:Hloop; simpl.
    + apply sat_loop_Ok in Hloop as [[-> ->]|(ev & -> & Hco)]; [by apply IH|].
      rewrite app_assoc. apply IH. by eapply Hstep.
    + by rewrite app_nil_r.
Qed.
End Engine.

(** ** The invariant of the engine *)

Lemma slot_index_inj k c k' c' :
  (c < 4)%nat -> (c' < 4)%nat -> slot_index k c = slot_index k' c' ->
  k = k' /\ c = c'.
Proof. rewrite !slot_index_eq. lia. Qed.

Lemma beams_in_slots_eq h k :
  beams_in_slots h k =
  Z.of_nat (length (default [] (beam_lists h !! slot_index k 0)))
  + Z.of_nat (length (default [] (beam_lists h !! slot_index k 1)))
  + Z.of_nat (length (default [] (beam_lists h !! slot_index k 2)))
  + Z.of_nat (length (default [] (beam_lists h !! slot_index k 3))).
Proof. unfold beams_in_slots. simpl. lia. Qed.

Lemma self_interference_false acos sat_pos user_pos slot :
  self_interference acos sat_pos user_pos slot = false ->
  forall q, q ∈ slot ->
    F64.ltb (to_double (calc_angle acos sat_pos user_pos q)) SELF_INTERFERENCE_MAX
      = false.
Proof.
  unfold self_interference. intros H q Hq. apply not_true_iff_false.
  intros Ht. apply not_true_iff_false in H. apply H, existsb_exists.
  exists q. split; [by apply list_elem_of_In | done].
Qed.

Lemma counts_for_snoc sat printed ev :
  counts_for sat (printed ++ [ev]) =
  counts_for sat printed ++ (if decide (ev_sat ev = sat) then [ev_beam ev] else []).
Proof.
  unfold counts_for. rewrite filter_app, fmap_app. f_equal.
  rewrite filter_cons, filter_nil. by destruct (decide _).
Qed.

(** The facts the layout gives about a commit: it is on slot [c] of the
    satellite [k] whose capacity was tested. *)
Lemma committed_layout acos scenario entries n user_i h h' ev :
  layout entries h n ->
  committed acos scenario entries user_i h h' ev ->
  exists (k c : nat) slot count sat_pos user_pos col,
    (k < n)%nat /\ (c < 4)%nat /\
    scenario_at scenario SATS_KEY !! k = Some sat_pos /\
    beam_lists h !! slot_index k c = Some slot /\
    beam_counts h !! k = Some count /\ count < BEAMS_PER_SATELLITE /\
    self_interference acos sat_pos user_pos slot = false /\
    h' = {| beam_lists := <[slot_index k c := slot ++ [user_pos]]> (beam_lists h);
            beam_counts := <[k := count + 1]> (beam_counts h) |} /\
    ev = {| ev_sat := Z.of_nat k + 1; ev_beam := count + 1;
            ev_user := user_i + 1; ev_color := col |}.
Proof.
  intros [Le Ll Lc Lentry] Hco.
  destruct Hco as [sat_i c first e slot count0 count sat_pos user_pos
                   Hc Hfirst Hcount0 Hcap He Hid Hsat Huser Hslot Hfree Hcount].
  apply at_index_Ok in Hfirst as [H0 Hfirst]. apply at_index_Ok in He as [_ He].
  apply at_index_Ok in Hsat as [_ Hsat].
  unfold COLORS_PER_SATELLITE in *.
  replace (Z.to_nat (sat_i * 4)) with (slot_index (Z.to_nat sat_i) 0) in Hfirst
    by (rewrite slot_index_eq; lia).
  replace (Z.to_nat (sat_i * 4 + Z.of_nat c)) with (slot_index (Z.to_nat sat_i) c) in He
    by (rewrite slot_index_eq; lia).
  destruct (Lentry (Z.to_nat sat_i) 0%nat first ltac:(lia) Hfirst) as (_ & Hk0 & _).
  destruct (Lentry _ _ _ Hc He) as (Hb & Hk & _).
  rewrite Hk0 in Hcount0. rewrite Hk in Hcount. rewrite Hb in Hslot.
  assert (count0 = count) as -> by congruence.
  exists (Z.to_nat sat_i), c, slot, count, sat_pos, user_pos, (color e).
  rewrite Hb, Hk, Hid. rewrite Z2Nat.id by lia.
  split; [apply lookup_lt_Some in Hcount; lia|]. done.
Qed.

Lemma engine_inv_commit acos scenario entries n user_i h printed h' ev :
  engine_inv acos (scenario_at scenario SATS_KEY) entries n h printed ->
  committed acos scenario entries user_i h h' ev ->
  engine_inv acos (scenario_at scenario SATS_KEY) entries n h' (printed ++ [ev]).
Proof.
  intros [Hlay Hcnt Hapart Hprinted Hids] Hco.
  destruct (committed_layout _ _ _ _ _ _ _ _ Hlay Hco)
    as (k & c & slot & count & sat_pos & user_pos & col &
        Hk & Hc & Hsat & Hslot & Hcount & Hcap & Hfree & -> & ->).
  destruct Hlay as [Le Ll Lc Lentry].
  assert (forall k' c', (c' < 4)%nat ->
    default [] (<[slot_index k c := slot ++ [user_pos]]> (beam_lists h)
                  !! slot_index k' c') =
    if decide (k' = k /\ c' = c) then slot ++ [user_pos]
    else default [] (beam_lists h !! slot_index k' c')) as Hlook.
  { intros k' c' Hc'. destruct (decide (k' = k /\ c' = c)) as [[-> ->]|Hne].
    - rewrite list_lookup_insert_eq; [done|]. by eapply lookup_lt_Some.
    - rewrite list_lookup_insert_ne; [done|].
      intros Heq. apply slot_index_inj in Heq as [-> ->]; [|done..]. by apply Hne. }
  assert (forall k', counter {| beam_lists := <[slot_index k c := slot ++ [user_pos]]>
                                  (beam_lists h);
                                beam_counts := <[k := count + 1]> (beam_counts h) |} k'
            = if decide (k' = k) then count + 1 else counter h k') as Hcounter.
  { intros k'. unfold counter. simpl. destruct (decide (k' = k)) as [->|Hne].
    - rewrite list_lookup_insert_eq; [done|]. by eapply lookup_lt_Some.
    - by rewrite list_lookup_insert_ne. }
  assert (counter h k = count) as Hck by (unfold counter; by rewrite Hcount).
  split.
  - split; simpl; rewrite ?length_insert; done.
  - intros k' Hk'. rewrite Hcounter.
    destruct (Hcnt k' Hk') as [Heq Hrange].
    rewrite beams_in_slots_eq in *. simpl. rewrite !Hlook by lia.
    destruct (decide (k' = k)) as [->|Hne].
    + rewrite Hck in Heq, Hrange. unfold BEAMS_PER_SATELLITE in *.
      assert (default [] (beam_lists h !! slot_index k c) = slot) as Hs
        by by rewrite Hslot.
      destruct c as [|[|[|[|c]]]]; try lia; rewrite Hs in Heq;
        repeat case_decide; try lia; rewrite length_app; simpl; lia.
    + repeat case_decide; try lia; done.
  - intros k' c' slot' sat_pos' i j p q Hc' Hslot' Hsat' Hij Hp Hq. simpl in Hslot'.
    pose proof (Hlook k' c' Hc') as Hl. rewrite Hslot' in Hl. simpl in Hl.
    destruct (decide (k' = k /\ c' = c)) as [[-> ->]|Hne].
    + subst slot'. rewrite Hsat in Hsat'. injection Hsat' as <-.
      pose proof (self_interference_false _ _ _ _ Hfree) as Hfar.
      apply lookup_app_Some in Hp as [Hp|[Hpl Hp]];
        apply lookup_app_Some in Hq as [Hq|[Hql Hq]].
      * by eapply (Hapart k c slot sat_pos i j).
      * apply list_lookup_singleton_Some in Hq as [_ <-].
        rewrite calc_angle_comm. apply Hfar. by eapply list_elem_of_lookup_2.
      * apply list_lookup_singleton_Some in Hp as [_ <-].
        apply Hfar. by eapply list_elem_of_lookup_2.
      * apply list_lookup_singleton_Some in Hp as [Hp _].
        apply list_lookup_singleton_Some in Hq as [Hq _]. lia.
    + destruct (beam_lists h !! slot_index k' c') as [old|] eqn:Hold.
      * simpl in Hl. subst old. by eapply (Hapart k' c' slot' sat_pos' i j).
      * simpl in Hl. subst slot'. by rewrite lookup_nil in Hp.
  - intros k'. rewrite counts_for_snoc, Hprinted, Hcounter. simpl.
    destruct (decide (k' = k)) as [->|Hne].
    + rewrite decide_True by done. rewrite Hck.
      destruct (Hcnt k Hk) as [_ [H0 _]]. rewrite Hck in H0.
      rewrite <- (Z2Nat.id count) by done.
      rewrite <- (Nat2Z.inj_add _ 1), Nat.add_1_r, seqZ_S. do 2 f_equal. lia.
    + rewrite decide_False by lia. by rewrite app_nil_r.
  - intros e He. apply elem_of_app in He as [He|He]; [by apply Hids|].
    apply list_elem_of_singleton in He as ->. simpl. lia.
Qed.

(** The state the parser hands to the engine satisfies the invariant. *)
Lemma engine_inv_start acos lines st :
  parse_lines lines parse_start = Ok (Parsed st) ->
  length (scenario_at (scenario st) SATS_KEY) = length (sat_id_tokens lines) /\
  engine_inv acos (scenario_at (scenario st) SATS_KEY) (sat_beam_list st)
    (length (sat_id_tokens lines)) (heap st) [].
Proof.
  intros H. apply parse_lines_parsed in H as [Hlay Hs Hl Hc Hids].
  split; [done|]. split; try done.
  - intros k Hk. rewrite beams_in_slots_eq. unfold counter.
    assert (forall i, default [] (beam_lists (heap st) !! i) = []) as Hempty.
    { intros i. destruct (beam_lists (heap st) !! i) as [s|] eqn:E; [|done].
      simpl. by eapply Hl. }
    rewrite !Hempty. simpl.
    destruct (beam_counts (heap st) !! k) as [m|] eqn:E; simpl.
    + rewrite (Hc _ _ E). unfold BEAMS_PER_SATELLITE. lia.
    + unfold BEAMS_PER_SATELLITE. lia.
  - intros k c slot sat_pos i j p q _ Hslot _ _ Hp _.
    rewrite (Hl _ _ Hslot) in Hp. by rewrite lookup_nil in Hp.
  - intros k. unfold counts_for, counter. simpl.
    destruct (beam_counts (heap st) !! k) as [m|] eqn:E; simpl; [|done].
    by rewrite (Hc _ _ E).
  - intros e He. by apply not_elem_of_nil in He.
Qed.

(** The invariant holds after any number of users, for any list of users. *)
Lemma engine_inv_run acos lines st user_vis_list :
  parse_lines lines parse_start = Ok (Parsed st) ->
  engine_inv acos (scenario_at (scenario st) SATS_KEY) (sat_beam_list st)
    (length (scenario_at (scenario st) SATS_KEY))
    (final_heap (assign_beams_and_print acos (scenario st) user_vis_list
                   (sat_beam_list st) (heap st)))
    (events (assign_beams_and_print acos (scenario st) user_vis_list
               (sat_beam_list st) (heap st))).
Proof.
  intros H. destruct (engine_inv_start acos lines st H) as [-> Hstart].
  apply (assign_beams_and_print_ind acos (scenario st) (sat_beam_list st)
           (engine_inv acos _ _ _) ) with (printed := []); [|done].
  intros user_i h printed h' ev. apply engine_inv_commit.
Qed.

(** ** The beam state during a run *)

Lemma seqZ_sorted (a : Z) (n : nat) : StronglySorted Z.lt (seqZ a (Z.of_nat n)).
Proof.
  revert a. induction n as [|n IH]; intros a.
  - rewrite seqZ_nil by lia. constructor.
  - rewrite seqZ_cons by lia. constructor.
    + replace (Z.pred (Z.of_nat (S n))) with (Z.of_nat n) by lia. apply IH.
    + apply Forall_seqZ. lia.
Qed.

Lemma seqZ_sorted' (a n : Z) : StronglySorted Z.lt (seqZ a n).
Proof.
  destruct (decide (0 <= n)).
  - rewrite <- (Z2Nat.id n) by done. apply seqZ_sorted.
  - rewrite seqZ_nil by lia. constructor.
Qed.

(** C4.  After any number of users, for any list of users, the counter
    of every satellite is the sum of the sizes of its four slots and is
    at most 32.  (A commit is one step here: the push and the increment
    that follows it have no observation in between.) *)
Theorem counter_is_sum_of_slots acos (lines : list string) (st : parsed)
    (user_vis_list : list UserVisibilityEntry) (m k : nat) :
  parse_lines lines parse_start = Ok (Parsed st) ->
  (k < length (scenario_at (scenario st) SATS_KEY))%nat ->
  beam_counts (heap_after acos st user_vis_list m) !! k
    = Some (counter (heap_after acos st user_vis_list m) k) /\
  counter (heap_after acos st user_vis_list m) k
    = beams_in_slots (heap_after acos st user_vis_list m) k /\
  0 <= counter (heap_after acos st user_vis_list m) k <= BEAMS_PER_SATELLITE.
Proof.
  intros Hparse Hk.
  destruct (engine_inv_run acos lines st (take m user_vis_list) Hparse)
    as [[_ _ Lc _] Hcnt _ _ _].
  fold (heap_after acos st user_vis_list m) in *.
  split; [|by apply Hcnt].
  unfold counter.
  destruct (lookup_lt_is_Some_2 (beam_counts (heap_after acos st user_vis_list m)) k)
    as [x ->]; [lia | done].
Qed.

Lemma counter_is_sum_of_slots_witness :
  parse_lines (getlines demo_file) parse_start = Ok (Parsed demo_state) /\
  counter (heap_after acos_ref demo_state both_see_first 2) 0 = 2 /\
  beam_counts (heap_after acos_ref demo_state both_see_first 2) !! 0%nat
    = Some (counter (heap_after acos_ref demo_state both_see_first 2) 0) /\
  counter (heap_after acos_ref demo_state both_see_first 2) 0
    = beams_in_slots (heap_after acos_ref demo_state both_see_first 2) 0 /\
  0 <= counter (heap_after acos_ref demo_state both_see_first 2) 0
    <= BEAMS_PER_SATELLITE.
Proof.
  split; [vm_compute; reflexivity|]. split; [vm_compute; reflexivity|].
  apply (counter_is_sum_of_slots acos_ref (getlines demo_file) demo_state
           both_see_first 2 0); [vm_compute; reflexivity | vm_compute; lia].
Defined.



Lemma last_seqZ (c : Z) : 0 < c -> last (seqZ 1 c) = Some c.
Proof.
  intros Hc. rewrite <- (Z2Nat.id c) by lia.
  destruct (Z.to_nat c) as [|n] eqn:E; [lia|].
  rewrite seqZ_S, last_snoc. f_equal. lia.
Qed.

(** C6.  After any number of users, for any list of users, the counts
    printed for a satellite are 1, 2, ... up to its counter, in this
    order: they are strictly increasing and start at 1.  Every line names
    a satellite (its number is at least 1), and when the next user adds a
    line, the count on that line is the counter of its satellite right
    after the increment. *)
Theorem beam_counts_count_up acos (lines : list string) (st : parsed)
    (user_vis_list : list UserVisibilityEntry) (m : nat) :
  parse_lines lines parse_start = Ok (Parsed st) ->
  (forall k : nat,
     counts_for (Z.of_nat k + 1) (printed_after acos st user_vis_list m)
       = seqZ 1 (counter (heap_after acos st user_vis_list m) k) /\
     StronglySorted Z.lt
       (counts_for (Z.of_nat k + 1) (printed_after acos st user_vis_list m))) /\
  (forall e, e ∈ printed_after acos st user_vis_list m -> 1 <= ev_sat e) /\
  (forall e,
     printed_after acos st user_vis_list (S m)
       = printed_after acos st user_vis_list m ++ [e] ->
     counter (heap_after acos st user_vis_list (S m)) (Z.to_nat (ev_sat e - 1))
       = ev_beam e).
Proof.
  intros Hparse.
  destruct (engine_inv_run acos lines st (take m user_vis_list) Hparse)
    as [_ _ _ Hprinted Hids].
  fold (heap_after acos st user_vis_list m) in Hprinted.
  fold (printed_after acos st user_vis_list m) in Hprinted, Hids.
  split; [|split; [done|]].
  - intros k. split; [done|]. rewrite Hprinted. apply seqZ_sorted'.
  - intros e He.
    destruct (engine_inv_run acos lines st (take (S m) user_vis_list) Hparse)
      as [_ Hcnt _ Hprinted' Hids'].
    fold (heap_after acos st user_vis_list (S m)) in Hprinted', Hcnt.
    fold (printed_after acos st user_vis_list (S m)) in Hprinted', Hids'.
    assert (1 <= ev_sat e) as Hsat.
    { apply Hids'. rewrite He. apply elem_of_app. right. by left. }
    specialize (Hprinted' (Z.to_nat (ev_sat e - 1))).
    rewrite Z2Nat.id in Hprinted' by lia.
    replace (ev_sat e - 1 + 1) with (ev_sat e) in Hprinted' by lia.
    rewrite He, counts_for_snoc in Hprinted'. rewrite decide_True in Hprinted' by done.
    set (cnt := counter (heap_after acos st user_vis_list (S m))
                  (Z.to_nat (ev_sat e - 1))) in *.
    assert (0 < cnt) as Hpos.
    { destruct (decide (0 < cnt)); [done|]. rewrite seqZ_nil in Hprinted' by lia.
      by destruct (counts_for _ _). }
    apply (f_equal last) in Hprinted'. rewrite last_snoc, last_seqZ in Hprinted' by done.
    by injection Hprinted' as <-.
Qed.

Lemma beam_counts_count_up_witness :
  parse_lines (getlines demo_file) parse_start = Ok (Parsed demo_state) /\
  printed_after acos_ref demo_state both_see_first 2 =
    printed_after acos_ref demo_state both_see_first 1 ++
    [ {| ev_sat := 1; ev_beam := 2; ev_user := 2; ev_color := "B" |} ] /\
  counts_for 1 (printed_after acos_ref demo_state both_see_first 1)
    = seqZ 1 (counter (heap_after acos_ref demo_state both_see_first 1) 0) /\
  StronglySorted Z.lt
    (counts_for 1 (printed_after acos_ref demo_state both_see_first 1)) /\
  counter (heap_after acos_ref demo_state both_see_first 2) 0 = 2.
Proof.
  split; [vm_compute; reflexivity|]. split; [vm_compute; reflexivity|].
  destruct (beam_counts_count_up acos_ref (getlines demo_file) demo_state
              both_see_first 1 ltac:(vm_compute; reflexivity))
    as (Hcounts & _ & Hnext).
  split; [apply (Hcounts 0%nat)|]. split; [apply (Hcounts 0%nat)|].
  apply (Hnext {| ev_sat := 1; ev_beam := 2; ev_user := 2; ev_color := "B" |}).
  vm_compute; reflexivity.
Defined.

(** Outside the precondition of section 4.1: in [colocated_file] user 1
    sits at the position of the satellite.  Both users are served on
    colour A, and the angle between them at the satellite is not a
    number. *)
Lemma colocated_beams_not_apart :
  parse_lines (getlines colocated_file) parse_start = Ok (Parsed colocated_state) /\
  generate_user_vis_list acos_ref (scenario colocated_state)
    (sat_beam_list colocated_state) = Ok both_see_first /\
  insertion_sort sortUsersByPotentialCoverage both_see_first = both_see_first /\
  solve acos_ref insertion_sort (fun _ => Some colocated_file) "scenario.txt" =
    {| stdout :=
         [ BeamLine {| ev_sat := 1; ev_beam := 1; ev_user := 1; ev_color := "A" |};
           BeamLine {| ev_sat := 1; ev_beam := 2; ev_user := 2; ev_color := "A" |} ];
       ended := None |} /\
  beam_lists (heap_after acos_ref colocated_state both_see_first 2) !! slot_index 0 0
    = Some [point 0 0 2; point 0 0 1] /\
  scenario_at (scenario colocated_state) SATS_KEY !! 0%nat = Some (point 0 0 2) /\
  point 0 0 2 <> point 0 0 1 /\
  calc_angle acos_ref (point 0 0 2) (point 0 0 2) (point 0 0 1) = S754_nan /\
  F64.leb SELF_INTERFERENCE_MAX
          (to_double (calc_angle acos_ref (point 0 0 2) (point 0 0 2) (point 0 0 1)))
    = false.
Proof. repeat split; try (vm_compute; reflexivity). discriminate. Qed.

(** Outside the precondition of section 4.1 too: in [origin_file] the
    user sits at the origin.  The ray from the user to the origin has
    length 0, its normalisation divides 0 by 0, and the angle at the user
    between the origin and the satellite is not a number (the arc cosine
    of a NaN is a NaN in every C library); the satellite is in the
    user's visibility list. *)
Lemma origin_user_sees_satellite :
  parse_lines (getlines origin_file) parse_start = Ok (Parsed origin_state) /\
  scenario_at (scenario origin_state) USER_KEY = [point 0 0 0] /\
  scenario_at (scenario origin_state) SATS_KEY = [point 0 0 2] /\
  scenario_at (scenario origin_state) INTERFERER_KEY = [] /\
  generate_user_vis_list acos_ref (scenario origin_state)
    (sat_beam_list origin_state) = Ok [ {| user_id := 0; visible_sats := [0] |} ] /\
  calc_angle acos_ref (point 0 0 0) ORIGIN (point 0 0 2) = S754_nan /\
  F64.ltb (F64.of_Z 135)
          (to_double (calc_angle acos_ref (point 0 0 0) ORIGIN (point 0 0 2)))
    = false.
Proof. repeat split; vm_compute; reflexivity. Qed.

(** ** The engine and the specification's search *)

Lemma alter_as_insert {A} (f : A -> A) (l : list A) (i : nat) (x : A) :
  l !! i = Some x -> alter f i l = <[i := f x]> l.
Proof.
  intros Hi. apply list_eq. intros j. destruct (decide (i = j)) as [<-|Hne].
  - rewrite list_lookup_alter_eq, list_lookup_insert_eq, Hi; [done|].
    by eapply lookup_lt_Some.
  - by rewrite list_lookup_alter_ne, list_lookup_insert_ne.
Qed.

Lemma candidates_cons (s : Z) (visible : list Z) :
  candidates (s :: visible) =
  ((fun c => (s, c)) <$> seq 0 (length COLOR_IDS)) ++ candidates visible.
Proof. reflexivity. Qed.

Lemma find_colours (avail : Z * nat -> bool) (free : nat -> bool) (s : Z)
    (cs : list nat) (rest : list (Z * nat)) :
  (forall c, avail (s, c) = free c) ->
  List.find avail (((fun c => (s, c)) <$> cs) ++ rest) =
  match List.find free cs with
  | Some c => Some (s, c)
  | None => List.find avail rest
  end.
Proof.
  intros Hfree. induction cs as [|c cs IH]; simpl; [done|].
  rewrite Hfree. by destruct (free c).
Qed.

Lemma layout_commit entries h n s c p :
  layout entries h n -> layout entries (commit h s c p) n.
Proof.
  intros [Le Ll Lc Lentry]. split; simpl; rewrite ?length_alter; done.
Qed.

Section Refinement.
Variable acos : spec_float -> spec_float.
Variable scenario : scenario_t.
Variable entries : list SatBeamEntry.
Variable n : nat.

Hypothesis Hsats : length (scenario_at scenario SATS_KEY) = n.
Hypothesis Hids : forall k c e,
  (c < 4)%nat -> entries !! slot_index k c = Some e -> sat_id e = Z.of_nat k.

Lemma color_loop_find h (k : nat) user_i sat_pos user_pos todo c0 :
  layout entries h n -> (k < n)%nat ->
  scenario_at scenario SATS_KEY !! k = Some sat_pos ->
  (c0 + todo = 4)%nat ->
  color_loop acos entries h (Z.of_nat k) (Z.of_nat k * COLORS_PER_SATELLITE)
    user_i sat_pos user_pos todo (Z.of_nat c0) =
  Ok (match List.find (fun c => negb (conflicts acos scenario h (Z.of_nat k) c user_pos))
                      (seq c0 todo) with
      | Some c =>
          Some (commit h (Z.of_nat k) c user_pos,
                {| ev_sat := Z.of_nat k + 1;
                   ev_beam := counter (commit h (Z.of_nat k) c user_pos) k;
                   ev_user := user_i + 1;
                   ev_color := default "A"%char (COLOR_IDS !! c) |})
      | None => None
      end).
Proof.
  intros Hlay Hk Hsat. pose proof Hlay as [Le Ll Lc Lentry].
  rewrite slot_index_eq in Le, Ll.
  revert c0. induction todo as [|todo IH]; intros c0 Hc0; [done|].
  destruct (lookup_lt_is_Some_2 entries (slot_index k c0)) as [e He].
  { rewrite slot_index_eq. lia. }
  destruct (Lentry k c0 e ltac:(lia) He) as (Hb & Ht & Hcol).
  destruct (lookup_lt_is_Some_2 (beam_lists h) (slot_index k c0)) as [slot Hslot].
  { rewrite slot_index_eq. lia. }
  destruct (lookup_lt_is_Some_2 (beam_counts h) k) as [count Hcount]; [lia|].
  cbn [color_loop seq List.find].
  replace (Z.of_nat k * COLORS_PER_SATELLITE + Z.of_nat c0)
    with (Z.of_nat (slot_index k c0))
    by (rewrite slot_index_eq; unfold COLORS_PER_SATELLITE; lia).
  rewrite at_index_nat, He. cbn [mbind res_bind].
  rewrite decide_True by (apply Hids with c0; [lia | done]).
  assert (deref (beam_lists h) (beam_list e) = Ok slot) as ->
    by (apply deref_Ok; by rewrite Hb).
  assert (deref (beam_counts h) (total_sat_beam_count e) = Ok count) as Hderef
    by (apply deref_Ok; by rewrite Ht).
  cbn [mbind res_bind].
  assert (conflicts acos scenario h (Z.of_nat k) c0 user_pos
          = self_interference acos sat_pos user_pos slot) as ->.
  { unfold conflicts. by rewrite Nat2Z.id, Hsat, Hslot. }
  destruct (self_interference acos sat_pos user_pos slot); cbn [negb].
  - replace (Z.of_nat c0 + 1) with (Z.of_nat (S c0)) by lia. apply IH. lia.
  - rewrite Hderef. cbn [mbind res_bind]. rewrite Hb, Ht.
    unfold commit, counter. cbn [beam_lists beam_counts]. rewrite Nat2Z.id.
    rewrite (alter_as_insert _ _ _ _ Hslot), (alter_as_insert _ _ _ _ Hcount).
    rewrite list_lookup_insert_eq by (by eapply lookup_lt_Some).
    rewrite Hcol. cbn [default]. rewrite (Hids k c0 e) by (lia || done).
    do 4 f_equal.
Qed.

Lemma sat_loop_serve h user_i cand visible :
  layout entries h n -> 0 <= user_i ->
  scenario_at scenario USER_KEY !! Z.to_nat user_i = Some cand ->
  Forall (fun s => 0 <= s < Z.of_nat n) visible ->
  sat_loop acos scenario entries h user_i visible =
  Ok (match List.find (available acos scenario h cand) (candidates visible) with
      | Some (s, c) =>
          (commit h s c cand,
           [{| ev_sat := s + 1;
               ev_beam := counter (commit h s c cand) (Z.to_nat s);
               ev_user := user_i + 1;
               ev_color := default "A"%char (COLOR_IDS !! c) |}])
      | None => (h, [])
      end).
Proof.
  intros Hlay Hu0 Hcand Hvis. pose proof Hlay as [Le Ll Lc Lentry].
  rewrite slot_index_eq in Le, Ll.
  induction Hvis as [|s visible Hs Hvis IH]; [done|].
  rewrite sat_loop_cons, candidates_cons.
  set (k := Z.to_nat s). assert (s = Z.of_nat k) as Hsk by lia.
  destruct (lookup_lt_is_Some_2 entries (slot_index k 0)) as [e0 He0].
  { rewrite slot_index_eq. lia. }
  destruct (Lentry k 0%nat e0 ltac:(lia) He0) as (_ & Ht & _).
  destruct (lookup_lt_is_Some_2 (beam_counts h) k) as [count Hcount]; [lia|].
  destruct (lookup_lt_is_Some_2 (scenario_at scenario SATS_KEY) k) as [sat_pos Hsat];
    [lia|].
  replace (s * COLORS_PER_SATELLITE) with (Z.of_nat (slot_index k 0)) at 1
    by (rewrite slot_index_eq; unfold COLORS_PER_SATELLITE; lia).
  rewrite at_index_nat, He0. cbn [mbind res_bind].
  assert (deref (beam_counts h) (total_sat_beam_count e0) = Ok count) as ->
    by (apply deref_Ok; by rewrite Ht).
  cbn [mbind res_bind].
  assert (capacity_remaining h s = bool_decide (count < BEAMS_PER_SATELLITE)) as Hcap.
  { unfold capacity_remaining. fold k. by rewrite Hcount. }
  destruct (decide (count >= BEAMS_PER_SATELLITE)) as [Hfull|Hroom].
  - rewrite (find_colours _ (fun _ => false)).
    + rewrite IH. reflexivity.
    + intros c. unfold available. cbn [fst snd]. rewrite Hcap.
      rewrite bool_decide_eq_false_2 by lia. done.
  - rewrite (find_colours _ (fun c => negb (conflicts acos scenario h s c cand))).
    2:{ intros c. unfold available. cbn [fst snd]. rewrite Hcap.
        rewrite bool_decide_eq_true_2 by lia. done. }
    rewrite Hsk at 1. rewrite at_index_nat, Hsat. cbn [mbind res_bind].
    rewrite <- (Z2Nat.id user_i) at 1 by done.
    rewrite at_index_nat, Hcand. cbn [mbind res_bind].
    pose proof (color_loop_find h k user_i sat_pos cand 4 0 Hlay
                  ltac:(lia) Hsat eq_refl) as Hloop.
    change (Z.of_nat 0) with 0 in Hloop. rewrite <- Hsk in Hloop.
    change (length COLOR_IDS) with 4%nat. rewrite Hloop. cbn [mbind res_bind].
    destruct (List.find _ (seq 0 4)) as [c|]; [done | apply IH].
Qed.

Local Abbreviation entry_in_range := (entry_in_range scenario n).

Lemma sat_loop_is_serve h entry :
  layout entries h n -> entry_in_range entry ->
  sat_loop acos scenario entries h (user_id entry) (visible_sats entry)
  = Ok (serve acos scenario h entry).
Proof.
  intros Hlay [Hu Hvis].
  destruct (lookup_lt_is_Some_2 (scenario_at scenario USER_KEY)
              (Z.to_nat (user_id entry))) as [cand Hcand]; [lia|].
  rewrite (sat_loop_serve h _ cand) by (lia || done).
  unfold serve. rewrite Hcand. by destruct (List.find _ _) as [[s c]|].
Qed.

Lemma layout_serve h entry :
  layout entries h n -> layout entries (serve acos scenario h entry).1 n.
Proof.
  intros Hlay. unfold serve.
  destruct (_ !! _) as [cand|]; [|done].
  destruct (List.find _ _) as [[s c]|]; [|done]. by apply layout_commit.
Qed.

Lemma assign_is_serve_all user_vis_list h :
  layout entries h n -> Forall entry_in_range user_vis_list ->
  assign_beams_and_print acos scenario user_vis_list entries h =
  {| final_heap := (serve_all acos scenario h user_vis_list).1;
     events := (serve_all acos scenario h user_vis_list).2;
     stopped := None |}.
Proof.
  intros Hlay Hall. revert h Hlay.
  induction Hall as [|entry rest Hentry Hall IH]; intros h Hlay; [done|].
  cbn [assign_beams_and_print serve_all].
  rewrite (sat_loop_is_serve h entry Hlay Hentry).
  pose proof (layout_serve h entry Hlay) as Hlay'.
  destruct (serve acos scenario h entry) as [h1 first]. cbn [fst] in Hlay'.
  rewrite (IH h1 Hlay').
  by destruct (serve_all acos scenario h1 rest) as [h2 others].
Qed.
End Refinement.

Lemma insert_sorted_perm x l :
  Permutation (insert_sorted sortUsersByPotentialCoverage x l) (x :: l).
Proof.
  induction l as [|y l IH]; simpl; [done|].
  destruct (sortUsersByPotentialCoverage y x); [|done].
  rewrite IH. apply Permutation_swap.
Qed.

Lemma insert_sorted_sorted x l :
  StronglySorted shorter_or_equal l ->
  StronglySorted shorter_or_equal (insert_sorted sortUsersByPotentialCoverage x l).
Proof.
  induction 1 as [|y l Hl IH Hy]; simpl; [by repeat constructor|].
  unfold sortUsersByPotentialCoverage at 1.
  destruct (Nat.ltb_spec (length (visible_sats y)) (length (visible_sats x))) as [Hlt|Hge].
  - constructor; [done|]. rewrite insert_sorted_perm. constructor; [|done].
    unfold shorter_or_equal. lia.
  - constructor; [by constructor|]. constructor; [done|].
    eapply Forall_impl; [exact Hy|]. unfold shorter_or_equal. intros z Hz. lia.
Qed.

Lemma insertion_sort_contract : sort_contract insertion_sort.
Proof.
  intros l. unfold insertion_sort. induction l as [|x l [IHp IHs]]; simpl.
  - split; [done | constructor].
  - split; [by rewrite insert_sorted_perm, IHp | by apply insert_sorted_sorted].
Qed.

Lemma numbered_ids lines st :
  parse_lines lines parse_start = Ok (Parsed st) ->
  sats_numbered_in_order lines ->
  forall k c e, (c < 4)%nat -> sat_beam_list st !! slot_index k c = Some e ->
                sat_id e = Z.of_nat k.
Proof.
  intros Hparse Hnum k c e Hc He.
  apply parse_lines_parsed in Hparse as [[Le _ _ _] _ _ _ Hids].
  rewrite slot_index_eq in Le.
  destruct (lookup_lt_is_Some_2 (sat_id_tokens lines) k) as [tok Htok].
  { apply lookup_lt_Some in He. rewrite slot_index_eq in He. lia. }
  pose proof (Hids k c e tok Hc Htok He) as Hid.
  rewrite (Hnum k tok Htok) in Hid. injection Hid as Hid. lia.
Qed.

Lemma generate_in_range acos scenario entries vis :
  generate_user_vis_list acos scenario entries = Ok vis ->
  Forall (entry_in_range scenario (length (scenario_at scenario SATS_KEY))) vis.
Proof.
  intros H. unfold generate_user_vis_list in H.
  apply (user_loop_Ok acos scenario entries _ 0) in H as (rows & -> & Hlen & Hrows).
  simpl. apply Forall_lookup. intros u entry Hu.
  destruct (Hrows u entry Hu) as [Hid Hloop]. simpl in Hid, Hloop.
  destruct (lookup_lt_is_Some_2 (scenario_at scenario USER_KEY) u) as [p Hp].
  { rewrite <- Hlen. by eapply lookup_lt_Some. }
  split.
  - rewrite Hid. apply lookup_lt_Some in Hp. lia.
  - apply Forall_forall. intros s Hs.
    apply (visible_loop_Ok acos scenario u p _ [] _ Hp Hloop s) in Hs
      as [Hs|[_ (sat_pos & H0 & Hsat & _)]]; [by apply not_elem_of_nil in Hs|].
    apply lookup_lt_Some in Hsat. lia.
Qed.

Lemma find_first {A} (f : A -> bool) (before : list A) (x : A) (after : list A) :
  Forall (fun y => f y = false) before -> f x = true ->
  List.find f (before ++ x :: after) = Some x.
Proof.
  induction 1 as [|y before Hy _ IH]; intros Hx; simpl; [by rewrite Hx|].
  rewrite Hy. by apply IH.
Qed.

Lemma find_nothing {A} (f : A -> bool) (l : list A) :
  Forall (fun y => f y = false) l -> List.find f l = None.
Proof. induction 1 as [|y l Hy _ IH]; simpl; [done|]. by rewrite Hy. Qed.

Lemma counter_commit h s c cand :
  capacity_remaining h s = true ->
  counter (commit h s c cand) (Z.to_nat s) = counter h (Z.to_nat s) + 1.
Proof.
  unfold capacity_remaining, counter, commit. simpl.
  rewrite list_lookup_alter_eq.
  destruct (beam_counts h !! Z.to_nat s); [simpl; lia | done].
Qed.

Lemma stride_lookup (skip : nat) (l : list SatBeamEntry) (e : SatBeamEntry) :
  e ∈ stride skip l -> exists k, l !! (4 * k + skip)%nat = Some e.
Proof.
  revert skip. induction l as [|x l IH]; intros skip He; simpl in He.
  - by apply not_elem_of_nil in He.
  - destruct skip as [|skip].
    + apply elem_of_cons in He as [->|He]; [by exists 0%nat|].
      apply IH in He as [k Hk]. exists (S k).
      by replace (4 * S k + 0)%nat with (S (4 * k + 3)) by lia.
    + apply IH in He as [k Hk]. exists k.
      by replace (4 * k + S skip)%nat with (S (4 * k + skip)) by lia.
Qed.

Lemma heads_in_range lines st :
  parse_lines lines parse_start = Ok (Parsed st) ->
  sats_numbered_in_order lines ->
  forall e, e ∈ stride 0 (sat_beam_list st) ->
    0 <= sat_id e < Z.of_nat (length (scenario_at (scenario st) SATS_KEY)).
Proof.
  intros Hparse Hnum e He. apply stride_lookup in He as [k Hk].
  rewrite <- slot_index_eq in Hk.
  rewrite (numbered_ids lines st Hparse Hnum k 0%nat e ltac:(lia) Hk).
  apply parse_lines_parsed in Hparse as [[Le _ _ _] Hs _ _ _].
  apply lookup_lt_Some in Hk. rewrite Le, !slot_index_eq in Hk. lia.
Qed.

Lemma lookup_stride (skip : nat) (l : list SatBeamEntry) (k : nat) (e : SatBeamEntry) :
  l !! (4 * k + skip)%nat = Some e -> e ∈ stride skip l.
Proof.
  revert skip k. induction l as [|x l IH]; intros skip k He; [done|].
  destruct skip as [|skip]; cbn [stride].
  - destruct k as [|k].
    + simpl in He. injection He as ->. apply elem_of_cons. by left.
    + apply elem_of_cons. right.
      change (Z.to_nat COLORS_PER_SATELLITE - 1)%nat with 3%nat.
      apply (IH 3%nat k).
      by replace (4 * S k + 0)%nat with (S (4 * k + 3)) in He by lia.
  - apply (IH skip k).
    by replace (4 * k + S skip)%nat with (S (4 * k + skip)) in He by lia.
Qed.

(** X27.  For every file the parser accepts whose satellites are
    numbered in order, the visibility list exists, has one entry per
    user, and a satellite id is in a user's entry exactly when the
    satellite passes both tests ([passes_tests]): the angle at the user
    between the origin and the satellite is not at most 135 degrees
    ([elevation_fails] is false), and no interferer makes an angle below
    20 degrees with the satellite ([interferes] is false for all of
    them).  For an angle that is a number, "not at most 135" is "above
    135".  The loop of the other source file, a [while] on the index,
    builds the same list. *)
Theorem visibility_list_characterised acos (lines : list string) (st : parsed) :
  parse_lines lines parse_start = Ok (Parsed st) ->
  sats_numbered_in_order lines ->
  (exists vis,
     generate_user_vis_list acos (scenario st) (sat_beam_list st) = Ok vis /\
     length vis = length (scenario_at (scenario st) USER_KEY) /\
     forall u entry,
       vis !! u = Some entry ->
       user_id entry = Z.of_nat u /\
       exists user_pos,
         scenario_at (scenario st) USER_KEY !! u = Some user_pos /\
         forall s,
           s ∈ visible_sats entry <-> passes_tests acos (scenario st) user_pos s) /\
  (forall user_pos sat_pos,
     to_double (calc_angle acos user_pos ORIGIN sat_pos) <> S754_nan ->
     (elevation_fails acos user_pos sat_pos = false <->
      F64.ltb (F64.of_Z 135)
              (to_double (calc_angle acos user_pos ORIGIN sat_pos)) = true)) /\
  (forall user_i visible,
     visible_while acos (scenario st) user_i (sat_beam_list st)
                   (length (sat_beam_list st)) 0 visible
     = visible_loop acos (scenario st) user_i (stride 0 (sat_beam_list st)) visible).
Proof.
  intros Hparse Hnum.
  destruct (visibility_of_entries acos (scenario st) (sat_beam_list st))
    as (Htotal & Hchar & Hlimit & Hwhile).
  split; [|by split].
  destruct (Htotal (heads_in_range _ _ Hparse Hnum)) as [vis Hgen].
  exists vis. split; [done|].
  destruct (Hchar vis Hgen) as [Hlen Hrows]. split; [done|].
  intros u entry Hu. destruct (Hrows u entry Hu) as (Hid & user_pos & Hpos & Hmem).
  split; [done|]. exists user_pos. split; [done|]. intros s. rewrite Hmem.
  split; [by intros [_ ?]|]. intros Hpass. split; [|done].
  destruct Hpass as (sat_pos & H0 & Hsat & _).
  pose proof (parse_lines_parsed _ _ Hparse) as [[Le _ _ _] Hs _ _ _].
  destruct (lookup_lt_is_Some_2 (sat_beam_list st) (slot_index (Z.to_nat s) 0))
    as [e He].
  { apply lookup_lt_Some in Hsat. rewrite Le, !slot_index_eq. lia. }
  exists e. split.
  - apply (lookup_stride 0 _ (Z.to_nat s)). by rewrite <- slot_index_eq.
  - rewrite (numbered_ids lines st Hparse Hnum (Z.to_nat s) 0%nat e ltac:(lia) He).
    lia.
Qed.

Lemma visibility_list_characterised_witness :
  parse_lines (getlines demo_file) parse_start = Ok (Parsed demo_state) /\
  sats_numbered_in_order (getlines demo_file) /\
  exists vis,
    generate_user_vis_list acos_ref (scenario demo_state) (sat_beam_list demo_state)
      = Ok vis /\
    length vis = 2%nat.
Proof.
  split; [vm_compute; reflexivity|]. split; [exact demo_numbered|].
  destruct (visibility_list_characterised acos_ref (getlines demo_file) demo_state
              ltac:(vm_compute; reflexivity) demo_numbered)
    as [(vis & Hgen & Hlen & _) _].
  exists vis. split; [exact Hgen | exact Hlen].
Defined.

(** C1.  In [swapped_file] the satellite lines carry the ids 2 and 1, and
    the parser accepts them: the positions are stored in file order and
    the beam entries carry the ids 1 and 0.  The builder looks the
    position of an id up at that index, so for id 0, the satellite of
    the line [sat 1 0 0 1], it tests the position of the other
    satellite.  Satellite 0 is below the user, at an angle of 0 degrees
    from the origin, and is in the user's list; satellite 1 is above the
    user, at 180 degrees, and is not. *)
Lemma swapped_ids_list_other_satellite :
  parse_lines (getlines swapped_file) parse_start = Ok (Parsed swapped_state) /\
  sat_id_tokens (getlines swapped_file) = ["2"; "1"] /\
  scenario_at (scenario swapped_state) USER_KEY = [point 0 0 2] /\
  scenario_at (scenario swapped_state) SATS_KEY = [point 0 0 3; point 0 0 1] /\
  scenario_at (scenario swapped_state) INTERFERER_KEY = [] /\
  sat_id <$> stride 0 (sat_beam_list swapped_state) = [1; 0] /\
  generate_user_vis_list acos_ref (scenario swapped_state)
    (sat_beam_list swapped_state) = Ok [ {| user_id := 0; visible_sats := [0] |} ] /\
  calc_angle acos_ref (point 0 0 2) ORIGIN (point 0 0 1) = F32.of_Z 0 /\
  F64.ltb (F64.of_Z 135)
          (to_double (calc_angle acos_ref (point 0 0 2) ORIGIN (point 0 0 1))) = false /\
  calc_angle acos_ref (point 0 0 2) ORIGIN (point 0 0 3) = F32.of_Z 180 /\
  F64.ltb (F64.of_Z 135)
          (to_double (calc_angle acos_ref (point 0 0 2) ORIGIN (point 0 0 3))) = true.
Proof. repeat split; vm_compute; reflexivity. Qed.

(** X1.  For every file whose satellites are numbered in order,
    [solve] hands the engine the visibility entries in an order that is
    ascending in the length of the visible-satellite list, and the engine
    serves them one after the other as the specification says
    ([serve_all]): for each user the pairs of a visible satellite, in
    stored order, and a colour, in declared order, are tried in turn; at
    the first pair with capacity left and no conflict the user is
    committed and one line is printed, with the counter after the
    increment, and nothing further is tried; a user with no such pair
    changes nothing and prints nothing. *)
Theorem greedy_first_fit acos std_sort (fs : string -> option string)
    (filename content : string) (st : parsed) :
  sort_contract std_sort ->
  fs filename = Some content ->
  parse_lines (getlines content) parse_start = Ok (Parsed st) ->
  sats_numbered_in_order (getlines content) ->
  (exists vis order,
     generate_user_vis_list acos (scenario st) (sat_beam_list st) = Ok vis /\
     Permutation order vis /\ StronglySorted shorter_or_equal order /\
     solve acos std_sort fs filename =
       {| stdout := BeamLine <$> (serve_all acos (scenario st) (heap st) order).2;
          ended := None |}) /\
  (forall h entry cand,
     scenario_at (scenario st) USER_KEY !! Z.to_nat (user_id entry) = Some cand ->
     (forall before s c after,
        candidates (visible_sats entry) = before ++ (s, c) :: after ->
        Forall (fun sc => available acos (scenario st) h cand sc = false) before ->
        available acos (scenario st) h cand (s, c) = true ->
        serve acos (scenario st) h entry =
          (commit h s c cand,
           [{| ev_sat := s + 1; ev_beam := counter h (Z.to_nat s) + 1;
               ev_user := user_id entry + 1;
               ev_color := default "A"%char (COLOR_IDS !! c) |}])) /\
     (Forall (fun sc => available acos (scenario st) h cand sc = false)
             (candidates (visible_sats entry)) ->
      serve acos (scenario st) h entry = (h, []))).
Proof.
  intros Hsort Hfs Hparse Hnum. split.
  - destruct (user_loop_total acos (scenario st) (sat_beam_list st)
                (length (scenario_at (scenario st) USER_KEY)) 0 [] ltac:(lia)
                (heads_in_range _ _ Hparse Hnum)) as [vis Hgen].
    change (generate_user_vis_list acos (scenario st) (sat_beam_list st) = Ok vis)
      in Hgen.
    exists vis, (std_sort sortUsersByPotentialCoverage vis).
    destruct (Hsort vis) as [Hperm Hsorted].
    split; [done|]. split; [done|]. split; [done|].
    unfold solve. rewrite Hfs, Hparse, Hgen. cbn zeta.
    pose proof (parse_lines_parsed _ _ Hparse) as [Hlay Hs _ _ _].
    rewrite (assign_is_serve_all acos (scenario st) (sat_beam_list st)
               (length (scenario_at (scenario st) SATS_KEY)) eq_refl
               (numbered_ids _ _ Hparse Hnum)); [done | |].
    + by rewrite Hs.
    + rewrite Hperm. by eapply generate_in_range.
  - intros h entry cand Hcand. split.
    + intros before s c after Hsplit Hbefore Havail.
      unfold serve. rewrite Hcand, Hsplit, (find_first _ _ _ _ Hbefore Havail).
      rewrite counter_commit; [done|].
      unfold available in Havail. simpl in Havail.
      by apply andb_true_iff in Havail as [? _].
    + intros Hnone. unfold serve. by rewrite Hcand, (find_nothing _ _ Hnone).
Qed.

Lemma greedy_first_fit_witness :
  sort_contract insertion_sort /\
  parse_lines (getlines demo_file) parse_start = Ok (Parsed demo_state) /\
  sats_numbered_in_order (getlines demo_file) /\
  exists vis order,
    generate_user_vis_list acos_ref (scenario demo_state) (sat_beam_list demo_state)
      = Ok vis /\
    Permutation order vis /\
    StronglySorted shorter_or_equal order /\
    solve acos_ref insertion_sort (fun _ => Some demo_file) "scenario.txt" =
      {| stdout := BeamLine <$>
                     (serve_all acos_ref (scenario demo_state) (heap demo_state) order).2;
         ended := None |}.
Proof.
  split; [exact insertion_sort_contract|]. split; [vm_compute; reflexivity|].
  split; [exact demo_numbered|].
  apply (greedy_first_fit acos_ref insertion_sort (fun _ => Some demo_file)
           "scenario.txt" demo_file demo_state);
    [exact insertion_sort_contract | reflexivity | vm_compute; reflexivity
    | exact demo_numbered].
Defined.

(** The run of [solve] on [demo_file] with the reference library. *)
Example demo_run :
  solve acos_ref insertion_sort (fun _ => Some demo_file) "scenario.txt" =
    {| stdout :=
         [ BeamLine {| ev_sat := 1; ev_beam := 1; ev_user := 1; ev_color := "A" |};
           BeamLine {| ev_sat := 1; ev_beam := 2; ev_user := 2; ev_color := "B" |} ];
       ended := None |}.
Proof. vm_compute. reflexivity. Qed.

(** C2.  In [misnumbered_file] the satellite lines carry the ids 2 and 1,
    and the parser accepts them.  The user sees both satellites, and the
    first pair the engine tries has capacity left and no conflict; but
    the entry found for it carries the other id, the id assertion of the
    engine stops the run, and no line is printed for the user. *)
Lemma misnumbered_run_stops_at_assertion :
  parse_lines (getlines misnumbered_file) parse_start = Ok (Parsed misnumbered_state) /\
  generate_user_vis_list acos_ref (scenario misnumbered_state)
    (sat_beam_list misnumbered_state)
    = Ok [ {| user_id := 0; visible_sats := [1; 0] |} ] /\
  scenario_at (scenario misnumbered_state) USER_KEY !! 0%nat = Some (point 0 0 1) /\
  head (candidates [1; 0]) = Some (1, 0%nat) /\
  available acos_ref (scenario misnumbered_state) (heap misnumbered_state)
    (point 0 0 1) (1, 0%nat) = true /\
  solve acos_ref insertion_sort (fun _ => Some misnumbered_file) "scenario.txt" =
    {| stdout := []; ended := Some (AssertionFailed assert_sat_id) |}.
Proof. repeat split; vm_compute; reflexivity. Qed.

(** * More properties of the program *)

(** ** [calc_angle] on a ray of length zero *)

Lemma sub_self (x : spec_float) :
  F32.sub x x = S754_zero false \/ F32.sub x x = S754_nan.
Proof.
  destruct x as [[]|[]| |s m e]; simpl; auto.
  left. unfold F32.sub, SFsub. by rewrite Z.sub_diag.
Qed.

Lemma vec_norm_degenerate (V : vector_3d_t) :
  vec_norm (vec_sub V V) = Vec3 S754_nan S754_nan S754_nan.
Proof.
  unfold vec_sub.
  destruct (sub_self (vx V)) as [-> | ->], (sub_self (vy V)) as [-> | ->],
    (sub_self (vz V)) as [-> | ->]; reflexivity.
Qed.

Lemma dot_nan (b : vector_3d_t) : dot (Vec3 S754_nan S754_nan S754_nan) b = S754_nan.
Proof. reflexivity. Qed.

Lemma dot_product_bound_degenerate (V B : vector_3d_t) :
  dot_product_bound V V B = S754_nan.
Proof. unfold dot_product_bound. by rewrite vec_norm_degenerate, dot_nan. Qed.

Lemma calc_angle_degenerate acos (V B : vector_3d_t) :
  acos S754_nan = S754_nan -> calc_angle acos V V B = S754_nan.
Proof. intros H. unfold calc_angle. by rewrite dot_product_bound_degenerate, H. Qed.

(** X3.  When one of the two points is the vertex itself, the ray to it
    has length zero, its normalisation divides zero by zero, and the
    clamped dot product is a NaN whatever the other point is (also for
    coordinates that are infinite or NaN).  With a C library whose arc
    cosine of a NaN is a NaN the angle is a NaN, and every comparison of
    the program with it is false: a user at the origin, or at the place of
    the satellite, passes the elevation test; an interferer at the place of
    the user, or a satellite at the place of the user, never interferes;
    a user at the place of the satellite never conflicts with a beam, and
    a beam that points at the satellite's own place never conflicts with
    a user. *)
Theorem zero_length_ray_passes_every_test acos :
  acos S754_nan = S754_nan ->
  (forall V B, calc_angle acos V V B = S754_nan /\ calc_angle acos V B V = S754_nan) /\
  (forall sat_pos, elevation_fails acos ORIGIN sat_pos = false) /\
  (forall user_pos, elevation_fails acos user_pos user_pos = false) /\
  (forall user_pos sat_pos, interferes acos user_pos sat_pos user_pos = false) /\
  (forall user_pos int_pos, interferes acos user_pos user_pos int_pos = false) /\
  (forall sat_pos slot, self_interference acos sat_pos sat_pos slot = false) /\
  (forall sat_pos user_pos slot,
     self_interference acos sat_pos user_pos slot =
     self_interference acos sat_pos user_pos (filter (fun q => q <> sat_pos) slot)).
Proof.
  intros Hnan.
  assert (forall V B, calc_angle acos V V B = S754_nan) as Hl
    by (intros; by apply calc_angle_degenerate).
  assert (forall V B, calc_angle acos V B V = S754_nan) as Hr
    by (intros; by rewrite calc_angle_comm).
  split; [by split|]. 
  split; [intros; unfold elevation_fails; by rewrite Hl|].
  split; [intros; unfold elevation_fails; by rewrite Hr|].
  split; [intros; unfold interferes; by rewrite Hl|].
  split; [intros; unfold interferes; by rewrite Hr|].
  split.
  - intros sat_pos slot. unfold self_interference.
    induction slot as [|q slot IH]; [done|]. simpl. by rewrite Hl, IH.
  - intros sat_pos user_pos slot. unfold self_interference.
    induction slot as [|q slot IH]; [done|]. rewrite filter_cons.
    destruct (decide (q <> sat_pos)) as [Hq|Hq]; simpl; [by rewrite IH|].
    apply dec_stable in Hq as ->. by rewrite Hr, IH.
Qed.

Lemma zero_length_ray_passes_every_test_witness :
  acos_ref S754_nan = S754_nan /\
  calc_angle acos_ref (point 0 0 2) (point 0 0 2) (point 0 0 1) = S754_nan /\
  elevation_fails acos_ref ORIGIN (point 0 0 2) = false.
Proof.
  split; [reflexivity|].
  destruct (zero_length_ray_passes_every_test acos_ref eq_refl) as (Hnan & Horigin & _).
  split; [apply Hnan | apply Horigin].
Defined.

(** ** [split] *)

Lemma find_shift c rest sep start :
  find (String c rest) sep (S start) = S <$> find rest sep start.
Proof. reflexivity. Qed.

Lemma split_loop_acc fuel text sep start acc tokens :
  split_loop fuel text sep start (acc ++ tokens) =
  acc ++ split_loop fuel text sep start tokens.
Proof.
  revert start tokens. induction fuel as [|fuel IH]; intros start tokens; simpl; [done|].
  destruct (find text sep start) as [e|]; [|by rewrite app_assoc].
  by rewrite <- app_assoc, IH.
Qed.

Lemma split_loop_shift fuel c rest sep start tokens :
  split_loop fuel (String c rest) sep (S start) tokens =
  split_loop fuel rest sep start tokens.
Proof.
  revert start tokens. induction fuel as [|fuel IH]; intros start tokens; [done|].
  cbn [split_loop]. rewrite find_shift.
  destruct (find rest sep start) as [e|]; simpl; [|done].
  apply (IH (e + 1)%nat).
Qed.

Lemma split_nil sep : split EmptyString sep = [EmptyString].
Proof. reflexivity. Qed.

Lemma split_loop_step fuel text sep start tokens :
  split_loop (S fuel) text sep start tokens =
  match find text sep start with
  | Some end_ =>
      split_loop fuel text sep (end_ + 1) (tokens ++ [substr text start (end_ - start)])
  | None => tokens ++ [substr text start (String.length text - start)]
  end.
Proof. reflexivity. Qed.

Lemma split_cons c rest sep :
  split (String c rest) sep =
  if Ascii.eqb c sep then EmptyString :: split rest sep
  else match split rest sep with
       | token :: tokens => String c token :: tokens
       | [] => [String c EmptyString]
       end.
Proof.
  unfold split. change (String.length (String c rest)) with (S (String.length rest)).
  rewrite (split_loop_step (S (String.length rest)) (String c rest)).
  cbn [find]. destruct (Ascii.eqb c sep) eqn:Hc.
  - change (0 + 1)%nat with 1%nat. rewrite split_loop_shift.
    change ([] ++ [substr (String c rest) 0 (0 - 0)]) with ([EmptyString] ++ []).
    by rewrite split_loop_acc.
  - rewrite (split_loop_step (String.length rest) rest).
    destruct (find rest sep 0) as [e|] eqn:E; cbn [fmap option_fmap option_map].
    + replace (S e + 1)%nat with (S (e + 1)) by lia.
      rewrite split_loop_shift. rewrite !Nat.sub_0_r.
      apply find_bounds in E as Hb.
      rewrite (split_loop_acc _ rest sep (e + 1) [substr rest 0 e] []).
      rewrite (split_loop_acc _ rest sep (e + 1) [substr (String c rest) 0 (S e)] []).
      rewrite (split_loop_fuel rest sep (S (String.length rest)) (String.length rest))
        by lia.
      reflexivity.
    + by rewrite !Nat.sub_0_r.
Qed.

Lemma split_not_nil text sep : split text sep <> [].
Proof.
  destruct text as [|c rest]; [done|]. rewrite split_cons.
  destruct (Ascii.eqb c sep); [done|]. by destruct (split rest sep).
Qed.

Lemma join_cons sep token tokens :
  tokens <> [] -> join sep (token :: tokens) = token +:+ String sep (join sep tokens).
Proof. by destruct tokens. Qed.

Lemma join_split text sep : join sep (split text sep) = text.
Proof.
  induction text as [|c rest IH]; [done|]. rewrite split_cons.
  destruct (Ascii.eqb c sep) eqn:Hc.
  - apply Ascii.eqb_eq in Hc as ->.
    rewrite join_cons by apply split_not_nil. by rewrite IH.
  - pose proof (split_not_nil rest sep) as Hne.
    destruct (split rest sep) as [|token tokens]; [done|].
    destruct tokens as [|t tokens]; simpl in *; by rewrite <- IH.
Qed.

Lemma length_split text sep :
  length (split text sep) = S (occurrences sep text).
Proof.
  induction text as [|c rest IH]; [done|]. rewrite split_cons. simpl.
  destruct (Ascii.eqb c sep); simpl; [by rewrite IH|].
  pose proof (split_not_nil rest sep).
  by destruct (split rest sep).
Qed.

Lemma split_tokens_free text sep :
  Forall (fun token => find token sep 0 = None) (split text sep).
Proof.
  induction text as [|c rest IH]; [by repeat constructor|]. rewrite split_cons.
  destruct (Ascii.eqb c sep) eqn:Hc; [by constructor|].
  destruct (split rest sep) as [|token tokens].
  - repeat constructor. simpl. by rewrite Hc.
  - apply Forall_cons in IH as [Ht Hts]. constructor; [|done].
    simpl. by rewrite Hc, Ht.
Qed.

Lemma find_none_head c token sep :
  find (String c token) sep 0 = None ->
  Ascii.eqb c sep = false /\ find token sep 0 = None.
Proof.
  simpl. destruct (Ascii.eqb c sep); [done|].
  by destruct (find token sep 0).
Qed.

Lemma split_free token sep :
  find token sep 0 = None -> split token sep = [token].
Proof.
  induction token as [|c token IH]; [done|].
  intros [Hc Ht]%find_none_head. rewrite split_cons, Hc, (IH Ht). done.
Qed.

Lemma split_app_sep token rest sep :
  find token sep 0 = None ->
  split (token +:+ String sep rest) sep = token :: split rest sep.
Proof.
  induction token as [|c token IH].
  - intros _. change (EmptyString +:+ String sep rest) with (String sep rest).
    by rewrite split_cons, Ascii.eqb_refl.
  - intros [Hc Ht]%find_none_head.
    change (String c token +:+ String sep rest)
      with (String c (token +:+ String sep rest)).
    by rewrite split_cons, Hc, (IH Ht).
Qed.

Lemma split_join_tokens tokens sep :
  tokens <> [] ->
  Forall (fun token => find token sep 0 = None) tokens ->
  split (join sep tokens) sep = tokens.
Proof.
  induction tokens as [|token tokens IH]; [done|]. intros _ Hfree.
  apply Forall_cons in Hfree as [Ht Hts].
  destruct tokens as [|t tokens]; [by apply split_free|].
  rewrite join_cons by done. rewrite split_app_sep by done.
  by rewrite IH.
Qed.

(** X4.  [split] loses nothing: the tokens joined with the separator
    give the text back, and a list of tokens, not empty and none of them
    holding the separator, comes back from [split] after joining. *)
Theorem split_join_round_trip (sep : ascii) :
  (forall text, join sep (split text sep) = text) /\
  (forall tokens,
     tokens <> [] ->
     Forall (fun token => find token sep 0 = None) tokens ->
     split (join sep tokens) sep = tokens).
Proof.
  split; [intros; apply join_split | intros; by apply split_join_tokens].
Qed.

(** X5.  [split] returns one token more than the text has separators,
    so at least one, also for the empty text; no token holds the
    separator; a text without separator is its own single token. *)
Theorem split_counts_separators (text : string) (sep : ascii) :
  length (split text sep) = S (occurrences sep text) /\
  Forall (fun token => find token sep 0 = None) (split text sep) /\
  (find text sep 0 = None -> split text sep = [text]).
Proof.
  split; [apply length_split|]. split; [apply split_tokens_free | apply split_free].
Qed.

(** ** The loop of [solve] over the lines *)

Lemma parse_lines_skipped lines st :
  parse_lines (filter not_skipped lines) st = parse_lines lines st.
Proof.
  revert st. induction lines as [|line lines IH]; intros st; [done|].
  rewrite filter_cons. unfold not_skipped at 1.
  destruct (decide (is_skipped line = false)) as [Hs|Hs]; simpl.
  - rewrite Hs. destruct (decide _); [|done].
    destruct (parse_record _ st); simpl; [apply IH | done].
  - apply not_false_is_true in Hs. by rewrite Hs.
Qed.

(** X6.  Lines that are empty or start with [#] have no effect: two
    files with the same other lines, in the same order, give the same
    run. *)
Theorem skipped_lines_do_not_matter acos std_sort (content1 content2 filename : string) :
  filter not_skipped (getlines content1) = filter not_skipped (getlines content2) ->
  solve acos std_sort (fun _ => Some content1) filename =
  solve acos std_sort (fun _ => Some content2) filename.
Proof.
  intros H. unfold solve.
  by rewrite <- (parse_lines_skipped (getlines content1)), H, parse_lines_skipped.
Qed.

Lemma skipped_lines_do_not_matter_witness :
  filter not_skipped (getlines demo_file) = filter not_skipped (getlines plain_demo_file) /\
  solve acos_ref insertion_sort (fun _ => Some demo_file) "scenario.txt" =
  solve acos_ref insertion_sort (fun _ => Some plain_demo_file) "scenario.txt".
Proof.
  split; [vm_compute; reflexivity|].
  apply skipped_lines_do_not_matter. vm_compute. reflexivity.
Defined.

(** X7.  The parser stops at a line with the report [couldn't read
    line!] exactly when that line is not skipped and does not hold
    exactly four space characters, all lines before it having been read.
    Only the number of spaces is looked at: the parts may be empty. *)
Theorem unreadable_line_reported_iff lines st line :
  parse_lines lines st = Ok (Unreadable line) <->
  exists before after st',
    lines = before ++ line :: after /\
    parse_lines before st = Ok (Parsed st') /\
    is_skipped line = false /\ occurrences " " line <> 4%nat.
Proof.
  split.
  - revert st. induction lines as [|l lines IH]; intros st H; [done|].
    simpl in H. destruct (is_skipped l) eqn:Hs.
    + apply IH in H as (before & after & st' & -> & Hb & Hl & Hn).
      exists (l :: before), after, st'. simpl. by rewrite Hs.
    + destruct (decide (length (split l " ") = 5%nat)) as [Hlen|Hlen].
      * apply bind_Ok in H as (st1 & Hrec & H).
        apply IH in H as (before & after & st' & -> & Hb & Hl & Hn).
        exists (l :: before), after, st'. simpl.
        rewrite Hs, decide_True, Hrec by done. done.
      * injection H as <-. exists [], lines, st. repeat split; try done.
        rewrite length_split in Hlen. lia.
  - intros (before & after & st' & -> & Hb & Hs & Hn).
    apply (parse_lines_unreadable _ _ _ _ _ Hb). split; [done|].
    rewrite length_split. lia.
Qed.

Lemma parse_record_Ok parts st st' :
  length parts = 5%nat ->
  parse_record parts st = Ok st' ->
  exists role id_token pos,
    head parts = Some role /\ parts !! 1%nat = Some id_token /\
    line_position parts = Some pos /\
    is_role_key role = true /\
    scenario st' = scenario_push (scenario st) role pos.
Proof.
  intros Hlen H.
  destruct parts as [|role [|id_token [|x [|y [|z [|? ?]]]]]]; try done.
  unfold parse_record in H.
  rewrite !(at_index_nat _ 0), !(at_index_nat _ 1), !(at_index_nat _ 2),
    !(at_index_nat _ 3), !(at_index_nat _ 4) in H. cbn [lookup list_lookup mbind res_bind] in H.
  exists role, id_token. simpl.
  destruct (stof x) as [a|]; [|done]. destruct (stof y) as [b|]; [|done].
  destruct (stof z) as [c|]; [|done]. cbn [mbind res_bind] in H.
  exists (Vec3 a b c). do 3 (split; [done|]).
  destruct (is_role_key role); [|done]. split; [done|].
  destruct (String.eqb role SATS_KEY).
  - apply bind_Ok in H as ([entries lists] & _ & [= <-]). done.
  - by injection H as <-.
Qed.

Lemma is_role_key_cases role :
  is_role_key role = true <->
  role = USER_KEY \/ role = SATS_KEY \/ role = INTERFERER_KEY.
Proof.
  unfold is_role_key. rewrite !orb_true_iff, !String.eqb_eq. tauto.
Qed.

Lemma parse_lines_scenario lines st st' :
  parse_lines lines st = Ok (Parsed st') ->
  (forall key, scenario_at (scenario st') key =
               scenario_at (scenario st) key ++ positions_of key lines) /\
  (forall key, is_role_key key = false -> scenario st' !! key = scenario st !! key) /\
  (forall key, is_Some (scenario st !! key) -> is_Some (scenario st' !! key)).
Proof.
  revert st. induction lines as [|line lines IH]; intros st H.
  - injection H as <-. split; [intros; by rewrite app_nil_r | done].
  - simpl in H. cbn [positions_of]. destruct (is_skipped line); [by apply IH|].
    destruct (decide _) as [Hlen|]; [|done].
    apply bind_Ok in H as (st1 & Hrec & H).
    destruct (parse_record_Ok _ _ _ Hlen Hrec) as (role & tok & pos & Hh & _ & Hp & Hk & Hsc).
    destruct (IH _ H) as (IH1 & IH2 & IH3). rewrite Hh, Hp.
    split; [|split].
    + intros key. rewrite IH1, Hsc, scenario_at_push.
      destruct (String.eqb role key) eqn:E.
      * apply String.eqb_eq in E as ->. rewrite decide_True by done.
        by rewrite <- app_assoc.
      * rewrite decide_False; [done|]. intros ->. by rewrite String.eqb_refl in E.
    + intros key Hkey. rewrite IH2 by done. rewrite Hsc. unfold scenario_push.
      rewrite lookup_insert_ne; [done|]. intros ->. congruence.
    + intros key Hkey. apply IH3. rewrite Hsc. unfold scenario_push.
      destruct (decide (role = key)) as [->|Hne].
      * rewrite lookup_insert_eq. eauto.
      * by rewrite lookup_insert_ne.
Qed.

Lemma empty_scenario_lookup key :
  empty_scenario !! key = if is_role_key key then Some [] else None.
Proof.
  unfold empty_scenario, is_role_key.
  destruct (String.eqb key USER_KEY) eqn:E1.
  { apply String.eqb_eq in E1 as ->. by rewrite lookup_insert_eq. }
  apply String.eqb_neq in E1. rewrite lookup_insert_ne by done.
  destruct (String.eqb key SATS_KEY) eqn:E2.
  { apply String.eqb_eq in E2 as ->. by rewrite lookup_insert_eq. }
  apply String.eqb_neq in E2. rewrite lookup_insert_ne by done.
  destruct (String.eqb key INTERFERER_KEY) eqn:E3.
  { apply String.eqb_eq in E3 as ->. by rewrite lookup_insert_eq. }
  apply String.eqb_neq in E3. rewrite lookup_insert_ne by done. done.
Qed.

(** X8.  After a file has been read, the scenario map holds the three
    role keys and no other, and under each key the positions of the lines
    of that role in the order of the file, however the roles are mixed;
    the beam list, the beam lists of the heap and the counters have four,
    four and one entry per [sat] line. *)
Theorem scenario_holds_positions_by_role (lines : list string) (st : parsed) :
  parse_lines lines parse_start = Ok (Parsed st) ->
  (forall key, is_Some (scenario st !! key) <-> is_role_key key = true) /\
  (forall key, scenario_at (scenario st) key = positions_of key lines) /\
  length (sat_beam_list st) = (4 * length (positions_of SATS_KEY lines))%nat /\
  length (beam_lists (heap st)) = (4 * length (positions_of SATS_KEY lines))%nat /\
  length (beam_counts (heap st)) = length (positions_of SATS_KEY lines).
Proof.
  intros H. destruct (parse_lines_scenario _ _ _ H) as (H1 & H2 & H3).
  assert (forall key, scenario_at (scenario st) key = positions_of key lines) as Hpos.
  { intros key. rewrite H1. unfold scenario_at at 1. simpl.
    rewrite empty_scenario_lookup. by destruct (is_role_key key). }
  split; [|split; [done|]].
  - intros key. split.
    + intros Hsome. destruct (is_role_key key) eqn:E; [done|].
      rewrite (H2 key E) in Hsome. simpl in Hsome.
      rewrite empty_scenario_lookup, E in Hsome. by destruct Hsome.
    + intros Hkey. apply H3. simpl. rewrite empty_scenario_lookup, Hkey. eauto.
  - rewrite <- Hpos. apply parse_lines_parsed in H as [[Le Ll Lc _] Hs _ _ _].
    rewrite slot_index_eq in Le, Ll. rewrite Hs. lia.
Qed.

Lemma scenario_holds_positions_by_role_witness :
  parse_lines (getlines demo_file) parse_start = Ok (Parsed demo_state) /\
  scenario_at (scenario demo_state) USER_KEY
    = [point 0 0 1; Vec3 F32.zero F32.zero (S754_finite false 12582912 (-23))] /\
  length (sat_beam_list demo_state) = 8%nat.
Proof.
  split; [vm_compute; reflexivity|].
  destruct (scenario_holds_positions_by_role (getlines demo_file) demo_state
              ltac:(vm_compute; reflexivity)) as (_ & Hpos & Hlen & _).
  split; [rewrite Hpos; vm_compute; reflexivity | rewrite Hlen; vm_compute; reflexivity].
Defined.

Lemma is_skipped_join role rest :
  rest <> [] ->
  is_skipped (join " " (role :: rest)) = is_skipped (role +:+ " ").
Proof.
  intros Hne. rewrite join_cons by done. by destruct role.
Qed.

Lemma same_but_id_skipped line1 line2 :
  same_but_id line1 line2 -> is_skipped line1 = is_skipped line2.
Proof.
  intros (role & id1 & id2 & x & y & z & _ & H1 & H2).
  rewrite <- (join_split line1 " "), <- (join_split line2 " "), H1, H2.
  by rewrite !is_skipped_join.
Qed.

Lemma parse_record_same_but_id role id1 id2 x y z st :
  role <> SATS_KEY ->
  parse_record [role; id1; x; y; z] st = parse_record [role; id2; x; y; z] st.
Proof.
  intros Hrole. unfold parse_record.
  rewrite !(at_index_nat _ 0), !(at_index_nat _ 1), !(at_index_nat _ 2),
    !(at_index_nat _ 3), !(at_index_nat _ 4). cbn [lookup list_lookup mbind res_bind].
  apply String.eqb_neq in Hrole. by rewrite Hrole.
Qed.

Lemma parse_lines_same_but_id lines1 lines2 st :
  Forall2 (fun line1 line2 => line1 = line2 \/ same_but_id line1 line2) lines1 lines2 ->
  parse_lines lines1 st = parse_lines lines2 st.
Proof.
  intros H. revert st. induction H as [|l1 l2 lines1 lines2 Hl _ IH]; intros st; [done|].
  destruct Hl as [->|Hl].
  - simpl. destruct (is_skipped l2); [apply IH|].
    destruct (decide _); [|done]. destruct (parse_record _ st); simpl; [apply IH|done].
  - simpl. rewrite (same_but_id_skipped _ _ Hl).
    destruct Hl as (role & id1 & id2 & x & y & z & Hrole & H1 & H2).
    rewrite H1, H2. destruct (is_skipped l2); [apply IH|].
    rewrite !decide_True by done.
    rewrite (parse_record_same_but_id role id1 id2) by done.
    destruct (parse_record _ st); simpl; [apply IH|done].
Qed.

(** X9.  The id part of a [user] or [interferer] line is never read:
    two files whose lines differ only in the id parts of such lines give
    the same run.  Users are numbered by their order in the file. *)
Theorem ids_of_users_and_interferers_ignored acos std_sort
    (content1 content2 filename : string) :
  Forall2 (fun line1 line2 => line1 = line2 \/ same_but_id line1 line2)
          (getlines content1) (getlines content2) ->
  solve acos std_sort (fun _ => Some content1) filename =
  solve acos std_sort (fun _ => Some content2) filename.
Proof. intros H. unfold solve. by rewrite (parse_lines_same_but_id _ _ _ H). Qed.

Lemma ids_of_users_and_interferers_ignored_witness :
  Forall2 (fun line1 line2 => line1 = line2 \/ same_but_id line1 line2)
          (getlines demo_file) (getlines relabelled_demo_file) /\
  solve acos_ref insertion_sort (fun _ => Some demo_file) "scenario.txt" =
  solve acos_ref insertion_sort (fun _ => Some relabelled_demo_file) "scenario.txt".
Proof.
  assert (Forall2 (fun line1 line2 => line1 = line2 \/ same_but_id line1 line2)
                  (getlines demo_file) (getlines relabelled_demo_file)) as H.
  { change (getlines demo_file)
      with ["# two satellites above two users"; "user 1 0 0 1"; "sat 1 0 0 2";
            "user 2 0 0 1.5"; "interferer 1 5 0 1"; "sat 2 0 0 3"].
    change (getlines relabelled_demo_file)
      with ["# two satellites above two users"; "user 17 0 0 1"; "sat 1 0 0 2";
            "user x 0 0 1.5"; "interferer  5 0 1"; "sat 2 0 0 3"].
    repeat (constructor;
            [first [left; reflexivity
                   | right; eexists _, _, _, _, _, _;
                     split; [|split; vm_compute; reflexivity]; discriminate]|]).
    constructor. }
  split; [exact H|].
  exact (ids_of_users_and_interferers_ignored acos_ref insertion_sort
           demo_file relabelled_demo_file "scenario.txt" H).
Defined.

Lemma add_beam_entries_total colors id_token beam_i_ptr entries lists n :
  stoi id_token = Ok n -> INT_MIN < n ->
  exists r, add_beam_entries colors id_token beam_i_ptr entries lists = Ok r.
Proof.
  intros Hn Hmin.
  assert (n <= INT_MAX) as Hmax.
  { unfold stoi in Hn. destruct (take_sign _) as [neg s].
    destruct (take_digits _ _ _ _ _) as [[v k] r]. destruct k; [done|].
    destruct (decide _) as [Hr|]; [|done]. injection Hn as <-. lia. }
  revert entries lists. induction colors as [|c colors IH]; intros entries lists.
  - by eexists.
  - simpl. rewrite Hn. simpl. unfold int_result.
    rewrite decide_True by (unfold INT_MIN, INT_MAX in *; lia). simpl. apply IH.
Qed.

Lemma parse_record_accepts role id_token x y z st :
  (exists st', parse_record [role; id_token; x; y; z] st = Ok st') <->
  (exists a b c, stof x = Ok a /\ stof y = Ok b /\ stof z = Ok c) /\
  is_role_key role = true /\
  (role = SATS_KEY -> exists n, stoi id_token = Ok n /\ INT_MIN < n).
Proof.
  unfold parse_record.
  rewrite !(at_index_nat _ 0), !(at_index_nat _ 1), !(at_index_nat _ 2),
    !(at_index_nat _ 3), !(at_index_nat _ 4). cbn [lookup list_lookup mbind res_bind].
  destruct (stof x) as [a|fa]; cbn [mbind res_bind];
    [|split; [by intros [? ?] | by intros [(?&?&?&?&_) _]]].
  destruct (stof y) as [b|fb]; cbn [mbind res_bind];
    [|split; [by intros [? ?] | by intros [(?&?&?&_&?&_) _]]].
  destruct (stof z) as [c|fc]; cbn [mbind res_bind];
    [|split; [by intros [? ?] | by intros [(?&?&?&_&_&?) _]]].
  destruct (is_role_key role); [|split; [by intros [? ?] | by intros (_ & ? & _)]].
  destruct (String.eqb role SATS_KEY) eqn:Hsat.
  - apply String.eqb_eq in Hsat as ->. split.
    + intros [st' H]. apply bind_Ok in H as ([entries lists] & Hadd & _).
      split; [by exists a, b, c|]. split; [done|]. intros _.
      apply add_beam_entries_Ok in Hadd as (n & Hn & Hr & _); [|done].
      exists n. split; [done | lia].
    + intros (_ & _ & Hid). destruct (Hid eq_refl) as (n & Hn & Hmin).
      destruct (add_beam_entries_total COLOR_IDS id_token
                  (length (beam_counts (heap st))) (sat_beam_list st)
                  (beam_lists (heap st)) n Hn Hmin) as [[entries lists] ->].
      by eexists.
  - apply String.eqb_neq in Hsat. split.
    + intros _. split; [by exists a, b, c|]. split; [done|]. by intros ->.
    + intros _. by eexists.
Qed.

(** [stof] around [FLT_MIN]: a constant below it is out of range unless
    it is a subnormal number written exactly or rounds to [FLT_MIN] at
    24 bits. *)
Example stof_near_FLT_MIN :
  stof "0x1p-126" = Ok FLT_MIN /\
  stof "1.17549435e-38" = Ok FLT_MIN /\
  stof "0x1.ffffffp-127" = Ok FLT_MIN /\
  stof "0x1.fffffep-127" = Fault (Uncaught (out_of_range "stof")) /\
  stof "1.1754943e-38" = Fault (Uncaught (out_of_range "stof")) /\
  stof "1e-45" = Fault (Uncaught (out_of_range "stof")) /\
  stof "0x1p-149" = Ok (S754_finite false 1 (- 149)) /\
  stof "3.4028235e38" = Ok (S754_finite false 16777215 104) /\
  stof "3.4028236e38" = Fault (Uncaught (out_of_range "stof")).
Proof. repeat split; vm_compute; reflexivity. Qed.

(** X10.  The parser reads a file to its end exactly when every line is
    empty, a comment, or a well-formed record: five parts, coordinates
    that [stof] converts, a known role, and on a [sat] line an id that
    [stoi] converts to more than [INT_MIN].  Nothing else is checked: not
    the id of the other lines, not the numbering of the satellites. *)
Theorem file_accepted_iff (lines : list string) :
  (exists st, parse_lines lines parse_start = Ok (Parsed st)) <->
  Forall (fun line_buff => is_skipped line_buff = true \/ well_formed_record line_buff)
         lines.
Proof.
  generalize parse_start. induction lines as [|line lines IH]; intros st0.
  - split; [constructor | by eexists].
  - simpl. destruct (is_skipped line) eqn:Hs.
    + rewrite IH. split; [intros ?; constructor; [by left | done]|].
      intros H. by apply Forall_cons in H as [_ ?].
    + split.
      * intros [st H]. destruct (decide _) as [Hlen|]; [|done].
        apply bind_Ok in H as (st1 & Hrec & H).
        constructor; [|by apply (IH st1); eexists].
        right. unfold well_formed_record.
        destruct (split line " ") as [|role [|id [|x [|y [|z [|? ?]]]]]]; try done.
        exists role, id, x, y, z. split; [done|].
        apply (parse_record_accepts role id x y z st0). by eexists.
      * intros H. apply Forall_cons in H as [[?|Hwf] Hrest]; [congruence|].
        destruct Hwf as (role & id & x & y & z & Hsplit & Hwf).
        rewrite Hsplit. rewrite decide_True by done.
        apply (parse_record_accepts role id x y z st0) in Hwf as [st1 ->]. simpl.
        by apply IH.
Qed.

(** ** The visibility lists *)

Lemma stride_lookup_eq (skip : nat) (l : list SatBeamEntry) (k : nat) :
  stride skip l !! k = l !! (4 * k + skip)%nat.
Proof.
  revert skip k. induction l as [|x l IH]; intros skip k; [by destruct skip|].
  destruct skip as [|skip]; cbn [stride].
  - destruct k as [|k]; [done|].
    change (Z.to_nat COLORS_PER_SATELLITE - 1)%nat with 3%nat.
    replace (4 * S k + 0)%nat with (S (4 * k + 3)) by lia.
    rewrite !lookup_cons. apply (IH 3%nat k).
  - replace (4 * k + S skip)%nat with (S (4 * k + skip)) by lia.
    rewrite lookup_cons. apply (IH skip k).
Qed.

Lemma visible_loop_sublist acos scenario user_i heads acc vis :
  visible_loop acos scenario user_i heads acc = Ok vis ->
  exists picked, vis = acc ++ picked /\ sublist picked (sat_id <$> heads).
Proof.
  revert acc. induction heads as [|e heads IH]; intros acc H.
  - injection H as <-. exists []. by rewrite app_nil_r.
  - cbn [visible_loop] in H.
    apply bind_Ok in H as (sat_pos & _ & H). apply bind_Ok in H as (user_pos & _ & H).
    destruct (float_to_bool _);
      [|destruct (interferer_violation _ _ _ _)].
    + apply IH in H as (picked & -> & Hs). exists picked. split; [done|].
      by apply sublist_cons.
    + apply IH in H as (picked & -> & Hs). exists picked. split; [done|].
      by apply sublist_cons.
    + apply IH in H as (picked & -> & Hs). exists (sat_id e :: picked).
      split; [by rewrite <- app_assoc|]. by apply sublist_skip.
Qed.

Lemma numbered_heads lines st :
  parse_lines lines parse_start = Ok (Parsed st) ->
  sats_numbered_in_order lines ->
  sat_id <$> stride 0 (sat_beam_list st) =
  seqZ 0 (Z.of_nat (length (scenario_at (scenario st) SATS_KEY))).
Proof.
  intros Hparse Hnum.
  pose proof (parse_lines_parsed _ _ Hparse) as [[Le _ _ _] Hs _ _ _].
  rewrite slot_index_eq in Le.
  apply list_eq. intros k. rewrite list_lookup_fmap, stride_lookup_eq.
  destruct (decide (k < length (scenario_at (scenario st) SATS_KEY))%nat) as [Hk|Hk].
  - rewrite lookup_seqZ_lt by lia.
    destruct (lookup_lt_is_Some_2 (sat_beam_list st) (4 * k + 0)) as [e He]; [lia|].
    rewrite He. simpl. f_equal.
    rewrite <- slot_index_eq in He.
    rewrite (numbered_ids lines st Hparse Hnum k 0%nat e ltac:(lia) He). lia.
  - rewrite lookup_seqZ_ge by lia. rewrite lookup_ge_None_2; [done|]. lia.
Qed.

Lemma sublist_sorted (l1 l2 : list Z) :
  sublist l1 l2 -> StronglySorted Z.lt l2 -> StronglySorted Z.lt l1.
Proof.
  intros Hsub Hs. revert l1 Hsub. induction Hs as [|x l2 Hs IH Hx]; intros l1 Hsub.
  - apply sublist_nil_r in Hsub as ->. constructor.
  - apply sublist_cons_r in Hsub as [Hsub|(l1' & -> & Hsub)]; [by apply IH|].
    constructor; [by apply IH|].
    apply Forall_forall. intros y Hy. rewrite Forall_forall in Hx. apply Hx.
    by eapply elem_of_sublist.
Qed.

Lemma generate_user_ids acos scenario entries vis :
  generate_user_vis_list acos scenario entries = Ok vis ->
  user_id <$> vis = seqZ 0 (Z.of_nat (length (scenario_at scenario USER_KEY))).
Proof.
  intros Hgen. unfold generate_user_vis_list in Hgen.
  apply (user_loop_Ok acos scenario entries _ 0) in Hgen as (rows & -> & Hlen & Hrows).
  simpl. apply list_eq. intros j. rewrite list_lookup_fmap.
  destruct (rows !! j) as [entry|] eqn:E; simpl.
  - destruct (Hrows j entry E) as [Hid _]. simpl in Hid.
    apply lookup_lt_Some in E. rewrite lookup_seqZ_lt by lia. f_equal. lia.
  - apply lookup_ge_None in E. rewrite lookup_seqZ_ge; [done | lia].
Qed.

(** X11.  The visibility list has the users in the order of the file,
    numbered from 0, and every user's visible satellites in the order of
    the [sat] lines, each line at most once; for a file whose satellites
    are numbered in order the ids of a list are strictly increasing. *)
Theorem visible_sats_in_file_order acos (lines : list string) (st : parsed)
    (vis : list UserVisibilityEntry) :
  parse_lines lines parse_start = Ok (Parsed st) ->
  generate_user_vis_list acos (scenario st) (sat_beam_list st) = Ok vis ->
  user_id <$> vis = seqZ 0 (Z.of_nat (length (scenario_at (scenario st) USER_KEY))) /\
  forall entry, entry ∈ vis ->
    sublist (visible_sats entry) (sat_id <$> stride 0 (sat_beam_list st)) /\
    (sats_numbered_in_order lines -> StronglySorted Z.lt (visible_sats entry)).
Proof.
  intros Hparse Hgen. pose proof Hgen as Hgen0.
  unfold generate_user_vis_list in Hgen.
  apply (user_loop_Ok acos (scenario st) (sat_beam_list st) _ 0) in Hgen
    as (rows & -> & Hlen & Hrows). simpl.
  split.
  - by apply generate_user_ids in Hgen0.
  - intros entry [j Hj]%list_elem_of_lookup.
    destruct (Hrows j entry Hj) as [_ Hloop].
    apply visible_loop_sublist in Hloop as (picked & Hp & Hsub). simpl in Hp.
    rewrite Hp. split; [done|]. intros Hnum.
    apply (sublist_sorted _ _ Hsub). rewrite (numbered_heads lines st Hparse Hnum).
    apply seqZ_sorted.
Qed.

Lemma visible_sats_in_file_order_witness :
  parse_lines (getlines demo_file) parse_start = Ok (Parsed demo_state) /\
  generate_user_vis_list acos_ref (scenario demo_state) (sat_beam_list demo_state)
    = Ok [ {| user_id := 0; visible_sats := [0; 1] |};
           {| user_id := 1; visible_sats := [0; 1] |} ] /\
  StronglySorted Z.lt [0; 1].
Proof.
  split; [vm_compute; reflexivity|]. split; [vm_compute; reflexivity|].
  destruct (visible_sats_in_file_order acos_ref (getlines demo_file) demo_state
              [ {| user_id := 0; visible_sats := [0; 1] |};
                {| user_id := 1; visible_sats := [0; 1] |} ]
              ltac:(vm_compute; reflexivity) ltac:(vm_compute; reflexivity))
    as [_ Hentries].
  destruct (Hentries {| user_id := 0; visible_sats := [0; 1] |}
              ltac:(apply elem_of_cons; by left)) as [_ Hsorted].
  exact (Hsorted demo_numbered).
Defined.

Lemma scenario_at_push_other scenario key key' pos :
  key <> key' ->
  scenario_at (scenario_push scenario key pos) key' = scenario_at scenario key'.
Proof. intros H. rewrite scenario_at_push. by rewrite decide_False. Qed.

Lemma interferer_violation_more acos user_pos sat_pos interferers int_pos :
  interferer_violation acos user_pos sat_pos (interferers ++ [int_pos]) =
  interferer_violation acos user_pos sat_pos interferers
  || interferes acos user_pos sat_pos int_pos.
Proof.
  unfold interferer_violation, interferes. rewrite existsb_app. simpl.
  by rewrite orb_false_r.
Qed.

Lemma visible_loop_more_interferers acos scenario int_pos user_i heads acc acc' vis :
  sublist acc' acc ->
  visible_loop acos scenario user_i heads acc = Ok vis ->
  exists vis',
    visible_loop acos (scenario_push scenario INTERFERER_KEY int_pos) user_i heads acc'
      = Ok vis' /\
    sublist vis' vis.
Proof.
  revert acc acc'. induction heads as [|e heads IH]; intros acc acc' Hsub H.
  - injection H as <-. exists acc'. split; [reflexivity | exact Hsub].
  - cbn [visible_loop] in *.
    rewrite !(scenario_at_push_other _ _ SATS_KEY) by discriminate.
    rewrite !(scenario_at_push_other _ _ USER_KEY) by discriminate.
    rewrite scenario_at_push, decide_True by done.
    apply bind_Ok in H as (sat_pos & -> & H). apply bind_Ok in H as (user_pos & -> & H).
    cbn [mbind res_bind].
    destruct (float_to_bool _); [by eapply IH|].
    rewrite interferer_violation_more.
    destruct (interferer_violation acos user_pos sat_pos _); simpl; [by eapply IH|].
    destruct (interferes acos user_pos sat_pos int_pos).
    + eapply IH; [|exact H]. by apply sublist_inserts_r.
    + eapply IH; [|exact H]. by apply sublist_app.
Qed.

Lemma user_loop_more_interferers acos scenario int_pos entries todo user_i acc acc' vis :
  Forall2 (fun e' e => user_id e' = user_id e /\
                       sublist (visible_sats e') (visible_sats e)) acc' acc ->
  user_loop acos scenario entries todo user_i acc = Ok vis ->
  exists vis',
    user_loop acos (scenario_push scenario INTERFERER_KEY int_pos) entries todo user_i acc'
      = Ok vis' /\
    Forall2 (fun e' e => user_id e' = user_id e /\
                         sublist (visible_sats e') (visible_sats e)) vis' vis.
Proof.
  revert user_i acc acc'. induction todo as [|todo IH]; intros user_i acc acc' Hacc H.
  - injection H as <-. exists acc'. split; [reflexivity | exact Hacc].
  - cbn [user_loop] in *. apply bind_Ok in H as (visible & Hv & H).
    destruct (visible_loop_more_interferers acos scenario int_pos user_i _ [] [] visible
                ltac:(done) Hv) as (visible' & -> & Hsub).
    cbn [mbind res_bind]. eapply IH; [|exact H].
    apply Forall2_app; [done|]. by repeat constructor.
Qed.

(** X12.  One more interferer takes satellites away from the visibility
    lists and adds none: with the interferer the list is built as well,
    for the same users, and every user's visible satellites are a
    sublist of those without it. *)
Theorem more_interferers_fewer_visible acos (scenario : scenario_t)
    (sat_beam_list : list SatBeamEntry) (int_pos : vector_3d_t)
    (vis : list UserVisibilityEntry) :
  generate_user_vis_list acos scenario sat_beam_list = Ok vis ->
  exists vis',
    generate_user_vis_list acos (scenario_push scenario INTERFERER_KEY int_pos)
      sat_beam_list = Ok vis' /\
    Forall2 (fun e' e => user_id e' = user_id e /\
                         sublist (visible_sats e') (visible_sats e)) vis' vis.
Proof.
  intros H. unfold generate_user_vis_list in *.
  rewrite (scenario_at_push_other _ _ USER_KEY) by discriminate.
  by eapply user_loop_more_interferers.
Qed.

Lemma more_interferers_fewer_visible_witness :
  generate_user_vis_list acos_ref (scenario demo_state) (sat_beam_list demo_state)
    = Ok [ {| user_id := 0; visible_sats := [0; 1] |};
           {| user_id := 1; visible_sats := [0; 1] |} ] /\
  exists vis',
    generate_user_vis_list acos_ref
      (scenario_push (scenario demo_state) INTERFERER_KEY (point 0 0 4))
      (sat_beam_list demo_state) = Ok vis' /\
    Forall2 (fun e' e => user_id e' = user_id e /\
                         sublist (visible_sats e') (visible_sats e))
            vis' [ {| user_id := 0; visible_sats := [0; 1] |};
                   {| user_id := 1; visible_sats := [0; 1] |} ].
Proof.
  split; [vm_compute; reflexivity|].
  apply (more_interferers_fewer_visible acos_ref (scenario demo_state)
           (sat_beam_list demo_state) (point 0 0 4)).
  vm_compute. reflexivity.
Defined.

(** ** The lines of a run *)

Lemma beam_lines_BeamLine (evs : list AssignmentEvent) :
  beam_lines (BeamLine <$> evs) = evs.
Proof.
  induction evs as [|e evs IH]; [done|].
  unfold beam_lines in *. rewrite fmap_cons. cbn [omap list_omap]. by rewrite IH.
Qed.

Lemma sat_loop_served acos scenario entries h user_i visible h' printed :
  sat_loop acos scenario entries h user_i visible = Ok (h', printed) ->
  (h' = h /\ printed = []) \/
  exists ev, printed = [ev] /\ committed acos scenario entries user_i h h' ev /\
             ev_user ev = user_i + 1 /\ ev_sat ev - 1 ∈ visible.
Proof.
  induction visible as [|sat_i visible IH]; intros H.
  - injection H as <- <-. by left.
  - assert (forall r, r = Ok (h', printed) ->
              sat_loop acos scenario entries h user_i visible = r ->
              (h' = h /\ printed = []) \/
              exists ev, printed = [ev] /\ committed acos scenario entries user_i h h' ev /\
                         ev_user ev = user_i + 1 /\ ev_sat ev - 1 ∈ sat_i :: visible) as IH'.
    { intros r -> Hr. destruct (IH Hr) as [?|(ev & ? & ? & ? & ?)]; [by left|].
      right. exists ev. repeat split; try done. by right. }
    pose proof (sat_loop_Ok _ _ _ _ _ _ _ _ H) as Hco.
    rewrite sat_loop_cons in H. apply bind_Ok in H as (e0 & He0 & H).
    apply bind_Ok in H as (count0 & Hcount0 & H).
    destruct (decide (count0 >= BEAMS_PER_SATELLITE)); [by eapply IH'|].
    apply bind_Ok in H as (sat_pos & Hsat & H).
    apply bind_Ok in H as (user_pos & Huser & H).
    apply bind_Ok in H as ([[h1 ev]|] & Hcol & H); [|by eapply IH'].
    injection H as <- <-. right. exists ev.
    destruct Hco as [[_ ?]|(ev' & [= <-] & Hco)]; [done|].
    split; [done|]. split; [done|].
    apply (color_loop_Some _ _ _ _ _ _ _ _ _ 0%nat) in Hcol
      as (c & e & slot & count & Hc & He & Hid & Hslot & Hfree & Hcount & -> & ->).
    simpl. split; [done|]. rewrite Hid. replace (sat_i + 1 - 1) with sat_i by lia.
    by left.
Qed.

Lemma engine_events_users acos scenario entries user_vis_list h :
  sublist (ev_user <$> events (assign_beams_and_print acos scenario user_vis_list entries h))
          ((fun entry => user_id entry + 1) <$> user_vis_list) /\
  Forall (fun ev => exists entry,
            entry ∈ user_vis_list /\ ev_user ev = user_id entry + 1 /\
            ev_sat ev - 1 ∈ visible_sats entry)
         (events (assign_beams_and_print acos scenario user_vis_list entries h)).
Proof.
  revert h. induction user_vis_list as [|entry rest IH]; intros h; simpl.
  - split; constructor.
  - destruct (sat_loop _ _ _ _ _ _) as [[h' first]|f] eqn:Hloop; simpl.
    + destruct (IH h') as [IH1 IH2].
      assert (Forall (fun ev => exists entry0, entry0 ∈ entry :: rest /\
                 ev_user ev = user_id entry0 + 1 /\ ev_sat ev - 1 ∈ visible_sats entry0)
                (events (assign_beams_and_print acos scenario rest entries h'))) as IH2'.
      { eapply Forall_impl; [exact IH2|]. intros ev (entry0 & ? & ? & ?).
        exists entry0. split; [by right | done]. }
      apply sat_loop_served in Hloop as [[-> ->]|(ev & -> & _ & Hu & Hs)]; simpl.
      * split; [by apply sublist_cons | done].
      * split; [rewrite Hu; by apply sublist_skip|].
        constructor; [|done]. exists entry. split; [by left | done].
    + split; [apply sublist_nil_l | constructor].
Qed.

Lemma solve_beam_lines acos std_sort fs filename :
  beam_lines (stdout (solve acos std_sort fs filename)) = [] \/
  exists content st vis,
    fs filename = Some content /\
    parse_lines (getlines content) parse_start = Ok (Parsed st) /\
    generate_user_vis_list acos (scenario st) (sat_beam_list st) = Ok vis /\
    beam_lines (stdout (solve acos std_sort fs filename)) =
    events (assign_beams_and_print acos (scenario st)
              (std_sort sortUsersByPotentialCoverage vis) (sat_beam_list st) (heap st)).
Proof.
  unfold solve. destruct (fs filename) as [content|] eqn:Hfs; [|by left].
  destruct (parse_lines _ _) as [[st|line]|f] eqn:Hparse; [|by left..].
  destruct (generate_user_vis_list _ _ _) as [vis|f] eqn:Hgen; [|by left].
  right. exists content, st, vis. cbn [stdout]. by rewrite beam_lines_BeamLine.
Qed.

(** X13.  No user is given two beams: the user numbers of the
    assignment lines of a run are pairwise different, each is the number
    of a [user] line, and there are at most as many lines as users. *)
Theorem each_user_served_at_most_once acos std_sort
    (fs : string -> option string) (filename : string) :
  sort_contract std_sort ->
  NoDup (ev_user <$> beam_lines (stdout (solve acos std_sort fs filename))) /\
  forall content st,
    fs filename = Some content ->
    parse_lines (getlines content) parse_start = Ok (Parsed st) ->
    (length (beam_lines (stdout (solve acos std_sort fs filename)))
       <= length (scenario_at (scenario st) USER_KEY))%nat /\
    forall e, e ∈ beam_lines (stdout (solve acos std_sort fs filename)) ->
      1 <= ev_user e <= Z.of_nat (length (scenario_at (scenario st) USER_KEY)).
Proof.
  intros Hsort.
  destruct (solve_beam_lines acos std_sort fs filename)
    as [->|(content & st & vis & Hfs & Hparse & Hgen & ->)].
  { split; [constructor|]. intros content st _ _. split; [simpl; lia|].
    intros e He. by apply not_elem_of_nil in He. }
  destruct (Hsort vis) as [Hperm _].
  pose proof (generate_user_ids _ _ _ _ Hgen) as Hids.
  destruct (engine_events_users acos (scenario st)
              (sat_beam_list st) (std_sort sortUsersByPotentialCoverage vis) (heap st))
    as [Hsub _].
  assert ((fun entry => user_id entry + 1) <$> std_sort sortUsersByPotentialCoverage vis
          ≡ₚ Z.succ <$> seqZ 0 (Z.of_nat (length (scenario_at (scenario st) USER_KEY))))
    as Hp.
  { rewrite <- Hids, <- list_fmap_compose. by rewrite Hperm. }
  split.
  - eapply sublist_NoDup; [|exact Hsub]. rewrite Hp.
    apply NoDup_fmap_2; [intros x y ?; lia | apply NoDup_seqZ].
  - intros content' st' Hfs' Hparse'. rewrite Hfs' in Hfs. injection Hfs as <-.
    rewrite Hparse' in Hparse. injection Hparse as <-. split.
    + apply sublist_length in Hsub. rewrite !length_fmap in Hsub.
      rewrite (Permutation_length Hperm) in Hsub.
      rewrite <- (length_fmap user_id vis), Hids, length_seqZ in Hsub. lia.
    + intros e He. apply (list_elem_of_fmap_2 ev_user) in He.
      eapply elem_of_sublist in He; [|exact Hsub]. rewrite Hp in He.
      apply list_elem_of_fmap in He as (u & -> & Hu). apply elem_of_seqZ in Hu. lia.
Qed.

Lemma each_user_served_at_most_once_witness :
  sort_contract insertion_sort /\
  NoDup (ev_user <$>
           beam_lines (stdout (solve acos_ref insertion_sort
                                 (fun _ => Some demo_file) "scenario.txt"))).
Proof.
  split; [exact insertion_sort_contract|].
  apply (each_user_served_at_most_once acos_ref insertion_sort
           (fun _ => Some demo_file) "scenario.txt" insertion_sort_contract).
Defined.

Lemma committed_color acos scenario entries n user_i h h' ev :
  layout entries h n ->
  committed acos scenario entries user_i h h' ev ->
  ev_color ev ∈ COLOR_IDS.
Proof.
  intros [_ _ _ Lentry] Hco.
  destruct Hco as [sat_i c first e slot count0 count sat_pos user_pos
                     Hc Hfirst _ _ He _ _ _ _ _ _].
  apply at_index_Ok in Hfirst as [H0 _]. apply at_index_Ok in He as [_ He].
  unfold COLORS_PER_SATELLITE in *.
  replace (Z.to_nat (sat_i * 4 + Z.of_nat c)) with (slot_index (Z.to_nat sat_i) c) in He
    by (rewrite slot_index_eq; lia).
  destruct (Lentry _ _ _ Hc He) as (_ & _ & Hcol). simpl.
  by eapply list_elem_of_lookup_2.
Qed.

Lemma engine_events_wellformed acos lines st user_vis_list :
  parse_lines lines parse_start = Ok (Parsed st) ->
  Forall (fun ev => ev_color ev ∈ COLOR_IDS /\ 1 <= ev_beam ev <= BEAMS_PER_SATELLITE)
         (events (assign_beams_and_print acos (scenario st) user_vis_list
                    (sat_beam_list st) (heap st))).
Proof.
  intros Hparse.
  destruct (engine_inv_start acos lines st Hparse) as [Hn Hinv]. rewrite <- Hn in Hinv.
  set (n := length (scenario_at (scenario st) SATS_KEY)) in *.
  pose proof (assign_beams_and_print_ind acos (scenario st) (sat_beam_list st)
    (fun h printed =>
       engine_inv acos (scenario_at (scenario st) SATS_KEY) (sat_beam_list st) n h printed /\
       Forall (fun ev => ev_color ev ∈ COLOR_IDS /\ 1 <= ev_beam ev <= BEAMS_PER_SATELLITE)
              printed)) as Hind.
  apply (Hind) with (user_vis_list := user_vis_list) (h := heap st) (printed := []).
  - intros user_i h printed h' ev [Hi Hall] Hco. split; [by eapply engine_inv_commit|].
    apply Forall_app. split; [done|]. constructor; [|done].
    split; [by eapply committed_color, Hco; apply Hi|].
    destruct (committed_layout _ _ _ _ _ _ _ _ (ei_layout _ _ _ _ _ _ Hi) Hco)
      as (k & c & slot & count & sat_pos & user_pos & col & Hk & Hc & _ & _ & Hcount & Hlt
          & _ & _ & ->). simpl.
    destruct (ei_count _ _ _ _ _ _ Hi k Hk) as [_ Hrange].
    unfold counter in Hrange. rewrite Hcount in Hrange. simpl in Hrange. lia.
  - split; [done | constructor].
Qed.

(** X14.  Every assignment line of a run names a user of the file and a
    satellite that passed both visibility tests for that user, one of the
    four colours, and a beam number from 1 to 32. *)
Theorem assigned_beams_are_admissible acos std_sort
    (fs : string -> option string) (filename : string) (e : AssignmentEvent) :
  sort_contract std_sort ->
  e ∈ beam_lines (stdout (solve acos std_sort fs filename)) ->
  exists content st user_pos,
    fs filename = Some content /\
    parse_lines (getlines content) parse_start = Ok (Parsed st) /\
    1 <= ev_user e /\
    scenario_at (scenario st) USER_KEY !! Z.to_nat (ev_user e - 1) = Some user_pos /\
    passes_tests acos (scenario st) user_pos (ev_sat e - 1) /\
    ev_color e ∈ COLOR_IDS /\
    1 <= ev_beam e <= BEAMS_PER_SATELLITE.
Proof.
  intros Hsort He.
  destruct (solve_beam_lines acos std_sort fs filename)
    as [Hnil|(content & st & vis & Hfs & Hparse & Hgen & Heq)].
  { rewrite Hnil in He. by apply not_elem_of_nil in He. }
  rewrite Heq in He. destruct (Hsort vis) as [Hperm _].
  destruct (engine_events_users acos (scenario st) (sat_beam_list st)
              (std_sort sortUsersByPotentialCoverage vis) (heap st)) as [_ Hall].
  rewrite Forall_forall in Hall.
  destruct (Hall e He) as (entry & Hentry & Hu & Hs).
  rewrite Hperm in Hentry. apply list_elem_of_lookup in Hentry as [u Hentry].
  destruct (visibility_of_entries acos (scenario st) (sat_beam_list st))
    as (_ & Hchar & _ & _).
  destruct (Hchar vis Hgen) as [_ Hrows].
  destruct (Hrows u entry Hentry) as (Hid & user_pos & Hpos & Hmem).
  pose proof (engine_events_wellformed acos _ st
                (std_sort sortUsersByPotentialCoverage vis) Hparse) as Hwf.
  rewrite Forall_forall in Hwf. destruct (Hwf e He) as [Hcol Hbeam].
  exists content, st, user_pos. split; [done|]. split; [done|].
  split; [lia|]. split.
  { rewrite Hu, Hid. by replace (Z.to_nat (Z.of_nat u + 1 - 1)) with u by lia. }
  split; [by apply Hmem in Hs as [_ ?] | done].
Qed.

Lemma assigned_beams_are_admissible_witness :
  sort_contract insertion_sort /\
  {| ev_sat := 1; ev_beam := 2; ev_user := 2; ev_color := "B" |}
    ∈ beam_lines (stdout (solve acos_ref insertion_sort
                            (fun _ => Some demo_file) "scenario.txt")) /\
  exists content st user_pos,
    content = demo_file /\
    parse_lines (getlines content) parse_start = Ok (Parsed st) /\
    scenario_at (scenario st) USER_KEY !! 1%nat = Some user_pos /\
    passes_tests acos_ref (scenario st) user_pos 0.
Proof.
  split; [exact insertion_sort_contract|].
  assert ({| ev_sat := 1; ev_beam := 2; ev_user := 2; ev_color := "B" |}
            ∈ beam_lines (stdout (solve acos_ref insertion_sort
                                    (fun _ => Some demo_file) "scenario.txt"))) as Hin.
  { rewrite demo_run. apply elem_of_cons. right. apply elem_of_cons. by left. }
  split; [exact Hin|].
  destruct (assigned_beams_are_admissible acos_ref insertion_sort
              (fun _ => Some demo_file) "scenario.txt" _ insertion_sort_contract Hin)
    as (content & st & user_pos & Hfs & Hparse & _ & Hpos & Hpass & _).
  exists content, st, user_pos. injection Hfs as <-. done.
Defined.

(** X15.  No satellite is named by more than 32 assignment lines of a
    run, for every file, every sort and every arc cosine. *)
Theorem satellite_lines_bounded acos std_sort
    (fs : string -> option string) (filename : string) (sat : Z) :
  (length (filter (fun e => ev_sat e = sat)
                  (beam_lines (stdout (solve acos std_sort fs filename)))) <= 32)%nat.
Proof.
  destruct (solve_beam_lines acos std_sort fs filename)
    as [->|(content & st & vis & Hfs & Hparse & Hgen & ->)]; [simpl; lia|].
  pose proof (engine_inv_run acos _ st (std_sort sortUsersByPotentialCoverage vis) Hparse)
    as Hinv.
  set (r := assign_beams_and_print _ _ _ _ _) in *.
  destruct (decide (1 <= sat)) as [Hsat|Hsat].
  - pose proof (ei_printed _ _ _ _ _ _ Hinv (Z.to_nat (sat - 1))) as Hp.
    replace (Z.of_nat (Z.to_nat (sat - 1)) + 1) with sat in Hp by lia.
    unfold counts_for in Hp. apply (f_equal length) in Hp.
    rewrite length_fmap, length_seqZ in Hp. rewrite Hp.
    destruct (decide (Z.to_nat (sat - 1) < length (scenario_at (scenario st) SATS_KEY))%nat)
      as [Hk|Hk].
    + destruct (ei_count _ _ _ _ _ _ Hinv _ Hk) as [_ Hrange].
      unfold BEAMS_PER_SATELLITE in Hrange. lia.
    + unfold counter. rewrite lookup_ge_None_2; [simpl; lia|].
      rewrite (layout_counts _ _ _ (ei_layout _ _ _ _ _ _ Hinv)). lia.
  - rewrite (elem_of_nil_inv (filter (fun e => ev_sat e = sat) (events r)));
      [simpl; lia|].
    intros e [Heq He]%list_elem_of_filter.
    pose proof (ei_sat_ids _ _ _ _ _ _ Hinv e He). lia.
Qed.

Lemma assign_app acos scenario entries l1 l2 h :
  assign_beams_and_print acos scenario (l1 ++ l2) entries h =
  then_engine (assign_beams_and_print acos scenario l1 entries h)
              (assign_beams_and_print acos scenario l2 entries).
Proof.
  revert h. induction l1 as [|entry l1 IH]; intros h.
  - unfold then_engine. simpl. by destruct (assign_beams_and_print _ _ _ _ _).
  - simpl. destruct (sat_loop _ _ _ _ _ _) as [[h' first]|f]; [|done].
    rewrite IH. unfold then_engine. simpl.
    destruct (stopped (assign_beams_and_print acos scenario l1 entries h')) eqn:E;
      simpl; [by rewrite E|].
    by rewrite app_assoc.
Qed.

(** X16.  The engine handles the users strictly one after the other: a
    run over two lists of users is the run over the first followed by the
    run over the second from the heap the first left; what is printed for
    the first users does not depend on the users after them; after a stop
    nothing more is printed. *)
Theorem engine_runs_users_in_sequence acos scenario entries
    (l1 l2 : list UserVisibilityEntry) (h : Heap) :
  assign_beams_and_print acos scenario (l1 ++ l2) entries h =
    then_engine (assign_beams_and_print acos scenario l1 entries h)
                (assign_beams_and_print acos scenario l2 entries) /\
  events (assign_beams_and_print acos scenario l1 entries h)
    `prefix_of` events (assign_beams_and_print acos scenario (l1 ++ l2) entries h) /\
  (stopped (assign_beams_and_print acos scenario l1 entries h) <> None ->
   assign_beams_and_print acos scenario (l1 ++ l2) entries h =
   assign_beams_and_print acos scenario l1 entries h).
Proof.
  rewrite assign_app. split; [done|]. unfold then_engine.
  destruct (stopped (assign_beams_and_print acos scenario l1 entries h)) eqn:E.
  - split; [done | done].
  - split; [by apply prefix_app_r | done].
Qed.

(** X17.  The engine only adds: after any run, from any heap, every
    beam list holds what it held before followed by what was added, no
    counter went down, and no beam list or counter was made or freed. *)
Theorem beams_are_only_added acos scenario entries
    (user_vis_list : list UserVisibilityEntry) (h : Heap) :
  let h' := final_heap (assign_beams_and_print acos scenario user_vis_list entries h) in
  length (beam_lists h') = length (beam_lists h) /\
  length (beam_counts h') = length (beam_counts h) /\
  (forall i slot, beam_lists h !! i = Some slot ->
     exists added, beam_lists h' !! i = Some (slot ++ added)) /\
  (forall k count, beam_counts h !! k = Some count ->
     exists count', beam_counts h' !! k = Some count' /\ count <= count').
Proof.
  pose proof (assign_beams_and_print_ind acos scenario entries
    (fun h' _ =>
       length (beam_lists h') = length (beam_lists h) /\
       length (beam_counts h') = length (beam_counts h) /\
       (forall i slot, beam_lists h !! i = Some slot ->
          exists added, beam_lists h' !! i = Some (slot ++ added)) /\
       (forall k count, beam_counts h !! k = Some count ->
          exists count', beam_counts h' !! k = Some count' /\ count <= count'))) as Hind.
  apply (Hind) with (user_vis_list := user_vis_list) (h := h) (printed := []).
  - clear. intros user_i h1 _ h2 ev (Hl & Hc & Hlists & Hcounts) Hco.
    destruct Hco as [sat_i c first e slot count0 count sat_pos user_pos
                       _ _ _ _ _ _ _ _ Hslot _ Hcount]. simpl.
    rewrite !length_insert. do 2 (split; [done|]). split.
    + intros i s Hi. destruct (Hlists i s Hi) as [added Ha].
      destruct (decide (i = beam_list e)) as [->|Hne].
      * rewrite Ha in Hslot. injection Hslot as <-.
        exists (added ++ [user_pos]). rewrite list_lookup_insert_eq; [by rewrite app_assoc|].
        by eapply lookup_lt_Some.
      * exists added. by rewrite list_lookup_insert_ne.
    + intros k n Hk. destruct (Hcounts k n Hk) as (n' & Hn' & Hle).
      destruct (decide (k = total_sat_beam_count e)) as [->|Hne].
      * rewrite Hn' in Hcount. injection Hcount as <-.
        exists (n' + 1). rewrite list_lookup_insert_eq; [split; [done | lia]|].
        by eapply lookup_lt_Some.
      * exists n'. by rewrite list_lookup_insert_ne.
  - do 2 (split; [done|]). split.
    + intros i slot Hi. exists []. by rewrite app_nil_r.
    + intros k count Hk. exists count. split; [done | lia].
Qed.

Lemma assign_nothing_visible acos scenario entries user_vis_list h :
  Forall (fun entry => visible_sats entry = []) user_vis_list ->
  assign_beams_and_print acos scenario user_vis_list entries h =
  {| final_heap := h; events := []; stopped := None |}.
Proof.
  induction 1 as [|entry rest Hentry _ IH]; [done|].
  simpl. rewrite Hentry. simpl. by rewrite IH.
Qed.

(** X18.  A file without [user] line or without [sat] line is read,
    nothing is printed and the run returns. *)
Theorem nothing_to_assign acos std_sort (fs : string -> option string)
    (filename content : string) (st : parsed) :
  sort_contract std_sort ->
  fs filename = Some content ->
  parse_lines (getlines content) parse_start = Ok (Parsed st) ->
  scenario_at (scenario st) USER_KEY = [] \/ scenario_at (scenario st) SATS_KEY = [] ->
  solve acos std_sort fs filename = {| stdout := []; ended := None |}.
Proof.
  intros Hsort Hfs Hparse Hempty. unfold solve. rewrite Hfs, Hparse.
  assert (exists vis,
            generate_user_vis_list acos (scenario st) (sat_beam_list st) = Ok vis /\
            Forall (fun entry => visible_sats entry = []) vis) as (vis & -> & Hvis).
  { destruct Hempty as [Hu|Hs].
    - exists []. unfold generate_user_vis_list. by rewrite Hu.
    - pose proof (parse_lines_parsed _ _ Hparse) as [[Le _ _ _] Hn _ _ _].
      rewrite <- Hn, Hs in Le. destruct (sat_beam_list st) as [|? ?]; [|done].
      destruct (user_loop_total acos (scenario st) []
                  (length (scenario_at (scenario st) USER_KEY)) 0 [] ltac:(lia))
        as [vis Hgen].
      { intros e He. by apply not_elem_of_nil in He. }
      exists vis. split; [done|].
      apply (user_loop_Ok acos (scenario st) [] _ 0) in Hgen as (rows & -> & _ & Hrows).
      apply Forall_lookup. intros j entry Hj. simpl in Hj.
      destruct (Hrows j entry Hj) as [_ Hloop]. simpl in Hloop. by injection Hloop. }
  cbn zeta. destruct (Hsort vis) as [Hperm _].
  rewrite assign_nothing_visible; [done|]. by rewrite Hperm.
Qed.

Lemma nothing_to_assign_witness :
  sort_contract insertion_sort /\
  parse_lines (getlines lone_user_file) parse_start = Ok (Parsed lone_user_state) /\
  scenario_at (scenario lone_user_state) SATS_KEY = [] /\
  solve acos_ref insertion_sort (fun _ => Some lone_user_file) "scenario.txt"
    = {| stdout := []; ended := None |}.
Proof.
  split; [exact insertion_sort_contract|]. split; [vm_compute; reflexivity|].
  split; [vm_compute; reflexivity|].
  apply (nothing_to_assign acos_ref insertion_sort (fun _ => Some lone_user_file)
           "scenario.txt" lone_user_file lone_user_state insertion_sort_contract eq_refl);
    [vm_compute; reflexivity | right; vm_compute; reflexivity].
Defined.

(** ** The order of the users *)

(** X19.  [sortUsersByPotentialCoverage] is a strict weak ordering, as
    [std::sort] requires of its comparison: irreflexive, asymmetric,
    transitive, and with a transitive "neither is less". *)
Theorem comparator_is_strict_weak_order :
  (forall u, sortUsersByPotentialCoverage u u = false) /\
  (forall u v, sortUsersByPotentialCoverage u v = true ->
               sortUsersByPotentialCoverage v u = false) /\
  (forall u v w, sortUsersByPotentialCoverage u v = true ->
                 sortUsersByPotentialCoverage v w = true ->
                 sortUsersByPotentialCoverage u w = true) /\
  (forall u v w,
     sortUsersByPotentialCoverage u v = false -> sortUsersByPotentialCoverage v u = false ->
     sortUsersByPotentialCoverage v w = false -> sortUsersByPotentialCoverage w v = false ->
     sortUsersByPotentialCoverage u w = false /\ sortUsersByPotentialCoverage w u = false).
Proof.
  unfold sortUsersByPotentialCoverage.
  repeat split; intros; rewrite ?Nat.ltb_lt, ?Nat.ltb_ge in *; lia.
Qed.

Lemma insert_behind_perm x l :
  Permutation (insert_behind sortUsersByPotentialCoverage x l) (x :: l).
Proof.
  induction l as [|y l IH]; simpl; [done|].
  destruct (sortUsersByPotentialCoverage x y); [done|].
  rewrite IH. apply Permutation_swap.
Qed.

Lemma insert_behind_sorted x l :
  StronglySorted shorter_or_equal l ->
  StronglySorted shorter_or_equal (insert_behind sortUsersByPotentialCoverage x l).
Proof.
  induction 1 as [|y l Hl IH Hy]; simpl; [by repeat constructor|].
  unfold sortUsersByPotentialCoverage at 1.
  destruct (Nat.ltb_spec (length (visible_sats x)) (length (visible_sats y))) as [Hlt|Hge].
  - constructor; [by constructor|]. constructor; [unfold shorter_or_equal; lia|].
    eapply Forall_impl; [exact Hy|]. unfold shorter_or_equal. intros z Hz. lia.
  - constructor; [done|]. rewrite insert_behind_perm. constructor; [|done].
    unfold shorter_or_equal. lia.
Qed.

Lemma insertion_sort_behind_contract : sort_contract insertion_sort_behind.
Proof.
  intros l. unfold insertion_sort_behind. induction l as [|x l [IHp IHs]]; simpl.
  - split; [done | constructor].
  - split; [by rewrite insert_behind_perm, IHp | by apply insert_behind_sorted].
Qed.

Lemma sorted_by_length_unique (l1 l2 : list UserVisibilityEntry) :
  Permutation l1 l2 ->
  StronglySorted shorter_or_equal l1 -> StronglySorted shorter_or_equal l2 ->
  NoDup ((fun entry => length (visible_sats entry)) <$> l1) ->
  l1 = l2.
Proof.
  revert l2. induction l1 as [|x l1 IH]; intros l2 Hperm Hs1 Hs2 Hnd.
  - by apply Permutation_nil_l in Hperm.
  - destruct l2 as [|y l2]; [by apply Permutation_nil_r in Hperm|].
    apply StronglySorted_inv in Hs1 as [Hs1 Hx].
    apply StronglySorted_inv in Hs2 as [Hs2 Hy].
    rewrite fmap_cons in Hnd. apply NoDup_cons in Hnd as [Hnx Hnd].
    rewrite Forall_forall in Hx, Hy.
    assert (x = y) as <-.
    { assert (x ∈ y :: l2) as Hxin by (rewrite <- Hperm; left).
      assert (y ∈ x :: l1) as Hyin by (rewrite Hperm; left).
      apply elem_of_cons in Hxin as [?|Hxin]; [done|].
      apply elem_of_cons in Hyin as [?|Hyin]; [done|].
      exfalso. apply Hnx. apply list_elem_of_fmap. exists y. split; [|done].
      pose proof (Hx y Hyin) as H1. pose proof (Hy x Hxin) as H2.
      unfold shorter_or_equal in *. lia. }
    f_equal. apply IH; [by eapply Permutation_cons_inv | done..].
Qed.

(** X20.  When no two users see equally many satellites, the order of
    the users and the whole run are the same with every sort that meets
    the contract of [std::sort]. *)
Theorem output_fixed_when_lengths_differ acos sort1 sort2
    (fs : string -> option string) (filename content : string) (st : parsed)
    (vis : list UserVisibilityEntry) :
  sort_contract sort1 -> sort_contract sort2 ->
  fs filename = Some content ->
  parse_lines (getlines content) parse_start = Ok (Parsed st) ->
  generate_user_vis_list acos (scenario st) (sat_beam_list st) = Ok vis ->
  NoDup ((fun entry => length (visible_sats entry)) <$> vis) ->
  sort1 sortUsersByPotentialCoverage vis = sort2 sortUsersByPotentialCoverage vis /\
  solve acos sort1 fs filename = solve acos sort2 fs filename.
Proof.
  intros H1 H2 Hfs Hparse Hgen Hnd.
  destruct (H1 vis) as [Hp1 Hs1], (H2 vis) as [Hp2 Hs2].
  assert (sort1 sortUsersByPotentialCoverage vis = sort2 sortUsersByPotentialCoverage vis)
    as Heq.
  { apply sorted_by_length_unique; [by rewrite Hp1, Hp2 | done..|].
    by rewrite Hp1. }
  split; [done|]. unfold solve. by rewrite Hfs, Hparse, Hgen, Heq.
Qed.

Lemma output_fixed_when_lengths_differ_witness :
  sort_contract insertion_sort /\ sort_contract insertion_sort_behind /\
  parse_lines (getlines two_lengths_file) parse_start = Ok (Parsed two_lengths_state) /\
  generate_user_vis_list acos_ref (scenario two_lengths_state)
    (sat_beam_list two_lengths_state)
    = Ok [ {| user_id := 0; visible_sats := [0] |};
           {| user_id := 1; visible_sats := [] |} ] /\
  solve acos_ref insertion_sort (fun _ => Some two_lengths_file) "scenario.txt" =
  solve acos_ref insertion_sort_behind (fun _ => Some two_lengths_file) "scenario.txt".
Proof.
  split; [exact insertion_sort_contract|].
  split; [exact insertion_sort_behind_contract|].
  split; [vm_compute; reflexivity|]. split; [vm_compute; reflexivity|].
  apply (output_fixed_when_lengths_differ acos_ref insertion_sort insertion_sort_behind
           (fun _ => Some two_lengths_file) "scenario.txt" two_lengths_file
           two_lengths_state
           [ {| user_id := 0; visible_sats := [0] |};
             {| user_id := 1; visible_sats := [] |} ]
           insertion_sort_contract insertion_sort_behind_contract eq_refl);
    [vm_compute; reflexivity | vm_compute; reflexivity|].
  apply NoDup_cons. split; [|apply NoDup_singleton].
  intros H. apply list_elem_of_singleton in H. discriminate H.
Defined.

(** X21.  With users that see equally many satellites the run depends
    on the order in which the sort leaves them, which [std::sort] does not
    fix: two sorts that meet its contract give [demo_file] different
    outputs, the first beam going to user 1 with one and to user 2 with
    the other. *)
Theorem output_depends_on_sort :
  exists sort1 sort2 content,
    sort_contract sort1 /\ sort_contract sort2 /\
    solve acos_ref sort1 (fun _ => Some content) "scenario.txt" =
      {| stdout :=
           [ BeamLine {| ev_sat := 1; ev_beam := 1; ev_user := 1; ev_color := "A" |};
             BeamLine {| ev_sat := 1; ev_beam := 2; ev_user := 2; ev_color := "B" |} ];
         ended := None |} /\
    solve acos_ref sort2 (fun _ => Some content) "scenario.txt" =
      {| stdout :=
           [ BeamLine {| ev_sat := 1; ev_beam := 1; ev_user := 2; ev_color := "A" |};
             BeamLine {| ev_sat := 1; ev_beam := 2; ev_user := 1; ev_color := "B" |} ];
         ended := None |} /\
    solve acos_ref sort1 (fun _ => Some content) "scenario.txt" <>
    solve acos_ref sort2 (fun _ => Some content) "scenario.txt".
Proof.
  exists insertion_sort, insertion_sort_behind, demo_file.
  split; [exact insertion_sort_contract|].
  split; [exact insertion_sort_behind_contract|].
  split; [vm_compute; reflexivity|]. split; [vm_compute; reflexivity|].
  vm_compute. discriminate.
Qed.

(** ** The two source files *)

Lemma gannon_user_loop acos scenario sat_beam_list todo user_i acc :
  Gannon.user_loop acos scenario sat_beam_list todo user_i acc =
  user_loop acos scenario sat_beam_list todo user_i acc.
Proof.
  revert user_i acc. induction todo as [|todo IH]; intros user_i acc; [done|].
  simpl. rewrite visible_while_loop by lia. rewrite drop_0.
  destruct (visible_loop _ _ _ _ _); simpl; [apply IH | done].
Qed.

Lemma gannon_color_loop acos entries n h (k : nat) first count0 user_i sat_pos user_pos
    todo (c0 : nat) :
  layout entries h n ->
  entries !! slot_index k 0 = Some first ->
  beam_counts h !! total_sat_beam_count first = Some count0 ->
  count0 < BEAMS_PER_SATELLITE ->
  (c0 + todo <= 4)%nat ->
  Gannon.color_loop acos entries h (Z.of_nat k) (Z.of_nat k * COLORS_PER_SATELLITE)
    user_i sat_pos user_pos todo (Z.of_nat c0) =
  Gannon.lift (color_loop acos entries h (Z.of_nat k) (Z.of_nat k * COLORS_PER_SATELLITE)
                 user_i sat_pos user_pos todo (Z.of_nat c0)).
Proof.
  intros Hlay Hfirst Hcount0 Hlt. revert c0.
  induction todo as [|todo IH]; intros c0 Hc; [done|].
  cbn [Gannon.color_loop color_loop].
  replace (Z.of_nat k * COLORS_PER_SATELLITE + Z.of_nat c0)
    with (Z.of_nat (slot_index k c0))
    by (rewrite slot_index_eq; unfold COLORS_PER_SATELLITE; lia).
  rewrite at_index_nat.
  destruct (entries !! slot_index k c0) as [e|] eqn:He; [|done].
  cbn [mbind res_bind Gannon.outcome_bind Gannon.lift].
  destruct (decide (sat_id e = Z.of_nat k)); [|done].
  destruct (deref (beam_lists h) (beam_list e)) as [slot|]; [|done].
  cbn [mbind res_bind Gannon.outcome_bind Gannon.lift].
  destruct (self_interference acos sat_pos user_pos slot).
  - replace (Z.of_nat c0 + 1) with (Z.of_nat (S c0)) by lia. apply IH. lia.
  - destruct (layout_entry _ _ _ Hlay k c0 e ltac:(lia) He) as (_ & Hptr & _).
    destruct (layout_entry _ _ _ Hlay k 0%nat first ltac:(lia) Hfirst) as (_ & Hptr0 & _).
    rewrite Hptr0 in Hcount0. rewrite Hptr.
    assert (deref (beam_counts h) k = Ok count0) as -> by by apply deref_Ok.
    cbn [mbind res_bind Gannon.outcome_bind Gannon.lift].
    rewrite decide_True by lia. done.
Qed.

Lemma layout_committed acos scenario entries n user_i h h' ev :
  layout entries h n ->
  committed acos scenario entries user_i h h' ev ->
  layout entries h' n.
Proof.
  intros [Le Ll Lc Lentry] Hco. destruct Hco. split; simpl; by rewrite ?length_insert.
Qed.

Lemma gannon_sat_loop acos scenario entries n h user_i visible :
  layout entries h n ->
  Gannon.sat_loop acos scenario entries h user_i visible =
  Gannon.lift (sat_loop acos scenario entries h user_i visible).
Proof.
  intros Hlay. induction visible as [|sat_i visible IH]; [done|].
  rewrite sat_loop_cons. cbn [Gannon.sat_loop].
  destruct (at_index entries (sat_i * COLORS_PER_SATELLITE)) as [first|] eqn:Hfirst;
    [|done].
  cbn [mbind res_bind Gannon.outcome_bind Gannon.lift].
  destruct (deref (beam_counts h) (total_sat_beam_count first)) as [count0|] eqn:Hc0;
    [|done].
  cbn [mbind res_bind Gannon.outcome_bind Gannon.lift].
  destruct (decide (count0 >= BEAMS_PER_SATELLITE)); [done|].
  destruct (at_index (scenario_at scenario SATS_KEY) sat_i) as [sat_pos|]; [|done].
  cbn [mbind res_bind Gannon.outcome_bind Gannon.lift].
  destruct (at_index (scenario_at scenario USER_KEY) user_i) as [user_pos|]; [|done].
  cbn [mbind res_bind Gannon.outcome_bind Gannon.lift].
  apply at_index_Ok in Hfirst as [H0 Hfirst]. apply deref_Ok in Hc0.
  unfold COLORS_PER_SATELLITE in H0, Hfirst.
  replace (Z.to_nat (sat_i * 4)) with (slot_index (Z.to_nat sat_i) 0) in Hfirst
    by (rewrite slot_index_eq; lia).
  pose proof (gannon_color_loop acos entries n h (Z.to_nat sat_i) first count0 user_i
                sat_pos user_pos 4 0 Hlay Hfirst Hc0 ltac:(lia) ltac:(lia)) as Hcol.
  replace (Z.of_nat (Z.to_nat sat_i)) with sat_i in Hcol by lia.
  change (Z.of_nat 0) with 0 in Hcol. change (length COLOR_IDS) with 4%nat.
  rewrite Hcol.
  destruct (color_loop _ _ _ _ _ _ _ _ _ _) as [[[h1 ev]|]|]; try done.
Qed.

Lemma gannon_greedy_solver acos scenario entries n user_vis_list h :
  layout entries h n ->
  Gannon.greedy_solver acos scenario user_vis_list entries h =
  Gannon.of_engine (assign_beams_and_print acos scenario user_vis_list entries h).
Proof.
  revert h. induction user_vis_list as [|entry rest IH]; intros h Hlay; [done|].
  simpl. rewrite (gannon_sat_loop acos scenario entries n) by done.
  destruct (sat_loop _ _ _ _ _ _) as [[h' first]|f] eqn:Hloop; simpl; [|done].
  rewrite IH; [done|].
  apply sat_loop_Ok in Hloop as [[-> ->]|(ev & -> & Hco)]; [done|].
  by eapply layout_committed.
Qed.

(** X22.  The two source files behave alike: for every file, every sort
    and every arc cosine, [parse_scenario] of [gannon_submission_0] prints
    what [solve] prints and ends as [solve] ends; the assertion of
    [greedy_solver] that a counter is at most 32 after its increment never
    fails; and the two [main] print the same when given one argument. *)
Theorem gannon_submission_agrees acos std_sort
    (fs : string -> option string) (filename : string) :
  Gannon.parse_scenario acos std_sort fs filename =
    Gannon.of_run (solve acos std_sort fs filename) /\
  Gannon.cut_short (Gannon.parse_scenario acos std_sort fs filename)
    <> Some Gannon.BeamCountAssertion /\
  (forall argv, length argv = 2%nat ->
     Gannon.console_out (Gannon.main acos std_sort fs argv) =
     console_out (main acos std_sort fs argv)) /\
  (forall argv, length argv <> 2%nat ->
     Gannon.main acos std_sort fs argv =
     {| Gannon.console_out := [NeedFilename]; Gannon.exit_status := Gannon.Done 0 |}).
Proof.
  assert (forall name, Gannon.parse_scenario acos std_sort fs name =
                       Gannon.of_run (solve acos std_sort fs name)) as Heq.
  { intros name. unfold Gannon.parse_scenario, solve.
    destruct (fs name) as [content|]; [|done].
    destruct (parse_lines _ _) as [[st|line]|f] eqn:Hparse; [|done..].
    rewrite gannon_user_loop. unfold generate_user_vis_list.
    destruct (user_loop _ _ _ _ _ _) as [vis|f]; [|done]. cbn zeta.
    apply parse_lines_parsed in Hparse as [Hlay _ _ _ _].
    by rewrite (gannon_greedy_solver acos (scenario st) (sat_beam_list st) _ _ _ Hlay). }
  split; [done|]. split; [rewrite Heq; simpl; by destruct (ended _)|]. split.
  - intros argv Hlen. unfold Gannon.main, main.
    rewrite !decide_False by lia.
    destruct (at_index argv 1) as [name|]; [|done]. simpl. by rewrite Heq.
  - intros argv Hlen. unfold Gannon.main. by rewrite decide_True.
Qed.

(** ** The beam state the parser makes, and how a run can end *)

(** X23.  For every file the parser reads, the entry of colour number
    [c] of the [k]-th [sat] line is entry [4 k + c] of the beam list; it
    has a beam list of its own, empty, the counter number [k], at 0, which
    it shares with the three other entries of that line and with no other
    entry, the colour [COLOR_IDS[c]], and as id the id part of the line
    less 1. *)
Theorem parser_shares_one_counter_per_satellite (lines : list string) (st : parsed) :
  parse_lines lines parse_start = Ok (Parsed st) ->
  forall (k c : nat) e,
    (c < 4)%nat -> sat_beam_list st !! slot_index k c = Some e ->
    beam_list e = slot_index k c /\
    total_sat_beam_count e = k /\
    COLOR_IDS !! c = Some (color e) /\
    beam_lists (heap st) !! beam_list e = Some [] /\
    beam_counts (heap st) !! total_sat_beam_count e = Some 0 /\
    exists id_token,
      sat_id_tokens lines !! k = Some id_token /\ stoi id_token = Ok (sat_id e + 1).
Proof.
  intros Hparse k c e Hc He.
  pose proof (parse_lines_parsed _ _ Hparse) as [Hlay Hs Hl Hcnt Hids].
  destruct (layout_entry _ _ _ Hlay k c e Hc He) as (Hb & Ht & Hcol).
  pose proof (layout_entries _ _ _ Hlay) as Le.
  pose proof (layout_lists _ _ _ Hlay) as Ll.
  pose proof (layout_counts _ _ _ Hlay) as Lc.
  apply lookup_lt_Some in He as Hlt. rewrite Le, !slot_index_eq in Hlt.
  rewrite !slot_index_eq in Ll.
  do 3 (split; [done|]).
  destruct (lookup_lt_is_Some_2 (beam_lists (heap st)) (beam_list e)) as [slot Hslot].
  { rewrite Hb, slot_index_eq. lia. }
  destruct (lookup_lt_is_Some_2 (beam_counts (heap st)) (total_sat_beam_count e))
    as [n Hn]; [lia|].
  destruct (lookup_lt_is_Some_2 (sat_id_tokens lines) k) as [tok Htok]; [lia|].
  split; [by rewrite Hslot, (Hl _ _ Hslot)|].
  split; [by rewrite Hn, (Hcnt _ _ Hn)|].
  exists tok. split; [done|]. by eapply Hids.
Qed.

Lemma parser_shares_one_counter_per_satellite_witness :
  parse_lines (getlines demo_file) parse_start = Ok (Parsed demo_state) /\
  exists e,
    sat_beam_list demo_state !! slot_index 1 2 = Some e /\
    beam_list e = 6%nat /\ total_sat_beam_count e = 1%nat /\ color e = "C"%char /\
    sat_id e = 1.
Proof.
  split; [vm_compute; reflexivity|].
  eexists. split; [vm_compute; reflexivity|].
  destruct (parser_shares_one_counter_per_satellite (getlines demo_file) demo_state
              ltac:(vm_compute; reflexivity) 1%nat 2%nat _
              ltac:(lia) ltac:(vm_compute; reflexivity))
    as (Hlist & Hcount & Hcolor & _).
  split; [exact Hlist|]. split; [exact Hcount|]. split; reflexivity.
Defined.

Lemma visible_loop_out_of_range acos scenario (u : nat) user_pos heads acc :
  scenario_at scenario USER_KEY !! u = Some user_pos ->
  (exists e, e ∈ heads /\
     ~ 0 <= sat_id e < Z.of_nat (length (scenario_at scenario SATS_KEY))) ->
  visible_loop acos scenario (Z.of_nat u) heads acc = Fault UndefinedBehaviour.
Proof.
  intros Hu. revert acc. induction heads as [|e heads IH]; intros acc (e0 & Hin & Hbad).
  - by apply not_elem_of_nil in Hin.
  - cbn [visible_loop].
    destruct (at_index (scenario_at scenario SATS_KEY) (sat_id e)) as [sat_pos|f] eqn:Hsat.
    + cbn [mbind res_bind]. rewrite at_index_nat, Hu. cbn [mbind res_bind].
      assert (exists e0, e0 ∈ heads /\
                ~ 0 <= sat_id e0 < Z.of_nat (length (scenario_at scenario SATS_KEY)))
        as Hrest.
      { apply elem_of_cons in Hin as [->|Hin]; [|by exists e0].
        exfalso. apply Hbad. apply at_index_Ok in Hsat as [H0 Hs].
        apply lookup_lt_Some in Hs. lia. }
      destruct (float_to_bool _); [by apply IH|].
      destruct (interferer_violation _ _ _ _); by apply IH.
    + apply at_index_Fault in Hsat as ->. done.
Qed.

Lemma generate_out_of_range acos scenario entries :
  scenario_at scenario USER_KEY <> [] ->
  (exists e, e ∈ stride 0 entries /\
     ~ 0 <= sat_id e < Z.of_nat (length (scenario_at scenario SATS_KEY))) ->
  generate_user_vis_list acos scenario entries = Fault UndefinedBehaviour.
Proof.
  intros Hne Hbad. unfold generate_user_vis_list.
  destruct (scenario_at scenario USER_KEY) as [|p users] eqn:Hu; [done|].
  cbn [length user_loop].
  rewrite (visible_loop_out_of_range acos scenario 0 p); [done| by rewrite Hu |done].
Qed.

Lemma not_ids_in_range (st : parsed) :
  ~ ids_in_range st ->
  exists e, e ∈ stride 0 (sat_beam_list st) /\
    ~ 0 <= sat_id e < Z.of_nat (length (scenario_at (scenario st) SATS_KEY)).
Proof.
  intros Hnot.
  destruct (decide (Forall (fun e =>
      0 <= sat_id e < Z.of_nat (length (scenario_at (scenario st) SATS_KEY)))
      (stride 0 (sat_beam_list st)))) as [Hall|Hsome].
  - exfalso. apply Hnot. intros e He. rewrite Forall_forall in Hall. by apply Hall.
  - apply not_Forall_Exists in Hsome; [|intros ?; apply _].
    apply Exists_exists in Hsome as (e & Hin & Hbad). by exists e.
Qed.

Lemma color_loop_stops acos entries n h (k : nat) user_i sat_pos user_pos todo (c0 : nat) :
  layout entries h n -> (k < n)%nat -> (c0 + todo <= 4)%nat ->
  (exists r, color_loop acos entries h (Z.of_nat k) (Z.of_nat k * COLORS_PER_SATELLITE)
               user_i sat_pos user_pos todo (Z.of_nat c0) = Ok r) \/
  color_loop acos entries h (Z.of_nat k) (Z.of_nat k * COLORS_PER_SATELLITE)
    user_i sat_pos user_pos todo (Z.of_nat c0) = Fault (AssertionFailed assert_sat_id).
Proof.
  intros Hlay Hk. revert c0. induction todo as [|todo IH]; intros c0 Hc.
  - left. by eexists.
  - cbn [color_loop].
    replace (Z.of_nat k * COLORS_PER_SATELLITE + Z.of_nat c0)
      with (Z.of_nat (slot_index k c0))
      by (rewrite slot_index_eq; unfold COLORS_PER_SATELLITE; lia).
    rewrite at_index_nat.
    pose proof (layout_entries _ _ _ Hlay) as Le.
    pose proof (layout_lists _ _ _ Hlay) as Ll.
    pose proof (layout_counts _ _ _ Hlay) as Lc.
    rewrite !slot_index_eq in Le, Ll.
    destruct (lookup_lt_is_Some_2 entries (slot_index k c0)) as [e He].
    { rewrite slot_index_eq. lia. }
    rewrite He. cbn [mbind res_bind].
    destruct (decide (sat_id e = Z.of_nat k)); [|by right].
    destruct (layout_entry _ _ _ Hlay k c0 e ltac:(lia) He) as (Hb & Ht & _).
    destruct (lookup_lt_is_Some_2 (beam_lists h) (beam_list e)) as [slot Hslot].
    { rewrite Hb, slot_index_eq. lia. }
    destruct (lookup_lt_is_Some_2 (beam_counts h) (total_sat_beam_count e))
      as [count Hcount]; [lia|].
    apply deref_Ok in Hslot, Hcount. rewrite Hslot. cbn [mbind res_bind].
    destruct (self_interference acos sat_pos user_pos slot).
    + replace (Z.of_nat c0 + 1) with (Z.of_nat (S c0)) by lia. apply IH. lia.
    + rewrite Hcount. cbn [mbind res_bind]. left. by eexists.
Qed.

Lemma sat_loop_stops acos scenario entries n h user_i visible :
  layout entries h n ->
  length (scenario_at scenario SATS_KEY) = n ->
  0 <= user_i < Z.of_nat (length (scenario_at scenario USER_KEY)) ->
  Forall (fun s => 0 <= s < Z.of_nat n) visible ->
  (exists r, sat_loop acos scenario entries h user_i visible = Ok r) \/
  sat_loop acos scenario entries h user_i visible
    = Fault (AssertionFailed assert_sat_id).
Proof.
  intros Hlay Hn Hu Hvis. induction Hvis as [|sat_i visible Hs _ IH].
  - left. by eexists.
  - rewrite sat_loop_cons.
    pose proof (layout_entries _ _ _ Hlay) as Le.
    pose proof (layout_counts _ _ _ Hlay) as Lc.
    rewrite !slot_index_eq in Le.
    replace sat_i with (Z.of_nat (Z.to_nat sat_i)) by lia.
    set (k := Z.to_nat sat_i). assert (k < n)%nat as Hk by lia.
    replace (Z.of_nat k * COLORS_PER_SATELLITE) with (Z.of_nat (slot_index k 0))
      by (rewrite slot_index_eq; unfold COLORS_PER_SATELLITE; lia).
    rewrite !at_index_nat.
    destruct (lookup_lt_is_Some_2 entries (slot_index k 0)) as [first Hfirst].
    { rewrite slot_index_eq. lia. }
    rewrite Hfirst. cbn [mbind res_bind].
    destruct (layout_entry _ _ _ Hlay k 0%nat first ltac:(lia) Hfirst) as (_ & Ht & _).
    destruct (lookup_lt_is_Some_2 (beam_counts h) (total_sat_beam_count first))
      as [count Hcount]; [lia|].
    apply deref_Ok in Hcount. rewrite Hcount. cbn [mbind res_bind].
    destruct (decide (count >= BEAMS_PER_SATELLITE)); [done|].
    destruct (lookup_lt_is_Some_2 (scenario_at scenario SATS_KEY) k) as [sat_pos Hsat];
      [lia|].
    rewrite Hsat. cbn [mbind res_bind].
    destruct (lookup_lt_is_Some_2 (scenario_at scenario USER_KEY) (Z.to_nat user_i))
      as [user_pos Huser]; [lia|].
    assert (at_index (scenario_at scenario USER_KEY) user_i = Ok user_pos) as ->
      by (apply at_index_Ok; split; [lia | done]).
    cbn [mbind res_bind].
    replace (Z.of_nat (slot_index k 0)) with (Z.of_nat k * COLORS_PER_SATELLITE)
      by (rewrite slot_index_eq; unfold COLORS_PER_SATELLITE; lia).
    destruct (color_loop_stops acos entries n h k user_i sat_pos user_pos 4 0 Hlay Hk
                ltac:(lia)) as [[r Hr]|Hr].
    + change (Z.of_nat 0) with 0 in Hr. change (length COLOR_IDS) with 4%nat.
      rewrite Hr. cbn [mbind res_bind]. destruct r as [[h' ev]|]; [|done].
      left. by eexists.
    + change (Z.of_nat 0) with 0 in Hr. change (length COLOR_IDS) with 4%nat.
      rewrite Hr. by right.
Qed.

Lemma engine_stops acos scenario entries n user_vis_list h :
  layout entries h n ->
  length (scenario_at scenario SATS_KEY) = n ->
  Forall (entry_in_range scenario n) user_vis_list ->
  stopped (assign_beams_and_print acos scenario user_vis_list entries h) = None \/
  stopped (assign_beams_and_print acos scenario user_vis_list entries h)
    = Some (AssertionFailed assert_sat_id).
Proof.
  intros Hlay Hn Hall. revert h Hlay.
  induction Hall as [|entry rest [Hu Hv] _ IH]; intros h Hlay; [by left|].
  simpl.
  destruct (sat_loop_stops acos scenario entries n h (user_id entry) (visible_sats entry)
              Hlay Hn Hu Hv) as [[[h' first] Hr]|Hr]; rewrite Hr; simpl; [|by right].
  apply IH. apply sat_loop_Ok in Hr as [[-> ->]|(ev & -> & Hco)]; [done|].
  by eapply layout_committed.
Qed.

(** X24.  What a run meets once the file has been read.  If there is a
    user and some satellite id is not an index of the satellite sequence,
    the visibility builder reads the sequence out of range; that is
    undefined behaviour, and the source does not say what the run does
    from there.  Otherwise the builder returns a list, and the run
    returns or stops at the id assertion of the engine; no vector is
    indexed out of range. *)
Theorem run_after_parsing_ends acos std_sort (fs : string -> option string)
    (filename content : string) (st : parsed) :
  sort_contract std_sort ->
  fs filename = Some content ->
  parse_lines (getlines content) parse_start = Ok (Parsed st) ->
  (scenario_at (scenario st) USER_KEY <> [] /\ ~ ids_in_range st ->
   generate_user_vis_list acos (scenario st) (sat_beam_list st)
     = Fault UndefinedBehaviour) /\
  (scenario_at (scenario st) USER_KEY = [] \/ ids_in_range st ->
   (exists vis,
      generate_user_vis_list acos (scenario st) (sat_beam_list st) = Ok vis) /\
   (ended (solve acos std_sort fs filename) = None \/
    ended (solve acos std_sort fs filename) = Some (AssertionFailed assert_sat_id))).
Proof.
  intros Hsort Hfs Hparse. unfold solve. rewrite Hfs, Hparse. split.
  - intros [Hne Hbad]. apply not_ids_in_range in Hbad.
    exact (generate_out_of_range acos _ _ Hne Hbad).
  - intros Hok.
    assert (exists vis,
              generate_user_vis_list acos (scenario st) (sat_beam_list st) = Ok vis)
      as [vis Hgen].
    { destruct Hok as [Hnil|Hin].
      - exists []. unfold generate_user_vis_list. by rewrite Hnil.
      - apply (user_loop_total acos (scenario st) (sat_beam_list st) _ 0 []); [lia|done]. }
    split; [by exists vis|].
    rewrite Hgen. cbn zeta. cbn [ended].
    pose proof (parse_lines_parsed _ _ Hparse) as [Hlay Hn _ _ _].
    destruct (Hsort vis) as [Hperm _].
    apply (engine_stops acos (scenario st) (sat_beam_list st) _ _ _ Hlay Hn).
    rewrite Hperm, <- Hn. by eapply generate_in_range.
Qed.

Lemma run_after_parsing_ends_witness :
  sort_contract insertion_sort /\
  parse_lines (getlines out_of_range_file) parse_start = Ok (Parsed out_of_range_state) /\
  generate_user_vis_list acos_ref (scenario out_of_range_state)
    (sat_beam_list out_of_range_state) = Fault UndefinedBehaviour.
Proof.
  split; [exact insertion_sort_contract|]. split; [vm_compute; reflexivity|].
  apply (run_after_parsing_ends acos_ref insertion_sort (fun _ => Some out_of_range_file)
           "scenario.txt" out_of_range_file out_of_range_state
           insertion_sort_contract eq_refl ltac:(vm_compute; reflexivity)).
  split; [vm_compute; discriminate|].
  intros Hin.
  assert (length (scenario_at (scenario out_of_range_state) SATS_KEY) = 1%nat) as Hlen
    by (vm_compute; reflexivity).
  assert (0 <= 1 < Z.of_nat (length (scenario_at (scenario out_of_range_state) SATS_KEY)))
    as Hbad; [|rewrite Hlen in Hbad; lia].
  apply (Hin {| sat_id := 1; color := "A"; beam_list := 0; total_sat_beam_count := 0 |}).
  vm_compute. apply elem_of_cons. by left.
Defined.

(** ** [main] *)

Lemma solve_shape acos std_sort fs filename :
  let r := solve acos std_sort fs filename in
  (stdout r = [FileDoesNotExist filename] /\ ended r = None /\ fs filename = None) \/
  (exists line_buff, stdout r = [CouldntReadLine line_buff] /\ ended r = None) \/
  (exists evs, stdout r = BeamLine <$> evs).
Proof.
  unfold solve. destruct (fs filename) as [content|]; [|by left].
  right. destruct (parse_lines _ _) as [[st|line]|f];
    [|left; by eexists|right; by exists []].
  destruct (generate_user_vis_list _ _ _); right; [by eexists | by exists []].
Qed.

(** X25.  The process returns 0 whenever [main] returns, also after a
    diagnostic; it prints one diagnostic and nothing else, or assignment
    lines and nothing else; with an argument count other than 2 it prints
    the expected argument and reads no file. *)
Theorem main_exit_and_output acos std_sort (fs : string -> option string)
    (argv : list string) :
  (forall code, exit_status (main acos std_sort fs argv) = Ok code -> code = 0) /\
  (length argv <> 2%nat ->
   forall fs', main acos std_sort fs' argv =
               {| console_out := [ExpectedArgument]; exit_status := Ok 0 |}) /\
  (console_out (main acos std_sort fs argv) = [ExpectedArgument] \/
   (exists filename,
      console_out (main acos std_sort fs argv) = [Printed (FileDoesNotExist filename)]
      /\ argv !! 1%nat = Some filename /\ fs filename = None) \/
   (exists line_buff,
      console_out (main acos std_sort fs argv) = [Printed (CouldntReadLine line_buff)]) \/
   (exists evs,
      console_out (main acos std_sort fs argv) = Printed <$> (BeamLine <$> evs))).
Proof.
  unfold main. destruct (decide (length argv <> 2%nat)) as [Hn|Hn].
  { split; [by intros code [= <-]|]. split; [|by left].
    by intros _ fs'. }
  apply dec_stable in Hn.
  destruct argv as [|prog [|filename [|? ?]]]; try done.
  rewrite (at_index_nat _ 1). cbn [lookup list_lookup].
  split; [|split; [done|]].
  - intros code. by destruct (ended _); intros [= <-].
  - right.
    destruct (solve_shape acos std_sort fs filename)
      as [(-> & _ & Hfs)|[(line & -> & _)|(evs & ->)]].
    + left. by exists filename.
    + right. left. by exists line.
    + right. right. by exists evs.
Qed.

(** ** Users left without a beam *)

Lemma capacity_commit_mono h sat s c p :
  capacity_remaining h sat = false ->
  capacity_remaining (commit h s c p) sat = false.
Proof.
  unfold capacity_remaining, commit. simpl. intros H.
  destruct (decide (Z.to_nat s = Z.to_nat sat)) as [Heq|Hne].
  - rewrite Heq, list_lookup_alter_eq.
    destruct (beam_counts h !! Z.to_nat sat) as [n|]; [|done]. simpl.
    apply bool_decide_eq_false in H. apply bool_decide_eq_false. lia.
  - by rewrite list_lookup_alter_ne.
Qed.

Lemma conflicts_commit_mono acos scenario h sat ci cand s c p :
  conflicts acos scenario h sat ci cand = true ->
  conflicts acos scenario (commit h s c p) sat ci cand = true.
Proof.
  unfold conflicts, commit. simpl. intros H.
  destruct (scenario_at scenario SATS_KEY !! Z.to_nat sat) as [sat_pos|]; [|done].
  destruct (decide (slot_index (Z.to_nat s) c = slot_index (Z.to_nat sat) ci)) as [Heq|Hne].
  - rewrite Heq, list_lookup_alter_eq.
    destruct (beam_lists h !! slot_index (Z.to_nat sat) ci) as [slot|]; [|done]. simpl.
    by rewrite existsb_app, H.
  - by rewrite list_lookup_alter_ne.
Qed.

Lemma available_commit_mono acos scenario h cand sc s c p :
  available acos scenario h cand sc = false ->
  available acos scenario (commit h s c p) cand sc = false.
Proof.
  unfold available. intros H. apply andb_false_iff in H as [H|H].
  - by rewrite capacity_commit_mono.
  - apply negb_false_iff in H. rewrite conflicts_commit_mono by done.
    by rewrite andb_false_r.
Qed.

Lemma available_serve_mono acos scenario h entry cand sc :
  available acos scenario h cand sc = false ->
  available acos scenario (serve acos scenario h entry).1 cand sc = false.
Proof.
  intros H. unfold serve.
  destruct (scenario_at scenario USER_KEY !! Z.to_nat (user_id entry)); [|done].
  destruct (List.find _ _) as [[s c]|]; [|done]. simpl.
  by apply available_commit_mono.
Qed.

Lemma available_serve_all_mono acos scenario h entries cand sc :
  available acos scenario h cand sc = false ->
  available acos scenario (serve_all acos scenario h entries).1 cand sc = false.
Proof.
  revert h. induction entries as [|entry rest IH]; intros h H; [done|].
  simpl. pose proof (available_serve_mono acos scenario h entry cand sc H) as H1.
  destruct (serve acos scenario h entry) as [h1 first].
  specialize (IH h1 H1). by destruct (serve_all acos scenario h1 rest).
Qed.

Lemma serve_user acos scenario h entry :
  Forall (fun ev => ev_user ev = user_id entry + 1) (serve acos scenario h entry).2.
Proof.
  unfold serve.
  destruct (scenario_at scenario USER_KEY !! Z.to_nat (user_id entry)); [|constructor].
  destruct (List.find _ _) as [[s c]|]; by repeat constructor.
Qed.

Lemma serve_nothing acos scenario h entry cand :
  scenario_at scenario USER_KEY !! Z.to_nat (user_id entry) = Some cand ->
  (serve acos scenario h entry).2 = [] ->
  (serve acos scenario h entry).1 = h /\
  forall sc, sc ∈ candidates (visible_sats entry) ->
             available acos scenario h cand sc = false.
Proof.
  unfold serve. intros -> H.
  destruct (List.find _ _) as [[s c]|] eqn:Hfind; [done|]. split; [done|].
  intros sc Hsc. apply list_elem_of_In in Hsc.
  by apply (List.find_none _ _ Hfind).
Qed.

Lemma unserved_stay_unavailable acos scenario h entries entry cand sc :
  entry ∈ entries ->
  user_id entry + 1 ∉ ev_user <$> (serve_all acos scenario h entries).2 ->
  scenario_at scenario USER_KEY !! Z.to_nat (user_id entry) = Some cand ->
  sc ∈ candidates (visible_sats entry) ->
  available acos scenario (serve_all acos scenario h entries).1 cand sc = false.
Proof.
  revert h. induction entries as [|e0 rest IH]; intros h Hin Hnot Hcand Hsc.
  - by apply not_elem_of_nil in Hin.
  - simpl in *. pose proof (serve_user acos scenario h e0) as Huser.
    pose proof (serve_nothing acos scenario h e0 cand) as Hnone.
    pose proof (available_serve_all_mono acos scenario
                  (serve acos scenario h e0).1 rest cand sc) as Hmono.
    specialize (IH (serve acos scenario h e0).1).
    destruct (serve acos scenario h e0) as [h1 first]. simpl in *.
    destruct (serve_all acos scenario h1 rest) as [h2 others]. simpl in *.
    rewrite fmap_app in Hnot. apply not_elem_of_app in Hnot as [Hfirst Hothers].
    apply elem_of_cons in Hin as [->|Hin]; [|by apply IH].
    apply Hmono. destruct first as [|ev first].
    + destruct (Hnone Hcand eq_refl) as [-> Hall]. by apply Hall.
    + exfalso. apply Hfirst. apply Forall_cons in Huser as [<- _].
      rewrite fmap_cons. apply elem_of_cons. by left.
Qed.

Lemma elem_of_candidates (visible : list Z) (s : Z) (c : nat) :
  (s, c) ∈ candidates visible <-> s ∈ visible /\ (c < 4)%nat.
Proof.
  unfold candidates. rewrite list_elem_of_bind. split.
  - intros (s' & Hin & Hs). apply list_elem_of_bind in Hin as (c' & Hin & Hc).
    apply list_elem_of_ret in Hin. injection Hin as -> ->.
    apply elem_of_seq in Hc. simpl in Hc. split; [done | lia].
  - intros [Hs Hc]. exists s. split; [|done].
    apply list_elem_of_bind. exists c. split; [by apply list_elem_of_ret|].
    apply elem_of_seq. simpl. lia.
Qed.

Lemma slots_printed_serve acos scenario n h printed entry :
  entry_in_range scenario n entry ->
  slots_printed scenario h printed ->
  slots_printed scenario (serve acos scenario h entry).1
    (printed ++ (serve acos scenario h entry).2).
Proof.
  intros [Hu Hvis] Hinv. unfold serve.
  destruct (scenario_at scenario USER_KEY !! Z.to_nat (user_id entry)) as [cand|] eqn:Hcand;
    [|by rewrite app_nil_r].
  destruct (List.find _ _) as [[s c]|] eqn:Hfind; [|by rewrite app_nil_r].
  apply List.find_some in Hfind as [Hin _].
  apply list_elem_of_In, elem_of_candidates in Hin as [Hs Hc].
  rewrite Forall_forall in Hvis. specialize (Hvis s Hs).
  cbn [fst snd]. intros k c' slot target Hc' Hslot Htarget.
  unfold commit in Hslot. cbn [beam_lists] in Hslot.
  destruct (decide (slot_index (Z.to_nat s) c = slot_index k c')) as [Heq|Hne].
  - destruct (slot_index_inj _ _ _ _ Hc Hc' Heq) as [<- <-].
    rewrite list_lookup_alter_eq in Hslot.
    destruct (beam_lists h !! slot_index (Z.to_nat s) c) as [old|] eqn:Hold; [|done].
    simpl in Hslot. injection Hslot as <-.
    apply elem_of_app in Htarget as [Htarget|Htarget].
    + destruct (Hinv _ _ _ _ Hc Hold Htarget) as (ev & Hev & Hrest).
      exists ev. split; [|done]. apply elem_of_app. by left.
    + apply list_elem_of_singleton in Htarget as ->.
      eexists. split; [apply elem_of_app; right; apply list_elem_of_singleton; reflexivity|].
      cbn [ev_sat ev_color ev_user]. split; [lia|]. split.
      * destruct (lookup_lt_is_Some_2 COLOR_IDS c) as [col Hcol]; [simpl; lia|].
        by rewrite Hcol.
      * by replace (user_id entry + 1 - 1) with (user_id entry) by lia.
  - rewrite list_lookup_alter_ne in Hslot by done.
    destruct (Hinv _ _ _ _ Hc' Hslot Htarget) as (ev & Hev & Hrest).
    exists ev. split; [|done]. apply elem_of_app. by left.
Qed.

Lemma slots_printed_serve_all acos scenario n entries h printed :
  Forall (entry_in_range scenario n) entries ->
  slots_printed scenario h printed ->
  slots_printed scenario (serve_all acos scenario h entries).1
    (printed ++ (serve_all acos scenario h entries).2).
Proof.
  intros Hall. revert h printed.
  induction Hall as [|entry rest Hentry Hall IH]; intros h printed Hinv.
  - simpl. by rewrite app_nil_r.
  - simpl. pose proof (slots_printed_serve acos scenario n h printed entry Hentry Hinv) as H1.
    destruct (serve acos scenario h entry) as [h1 first]. cbn [fst snd] in H1.
    specialize (IH h1 (printed ++ first) H1).
    destruct (serve_all acos scenario h1 rest) as [h2 others]. cbn [fst snd] in *.
    by rewrite app_assoc.
Qed.

Lemma visible_iff_passes acos lines st vis u entry :
  parse_lines lines parse_start = Ok (Parsed st) ->
  sats_numbered_in_order lines ->
  generate_user_vis_list acos (scenario st) (sat_beam_list st) = Ok vis ->
  vis !! u = Some entry ->
  user_id entry = Z.of_nat u /\
  exists user_pos,
    scenario_at (scenario st) USER_KEY !! u = Some user_pos /\
    forall s, s ∈ visible_sats entry <-> passes_tests acos (scenario st) user_pos s.
Proof.
  intros Hparse Hnum Hgen Hu.
  destruct (visibility_of_entries acos (scenario st) (sat_beam_list st))
    as (_ & Hchar & _ & _).
  destruct (Hchar vis Hgen) as [_ Hrows].
  destruct (Hrows u entry Hu) as (Hid & user_pos & Hpos & Hmem).
  split; [done|]. exists user_pos. split; [done|]. intros s. rewrite Hmem.
  split; [by intros [_ ?]|]. intros Hpass. split; [|done].
  destruct Hpass as (sat_pos & H0 & Hsat & _).
  pose proof (parse_lines_parsed _ _ Hparse) as [[Le _ _ _] Hs _ _ _].
  destruct (lookup_lt_is_Some_2 (sat_beam_list st) (slot_index (Z.to_nat s) 0))
    as [e He].
  { apply lookup_lt_Some in Hsat. rewrite Le, !slot_index_eq. lia. }
  exists e. split.
  - apply (lookup_stride 0 _ (Z.to_nat s)). by rewrite <- slot_index_eq.
  - rewrite (numbered_ids lines st Hparse Hnum (Z.to_nat s) 0%nat e ltac:(lia) He).
    lia.
Qed.

(** X26.  The assignment of a run cannot be extended by a user it left
    out.  For a file whose satellites are numbered in order: if no line
    of the output names a user of the file, then for every satellite that
    passes both visibility tests for that user and for every colour,
    either the output already holds the lines 1 to 32 of that satellite,
    or some line of the output gives a beam of that satellite and colour
    to a user whose position is less than 10 degrees from the left-out
    user, measured at the satellite as [calc_angle] does. *)
Theorem greedy_assignment_is_maximal acos std_sort (fs : string -> option string)
    (filename content : string) (st : parsed)
    (u : nat) (user_pos : vector_3d_t) (s : Z) (color : ascii) :
  sort_contract std_sort ->
  fs filename = Some content ->
  parse_lines (getlines content) parse_start = Ok (Parsed st) ->
  sats_numbered_in_order (getlines content) ->
  scenario_at (scenario st) USER_KEY !! u = Some user_pos ->
  passes_tests acos (scenario st) user_pos s ->
  color ∈ COLOR_IDS ->
  Z.of_nat u + 1 ∉ ev_user <$> beam_lines (stdout (solve acos std_sort fs filename)) ->
  counts_for (s + 1) (beam_lines (stdout (solve acos std_sort fs filename)))
    = seqZ 1 BEAMS_PER_SATELLITE \/
  exists sat_pos ev target,
    scenario_at (scenario st) SATS_KEY !! Z.to_nat s = Some sat_pos /\
    ev ∈ beam_lines (stdout (solve acos std_sort fs filename)) /\
    ev_sat ev = s + 1 /\ ev_color ev = color /\
    scenario_at (scenario st) USER_KEY !! Z.to_nat (ev_user ev - 1) = Some target /\
    F64.ltb (to_double (calc_angle acos sat_pos user_pos target))
            SELF_INTERFERENCE_MAX = true.
Proof.
  intros Hsort Hfs Hparse Hnum Hpos Hpass Hcolor.
  apply list_elem_of_lookup in Hcolor as [c Hcolor].
  assert (c < 4)%nat as Hc by (apply lookup_lt_Some in Hcolor; simpl in Hcolor; lia).
  destruct (user_loop_total acos (scenario st) (sat_beam_list st)
              (length (scenario_at (scenario st) USER_KEY)) 0 [] ltac:(lia)
              (heads_in_range _ _ Hparse Hnum)) as [vis Hgen].
  change (generate_user_vis_list acos (scenario st) (sat_beam_list st) = Ok vis) in Hgen.
  unfold solve. rewrite Hfs, Hparse, Hgen. cbn zeta. cbn [stdout].
  rewrite beam_lines_BeamLine.
  pose proof (engine_inv_run acos _ st (std_sort sortUsersByPotentialCoverage vis)
                Hparse) as Hinv.
  revert Hinv.
  pose proof (parse_lines_parsed _ _ Hparse) as [Hlay Hs Hempty _ _].
  destruct (Hsort vis) as [Hperm _].
  pose proof (generate_in_range _ _ _ _ Hgen) as Hrange.
  rewrite (assign_is_serve_all acos (scenario st) (sat_beam_list st)
             (length (scenario_at (scenario st) SATS_KEY)) eq_refl
             (numbered_ids _ _ Hparse Hnum)); [| by rewrite Hs | by rewrite Hperm].
  cbn [final_heap events]. intros Hinv Hnot.
  destruct (visibility_of_entries acos (scenario st) (sat_beam_list st))
    as (_ & Hchar & _ & _).
  destruct (Hchar vis Hgen) as [Hlen _].
  destruct (lookup_lt_is_Some_2 vis u) as [entry Hentry].
  { rewrite Hlen. by eapply lookup_lt_Some. }
  destruct (visible_iff_passes acos _ st vis u entry Hparse Hnum Hgen Hentry)
    as (Hid & user_pos' & Hpos' & Hmem).
  rewrite Hpos in Hpos'. injection Hpos' as <-.
  apply Hmem in Hpass as Hs'.
  assert (entry ∈ vis) as Hin by by eapply list_elem_of_lookup_2.
  rewrite Forall_forall in Hrange. destruct (Hrange entry Hin) as [_ Hvis].
  rewrite Forall_forall in Hvis. specialize (Hvis s Hs').
  set (n := length (scenario_at (scenario st) SATS_KEY)) in *.
  assert (slots_printed (scenario st)
            (serve_all acos (scenario st) (heap st)
               (std_sort sortUsersByPotentialCoverage vis)).1
            (serve_all acos (scenario st) (heap st)
               (std_sort sortUsersByPotentialCoverage vis)).2) as Hprinted.
  { apply (slots_printed_serve_all acos (scenario st) n _ (heap st) []).
    - rewrite Hperm. by apply Forall_forall.
    - intros k c' slot target _ Hslot Htarget.
      rewrite (Hempty _ _ Hslot) in Htarget. by apply not_elem_of_nil in Htarget. }
  pose proof (unserved_stay_unavailable acos (scenario st) (heap st)
                (std_sort sortUsersByPotentialCoverage vis) entry user_pos (s, c)
                ltac:(by rewrite Hperm)
                ltac:(by rewrite Hid)
                ltac:(by rewrite Hid, Nat2Z.id)
                ltac:(by apply elem_of_candidates)) as Hav.
  set (hf := (serve_all acos (scenario st) (heap st)
                (std_sort sortUsersByPotentialCoverage vis)).1) in *.
  set (printed := (serve_all acos (scenario st) (heap st)
                     (std_sort sortUsersByPotentialCoverage vis)).2) in *.
  pose proof (ei_layout _ _ _ _ _ _ Hinv) as Hlayf.
  assert (Z.to_nat s < n)%nat as Hk by (clear -Hvis; lia).
  unfold available in Hav. simpl in Hav.
  apply andb_false_iff in Hav as [Hcap|Hconf].
  - left. unfold capacity_remaining in Hcap.
    pose proof (ei_printed _ _ _ _ _ _ Hinv (Z.to_nat s)) as Hcounts.
    destruct (ei_count _ _ _ _ _ _ Hinv (Z.to_nat s) Hk) as [_ Hle].
    replace (Z.of_nat (Z.to_nat s) + 1) with (s + 1) in Hcounts by lia.
    rewrite Hcounts. f_equal.
    unfold counter in *.
    destruct (beam_counts hf !! Z.to_nat s) as [count|] eqn:Hcount.
    + simpl in *. apply bool_decide_eq_false in Hcap.
      unfold BEAMS_PER_SATELLITE in *. lia.
    + apply lookup_ge_None in Hcount. rewrite (layout_counts _ _ _ Hlayf) in Hcount. lia.
  - right. apply negb_false_iff in Hconf. unfold conflicts in Hconf.
    destruct (lookup_lt_is_Some_2 (scenario_at (scenario st) SATS_KEY) (Z.to_nat s))
      as [sat_pos Hsat]; [lia|].
    destruct (lookup_lt_is_Some_2 (beam_lists hf) (slot_index (Z.to_nat s) c))
      as [slot Hslot].
    { rewrite (layout_lists _ _ _ Hlayf), !slot_index_eq. lia. }
    rewrite Hsat, Hslot in Hconf.
    apply existsb_exists in Hconf as (target & Hin' & Hlt).
    apply list_elem_of_In in Hin'.
    destruct (Hprinted _ _ _ _ Hc Hslot Hin') as (ev & Hev & Hsat' & Hcol & Huser).
    exists sat_pos, ev, target. repeat split; try done.
    + lia.
    + rewrite Hcolor in Hcol. by injection Hcol.
Qed.

Lemma crowded_tokens : sat_id_tokens (getlines crowded_file) = ["1"].
Proof. reflexivity. Qed.

Lemma crowded_numbered : sats_numbered_in_order (getlines crowded_file).
Proof.
  intros k tok. rewrite crowded_tokens.
  destruct k as [|k]; simpl; intros [= <-]; reflexivity.
Qed.

Lemma greedy_assignment_is_maximal_witness :
  sort_contract insertion_sort /\
  parse_lines (getlines crowded_file) parse_start = Ok (Parsed crowded_state) /\
  sats_numbered_in_order (getlines crowded_file) /\
  scenario_at (scenario crowded_state) USER_KEY !! 4%nat = Some (point 0 0 1) /\
  passes_tests acos_ref (scenario crowded_state) (point 0 0 1) 0 /\
  "C"%char ∈ COLOR_IDS /\
  (5 ∉ ev_user <$> beam_lines (stdout (solve acos_ref insertion_sort
                                         (fun _ => Some crowded_file) "scenario.txt"))) /\
  (counts_for 1 (beam_lines (stdout (solve acos_ref insertion_sort
                                       (fun _ => Some crowded_file) "scenario.txt")))
     = seqZ 1 BEAMS_PER_SATELLITE \/
   exists sat_pos ev target,
     scenario_at (scenario crowded_state) SATS_KEY !! 0%nat = Some sat_pos /\
     ev ∈ beam_lines (stdout (solve acos_ref insertion_sort
                                (fun _ => Some crowded_file) "scenario.txt")) /\
     ev_sat ev = 1 /\ ev_color ev = "C"%char /\
     scenario_at (scenario crowded_state) USER_KEY !! Z.to_nat (ev_user ev - 1)
       = Some target /\
     F64.ltb (to_double (calc_angle acos_ref sat_pos (point 0 0 1) target))
             SELF_INTERFERENCE_MAX = true).
Proof.
  assert (passes_tests acos_ref (scenario crowded_state) (point 0 0 1) 0) as Hpass.
  { exists (point 0 0 2). split; [lia|]. split; [vm_compute; reflexivity|].
    split; [vm_compute; reflexivity|]. intros int_pos Hin.
    replace (scenario_at (scenario crowded_state) INTERFERER_KEY)
      with (@nil vector_3d_t) in Hin by (vm_compute; reflexivity).
    by apply not_elem_of_nil in Hin. }
  assert ("C"%char ∈ COLOR_IDS) as Hcolor.
  { apply (list_elem_of_lookup_2 _ 2). reflexivity. }
  assert (5 ∉ ev_user <$> beam_lines (stdout (solve acos_ref insertion_sort
                                        (fun _ => Some crowded_file) "scenario.txt")))
    as Hnot.
  { apply (bool_decide_unpack _). vm_compute. exact I. }
  split; [exact insertion_sort_contract|]. split; [vm_compute; reflexivity|].
  split; [exact crowded_numbered|]. split; [vm_compute; reflexivity|].
  split; [exact Hpass|]. split; [exact Hcolor|]. split; [exact Hnot|].
  exact (greedy_assignment_is_maximal acos_ref insertion_sort
           (fun _ => Some crowded_file) "scenario.txt" crowded_file crowded_state
           4 (point 0 0 1) 0 "C"%char insertion_sort_contract eq_refl
           ltac:(vm_compute; reflexivity) crowded_numbered
           ltac:(vm_compute; reflexivity) Hpass Hcolor Hnot).
Defined.
